(** * Page server and remote page client: a shallow embedding

    The repository holds two programs that talk to each other over HTTP/JSON:

    - the Go page server ([main.go]): an in-memory page map, a list of
      received WAL records, and the three handlers [handleGetPage],
      [handleStreamWAL] and [handlePing];
    - the C++ client compiled into InnoDB ([page_server_client.cc]): base64
      helpers, a bounded retry loop around one reusable socket, a hand-written
      JSON field scanner, and the [PageServerClient] entry points.

    Both are embedded below as executable Rocq functions.  Unsigned machine
    integers are [Z] with their wrap-around written out where the source can
    wrap; bytes are [Z] in [0, 256); C strings are [string] (the characters
    before the terminating NUL).  The Go map is a [gmap string (list Z)]. *)

From Stdlib Require Import ZArith Ascii String DecimalString.
From Stdlib Require DecimalPos DecimalN DecimalFacts.
From stdpp Require Import base option list gmap strings.

Local Open Scope string_scope.
Local Open Scope Z_scope.

(** ** Shared helpers: characters, decimal printing *)

Definition byte := Z.

Definition is_byte (b : Z) : Prop := 0 <= b < 256.

Definition code (c : ascii) : Z := Z.of_N (N_of_ascii c).

Definition chr (z : Z) : ascii := ascii_of_N (Z.to_N z).

(** [%d], [%u] and [%llu] applied to a non-negative integer. *)
Definition fmt_u (n : Z) : string := NilZero.string_of_uint (N.to_uint (Z.to_N n)).

Definition wrap32 (z : Z) : Z := z mod 2 ^ 32.
Definition wrap64 (z : Z) : Z := z mod 2 ^ 64.

(** The alphabet shared by both base64 implementations. *)
Definition base64_chars : string :=
  "ABCDEFGHIJKLMNOPQRSTUVWXYZabcdefghijklmnopqrstuvwxyz0123456789+/".

(** [base64_chars[k]] *)
Definition b64_char (k : Z) : ascii :=
  match String.get (Z.to_nat k) base64_chars with
  | Some c => c
  | None => "000"%char
  end.

(** ** The Go page server *)

Module PageServer.

(** *** Go's [encoding/base64] ([StdEncoding]), as documented by the library:
    RFC 4648 with padding. *)

Fixpoint EncodeToString (src : list byte) : string :=
  match src with
  | [] => ""
  | [b0] =>
      let v := Z.shiftl b0 16 in
      String (b64_char (Z.land (Z.shiftr v 18) 63))
        (String (b64_char (Z.land (Z.shiftr v 12) 63)) "==")
  | [b0; b1] =>
      let v := Z.lor (Z.shiftl b0 16) (Z.shiftl b1 8) in
      String (b64_char (Z.land (Z.shiftr v 18) 63))
        (String (b64_char (Z.land (Z.shiftr v 12) 63))
           (String (b64_char (Z.land (Z.shiftr v 6) 63)) "="))
  | b0 :: b1 :: b2 :: rest =>
      let v := Z.lor (Z.lor (Z.shiftl b0 16) (Z.shiftl b1 8)) b2 in
      String (b64_char (Z.land (Z.shiftr v 18) 63))
        (String (b64_char (Z.land (Z.shiftr v 12) 63))
           (String (b64_char (Z.land (Z.shiftr v 6) 63))
              (String (b64_char (Z.land v 63)) (EncodeToString rest))))
  end.

Definition sextet (c : ascii) : option Z :=
  let k := code c in
  if (65 <=? k) && (k <=? 90) then Some (k - 65)
  else if (97 <=? k) && (k <=? 122) then Some (k - 97 + 26)
  else if (48 <=? k) && (k <=? 57) then Some (k - 48 + 52)
  else if k =? 43 then Some 62
  else if k =? 47 then Some 63
  else None.

(** Quanta of four characters; padding is only accepted in the last one. *)
Fixpoint decode_quanta (cs : list ascii) : option (list byte) :=
  match cs with
  | [] => Some []
  | [a; b; c; d] =>
      match sextet a, sextet b with
      | Some x, Some y =>
          let hi := Z.lor (Z.shiftl x 18) (Z.shiftl y 12) in
          if (code c =? 61) && (code d =? 61) then
            Some [Z.land (Z.shiftr hi 16) 255]
          else
            match sextet c with
            | Some z =>
                let v := Z.lor hi (Z.shiftl z 6) in
                if code d =? 61 then
                  Some [Z.land (Z.shiftr v 16) 255; Z.land (Z.shiftr v 8) 255]
                else
                  match sextet d with
                  | Some w =>
                      let v := Z.lor v w in
                      Some [Z.land (Z.shiftr v 16) 255; Z.land (Z.shiftr v 8) 255;
                            Z.land v 255]
                  | None => None
                  end
            | None => None
            end
      | _, _ => None
      end
  | a :: b :: c :: d :: rest =>
      match sextet a, sextet b, sextet c, sextet d, decode_quanta rest with
      | Some x, Some y, Some z, Some w, Some tl =>
          let v := Z.lor (Z.lor (Z.lor (Z.shiftl x 18) (Z.shiftl y 12)) (Z.shiftl z 6)) w in
          Some (Z.land (Z.shiftr v 16) 255 :: Z.land (Z.shiftr v 8) 255
                  :: Z.land v 255 :: tl)
      | _, _, _, _, _ => None
      end
  | _ => None
  end.

(** [DecodeString]: CR and LF are skipped, anything else outside the alphabet
    (or misplaced padding) is a [CorruptInputError], here [None]. *)
Definition DecodeString (s : string) : option (list byte) :=
  decode_quanta
    (List.filter (fun c => negb ((code c =? 13) || (code c =? 10)))
       (list_ascii_of_string s)).

(** *** Server state and wire structures *)

Record WALRecord := mkWALRecord {
  LSN : Z;
  WALData : list byte;
  SpaceID : Z;
  PageNo : Z
}.

Record PageServer := mkPageServer {
  pages : gmap string (list byte);
  walRecords : list WALRecord
}.

Record GetPageRequest := mkGetPageRequest {
  gp_SpaceID : Z;
  gp_PageNo : Z;
  gp_LSN : Z
}.

Record GetPageResponse := mkGetPageResponse {
  gr_Status : string;
  gr_PageData : string;
  gr_PageLSN : Z;
  gr_Error : string
}.

Record StreamWALRequest := mkStreamWALRequest {
  sw_LSN : Z;
  sw_WALData : string;
  sw_SpaceID : Z;
  sw_PageNo : Z
}.

Record StreamWALResponse := mkStreamWALResponse {
  sr_Status : string;
  sr_LastAppliedLSN : Z;
  sr_Error : string
}.

Record PingResponse := mkPingResponse {
  pr_Status : string;
  pr_Version : string
}.

(** An incoming request: the HTTP method and the outcome of
    [json.NewDecoder(r.Body).Decode(&req)]; [None] is a decode error. *)
Record Request (A : Type) := mkRequest {
  Method : string;
  Body : option A
}.
Arguments mkRequest {A} _ _.
Arguments Method {A} _.
Arguments Body {A} _.

(** What a handler writes to the [http.ResponseWriter]. *)
Inductive Payload :=
  | PlainText (msg : string)
  | GetPageJSON (r : GetPageResponse)
  | StreamWALJSON (r : StreamWALResponse)
  | PingJSON (r : PingResponse).

Record Response := mkResponse {
  StatusCode : Z;
  ContentType : string;
  Written : Payload
}.

Definition StatusOK := 200.
Definition StatusBadRequest := 400.
Definition StatusNotFound := 404.
Definition StatusMethodNotAllowed := 405.

Definition MethodPost := "POST".
Definition MethodGet := "GET".

(** [http.Error(w, msg, code)] *)
Definition http_Error (msg : string) (code : Z) : Response :=
  mkResponse code "text/plain; charset=utf-8" (PlainText msg).

Definition json_reply (code : Z) (p : Payload) : Response :=
  mkResponse code "application/json" p.

(** *** Handlers as state transformers over the [*PageServer] receiver *)

Definition Handler (A : Type) : Type := PageServer → A * PageServer.

#[global] Instance handler_ret : MRet Handler := λ A a s, (a, s).

#[global] Instance handler_bind : MBind Handler :=
  λ A B k m s, let (a, s') := m s in k a s'.

(** [s.mu.RLock(); v := s.pages[key]; s.mu.RUnlock()] *)
Definition read_page (key : string) : Handler (option (list byte)) :=
  fun s => (pages s !! key, s).

(** [s.walMu.Lock(); s.walRecords = append(s.walRecords, r); s.walMu.Unlock()] *)
Definition append_wal (r : WALRecord) : Handler unit :=
  fun s => (tt, mkPageServer (pages s) (walRecords s ++ [r])).

Definition NewPageServer : PageServer := mkPageServer ∅ [].

(** [fmt.Sprintf("%d:%d", space, page)] *)
Definition page_key (space page : Z) : string :=
  fmt_u space +:+ ":" +:+ fmt_u page.

Definition handleGetPage (r : Request GetPageRequest) : Handler Response :=
  if negb (String.eqb (Method r) MethodPost) then
    mret (http_Error "Method not allowed" StatusMethodNotAllowed)
  else
    match Body r with
    | None => mret (http_Error "Invalid JSON" StatusBadRequest)
    | Some req =>
        let key := page_key (gp_SpaceID req) (gp_PageNo req) in
        found ← read_page key;
        match found with
        | None =>
            mret (json_reply StatusNotFound
                   (GetPageJSON
                      (mkGetPageResponse "error" "" 0
                         ("Page not found: space=" +:+ fmt_u (gp_SpaceID req)
                            +:+ " page=" +:+ fmt_u (gp_PageNo req)))))
        | Some pageData =>
            let pageDataB64 := EncodeToString pageData in
            mret (json_reply StatusOK
                   (GetPageJSON
                      (mkGetPageResponse "success" pageDataB64 (gp_LSN req) "")))
        end
    end.

Definition handleStreamWAL (r : Request StreamWALRequest) : Handler Response :=
  if negb (String.eqb (Method r) MethodPost) then
    mret (http_Error "Method not allowed" StatusMethodNotAllowed)
  else
    match Body r with
    | None => mret (http_Error "Invalid JSON" StatusBadRequest)
    | Some req =>
        match DecodeString (sw_WALData req) with
        | None => mret (http_Error "Invalid base64 WAL data" StatusBadRequest)
        | Some walData =>
            let record :=
              mkWALRecord (sw_LSN req) walData (sw_SpaceID req) (sw_PageNo req) in
            _ ← append_wal record;
            mret (json_reply StatusOK
                   (StreamWALJSON (mkStreamWALResponse "success" (sw_LSN req) "")))
        end
    end.

Definition handlePing (method : string) : Handler Response :=
  if negb (String.eqb method MethodGet) then
    mret (http_Error "Method not allowed" StatusMethodNotAllowed)
  else
    mret (json_reply StatusOK (PingJSON (mkPingResponse "ok" "1.0.0"))).

(** *** Routing *)

(** The three routes registered in [main]: a request is one of these calls. *)
Inductive Call :=
  | GetPageCall (r : Request GetPageRequest)
  | StreamWALCall (r : Request StreamWALRequest)
  | PingCall (method : string).

Definition serve (c : Call) : Handler Response :=
  match c with
  | GetPageCall r => handleGetPage r
  | StreamWALCall r => handleStreamWAL r
  | PingCall method => handlePing method
  end.

(** Requests served one after the other, in the order in which the server's
    locks let them at its state. *)
Fixpoint serve_all (cs : list Call) : Handler (list Response) :=
  match cs with
  | [] => mret []
  | c :: rest => r ← serve c; rs ← serve_all rest; mret (r :: rs)
  end.

End PageServer.

(** ** The C++ remote page client *)

Module PageServerClient.

Inductive dberr_t := DB_SUCCESS | DB_ERROR.

Definition dberr_eqb (a b : dberr_t) : bool :=
  match a, b with
  | DB_SUCCESS, DB_SUCCESS | DB_ERROR, DB_ERROR => true
  | _, _ => false
  end.

Definition MAX_RESPONSE_SIZE : Z := 64 * 1024.
Definition PAGE_SERVER_CONNECT_TIMEOUT : Z := 5.
Definition READ_TIMEOUT : Z := 10.
Definition MAX_RETRIES : Z := 2.

(** *** base64 *)

(** One iteration of the encoder's [for] loop emits four characters for the
    bytes [data[i]], [data[i+1]], [data[i+2]]; the list argument of
    [base64_encode_from] is [data[i..len)], so [i < len] reads "non-empty",
    [i + 1 < len] "at least two left", and so on.  [j] is the output index. *)
Fixpoint base64_encode_from (data : list byte) (j out_len : Z) : string :=
  match data with
  | [] => ""
  | d0 :: tl =>
      if j + 4 <? out_len then
        let d1 := match tl with d :: _ => d | [] => 0 end in
        let d2 := match tl with _ :: d :: _ => d | _ => 0 end in
        let b := Z.lor (Z.lor (Z.shiftl d0 16) (Z.shiftl d1 8)) d2 in
        let c0 := b64_char (Z.land (Z.shiftr b 18) 63) in
        let c1 := b64_char (Z.land (Z.shiftr b 12) 63) in
        let c2 := match tl with
                  | _ :: _ => b64_char (Z.land (Z.shiftr b 6) 63)
                  | [] => "="%char
                  end in
        let c3 := match tl with
                  | _ :: _ :: _ => b64_char (Z.land b 63)
                  | _ => "="%char
                  end in
        String c0 (String c1 (String c2 (String c3
          (match tl with
           | _ :: _ :: rest => base64_encode_from rest (j + 4) out_len
           | _ => ""
           end))))
      else ""
  end.

(** [base64_encode(data, len, out, out_len)]: the C string left in [out]. *)
Definition base64_encode (data : list byte) (out_len : Z) : string :=
  base64_encode_from data 0 out_len.

(** The decoder's character classification: [idx], or [None] for [continue]. *)
Definition b64_index (c : ascii) : option Z :=
  let k := code c in
  if (code "A" <=? k) && (k <=? code "Z") then Some (k - code "A")
  else if (code "a" <=? k) && (k <=? code "z") then Some (k - code "a" + 26)
  else if (code "0" <=? k) && (k <=? code "9") then Some (k - code "0" + 52)
  else if k =? code "+" then Some 62
  else if k =? code "/" then Some 63
  else None.

(** The decoder's loop from input position [i] with [j] bytes already
    written; the result lists the bytes written from here on.  [val] is a
    [uint32_t], so its left shift wraps. *)
Fixpoint base64_decode_from (inp : string) (i j val pad out_len : Z) : list byte :=
  match inp with
  | EmptyString => []
  | String c rest =>
      if j <? out_len then
        if code c =? code "=" then
          base64_decode_from rest (i + 1) j val (pad + 1) out_len
        else
          match b64_index c with
          | None => base64_decode_from rest (i + 1) j val pad out_len
          | Some idx =>
              let val := Z.lor (wrap32 (Z.shiftl val 6)) idx in
              if (i + 1) mod 4 =? 0 then
                let w0 := j <? out_len in
                let j1 := if w0 then j + 1 else j in
                let w1 := (j1 <? out_len) && (pad <? 2) in
                let j2 := if w1 then j1 + 1 else j1 in
                let w2 := (j2 <? out_len) && (pad <? 1) in
                let j3 := if w2 then j2 + 1 else j2 in
                (if w0 then [Z.land (Z.shiftr val 16) 255] else []) ++
                (if w1 then [Z.land (Z.shiftr val 8) 255] else []) ++
                (if w2 then [Z.land val 255] else []) ++
                base64_decode_from rest (i + 1) j3 0 pad out_len
              else base64_decode_from rest (i + 1) j val pad out_len
          end
      else []
  end.

(** [base64_decode(in, out, out_len)]: the bytes stored in [out]; the
    function's return value [j] is their number. *)
Definition base64_decode (inp : string) (out_len : Z) : list byte :=
  base64_decode_from inp 0 0 0 0 out_len.

(** *** C string functions used by the client *)

(** A buffer read as a C string stops at its first NUL. *)
Fixpoint c_str (buf : string) : string :=
  match buf with
  | EmptyString => ""
  | String c rest => if code c =? 0 then "" else String c (c_str rest)
  end.

(** [strstr]: the suffix of [hay] at the first occurrence of [needle]. *)
Fixpoint strstr (hay needle : string) : option string :=
  if String.prefix needle hay then Some hay
  else match hay with
       | EmptyString => None
       | String _ rest => strstr rest needle
       end.

(** [strchr] *)
Fixpoint strchr (s : string) (c : ascii) : option string :=
  match s with
  | EmptyString => None
  | String d rest => if Ascii.eqb d c then Some s else strchr rest c
  end.

Definition isspace (c : ascii) : bool :=
  let k := code c in (k =? 32) || ((9 <=? k) && (k <=? 13)).

Definition isdigit (c : ascii) : bool :=
  (code "0" <=? code c) && (code c <=? code "9").

Fixpoint skip_while (p : ascii → bool) (s : string) : string :=
  match s with
  | EmptyString => ""
  | String c rest => if p c then skip_while p rest else s
  end.

(** Leading decimal digits of [s], accumulated onto [acc]. *)
Fixpoint digits_value (s : string) (acc : Z) : Z :=
  match s with
  | EmptyString => acc
  | String c rest =>
      if isdigit c then digits_value rest (10 * acc + (code c - code "0")) else acc
  end.

(** [(sign, rest)] after optional white space and one optional sign. *)
Definition number_start (s : string) : bool * string :=
  match skip_while isspace s with
  | String "-" rest => (true, rest)
  | String "+" rest => (false, rest)
  | t => (false, t)
  end.

(** [strtoull(s, nullptr, 10)]: saturates at [ULLONG_MAX]; a minus sign
    negates modulo 2^64. *)
Definition strtoull (s : string) : Z :=
  let '(neg, t) := number_start s in
  let v := digits_value t 0 in
  if v >? 2 ^ 64 - 1 then 2 ^ 64 - 1
  else if neg then wrap64 (- v) else v.

(** [strtol(s, nullptr, 10)] with a 64-bit [long]: saturates at [LONG_MIN]
    and [LONG_MAX]. *)
Definition strtol (s : string) : Z :=
  let '(neg, t) := number_start s in
  let v := digits_value t 0 in
  if neg then Z.max (- v) (- 2 ^ 63) else Z.min v (2 ^ 63 - 1).

(** [static_cast<uint>(atoi(s))].  [atoi] is [(int) strtol(s, nullptr, 10)]:
    the narrowing to [int] and the cast to [uint] keep the low 32 bits of
    the saturated value, so a number of 2^63 or more reads as 4294967295. *)
Definition atoi_uint (s : string) : Z := wrap32 (strtol s).

(** [snprintf(buf, size, ...)] keeps at most [size - 1] characters. *)
Definition snprintf (size : Z) (formatted : string) : string :=
  String.substring 0 (Z.to_nat (size - 1)) formatted.

Definition strlen (s : string) : Z := Z.of_nat (String.length s).

(** *** JSON field scanner *)

Definition dquote : ascii := "034"%char.

Definition unescape (c : ascii) : ascii :=
  if Ascii.eqb c "n" then "010"%char
  else if Ascii.eqb c "r" then "013"%char
  else if Ascii.eqb c "t" then "009"%char
  else c.

(** The copy loop of [json_get_string] from [pos], with [i] characters
    already stored.  A backslash that ends the buffer stores the NUL, which
    ends the value.  The bound [value_len - 1] is computed in [size_t]: for
    [value_len = 0] it is 2^64 - 1. *)
Fixpoint json_copy_value (pos : string) (i value_len : Z) : string :=
  match pos with
  | EmptyString => ""
  | String c rest =>
      if Ascii.eqb c dquote || negb (i <? wrap64 (value_len - 1)) then ""
      else if Ascii.eqb c "\" then
        match rest with
        | EmptyString => ""
        | String e rest' =>
            String (unescape e) (json_copy_value rest' (i + 1) value_len)
        end
      else String c (json_copy_value rest (i + 1) value_len)
  end.

Definition is_blank (c : ascii) : bool :=
  Ascii.eqb c " " || Ascii.eqb c "009".

Definition quoted (key : string) : string :=
  snprintf 256 (String dquote key +:+ String dquote "").

(** [json_get_string(json, key, value, value_len)]; [None] is [false]. *)
Definition json_get_string (json key : string) (value_len : Z) : option string :=
  match strstr json (quoted key) with
  | None => None
  | Some pos =>
      match strchr pos ":" with
      | None => None
      | Some pos =>
          match skip_while is_blank (String.substring 1 (String.length pos) pos) with
          | String c pos =>
              if Ascii.eqb c dquote then Some (json_copy_value pos 0 value_len)
              else None
          | EmptyString => None
          end
      end
  end.

(** [json_get_uint64(json, key, &value)] *)
Definition json_get_uint64 (json key : string) : option Z :=
  match strstr json (quoted key) with
  | None => None
  | Some pos =>
      match strchr pos ":" with
      | None => None
      | Some pos =>
          Some (strtoull
                  (skip_while is_blank (String.substring 1 (String.length pos) pos)))
      end
  end.

Definition CRLF : string := String "013" (String "010" "").
Definition LF : string := String "010" "".

(** [extract_json_body] *)
Definition extract_json_body (http_response : string) : string :=
  match strstr http_response (CRLF +:+ CRLF) with
  | Some body => String.substring 4 (String.length body) body
  | None =>
      match strstr http_response (LF +:+ LF) with
      | Some body => String.substring 2 (String.length body) body
      | None => http_response
      end
  end.

(** *** Process state, the outside world, and the client monad *)

(** The file-scope variables of the client. *)
Record Globals := mkGlobals {
  page_server_enabled : bool;
  page_server_initialized : bool;
  page_server_address : option string;
  page_server_host : option string;
  page_server_port : Z;
  page_server_socket : Z
}.

(** What the client does to the outside, in program order. *)
Inductive event :=
  | EvConnect (host : option string) (port : Z) (fd : Z)
  | EvClose (fd : Z)
  | EvSend (fd : Z) (request : string) (len : Z) (ok : bool)
  | EvRecv (fd : Z) (n : Z)
  | EvSleep (usec : Z)
  | EvLog (msg : string).

(** The environment answers each system call by its call number: the k-th
    [http_connect] yields [connect_result k] (a descriptor, or negative for
    any failure of [socket], [gethostbyname] or [connect]), the k-th [send]
    succeeds iff [send_result k], the k-th [recv] delivers [recv_result k]
    ([None]: error or timeout, the empty string: peer closed), and the k-th
    [my_malloc] succeeds iff [malloc_result k].  The answers may go on
    forever; nothing below relies on the environment to stop.
    [freed_intact] tells what the allocator leaves of a block given to
    [my_free]: the bytes it held, or nothing of them. *)
Record World := mkWorld {
  connect_result : nat → Z;
  send_result : nat → bool;
  recv_result : nat → option string;
  malloc_result : nat → bool;
  freed_intact : bool;
  connects : nat;
  sends : nat;
  recvs : nat;
  mallocs : nat;
  trace : list event
}.

Record State := mkState {
  glob : Globals;
  world : World
}.

(** A computation either yields a value and a new state, or runs out of the
    fuel given to one of its loops ([None]). *)
Definition M (A : Type) : Type := State → option (A * State).

#[global] Instance client_ret : MRet M := λ A a s, Some (a, s).

#[global] Instance client_bind : MBind M :=
  λ A B k m s, match m s with
               | Some (a, s') => k a s'
               | None => None
               end.

Definition out_of_fuel {A} : M A := λ _, None.

Definition get_glob : M Globals := λ s, Some (glob s, s).

Definition set_glob (f : Globals → Globals) : M unit :=
  λ s, Some (tt, mkState (f (glob s)) (world s)).

Definition set_enabled (b : bool) (g : Globals) : Globals :=
  mkGlobals b (page_server_initialized g) (page_server_address g)
    (page_server_host g) (page_server_port g) (page_server_socket g).

Definition set_initialized (b : bool) (g : Globals) : Globals :=
  mkGlobals (page_server_enabled g) b (page_server_address g)
    (page_server_host g) (page_server_port g) (page_server_socket g).

Definition set_address (a : option string) (g : Globals) : Globals :=
  mkGlobals (page_server_enabled g) (page_server_initialized g) a
    (page_server_host g) (page_server_port g) (page_server_socket g).

Definition set_host (h : option string) (g : Globals) : Globals :=
  mkGlobals (page_server_enabled g) (page_server_initialized g)
    (page_server_address g) h (page_server_port g) (page_server_socket g).

Definition set_port (p : Z) (g : Globals) : Globals :=
  mkGlobals (page_server_enabled g) (page_server_initialized g)
    (page_server_address g) (page_server_host g) p (page_server_socket g).

Definition set_socket (fd : Z) (g : Globals) : Globals :=
  mkGlobals (page_server_enabled g) (page_server_initialized g)
    (page_server_address g) (page_server_host g) (page_server_port g) fd.

Definition log_event (e : event) (w : World) : World :=
  mkWorld (connect_result w) (send_result w) (recv_result w) (malloc_result w) (freed_intact w)
    (connects w) (sends w) (recvs w) (mallocs w) (trace w ++ [e]).

Definition emit (e : event) : M unit :=
  λ s, Some (tt, mkState (glob s) (log_event e (world s))).

(** [my_malloc(...)]: [true] iff the pointer returned is not null. *)
Definition my_malloc : M bool :=
  λ s, let w := world s in
       Some (malloc_result w (mallocs w),
             mkState (glob s)
               (mkWorld (connect_result w) (send_result w) (recv_result w)
                  (malloc_result w) (freed_intact w) (connects w) (sends w) (recvs w)
                  (S (mallocs w)) (trace w))).

(** [http_connect(host, port)]: a descriptor, or -1. *)
Definition http_connect (host : option string) (port : Z) : M Z :=
  λ s, let w := world s in
       let r := connect_result w (connects w) in
       let fd := if r <? 0 then -1 else r in
       Some (fd,
             mkState (glob s)
               (mkWorld (connect_result w) (send_result w) (recv_result w)
                  (malloc_result w) (freed_intact w) (S (connects w)) (sends w) (recvs w)
                  (mallocs w) (trace w ++ [EvConnect host port fd]))).

Definition close (fd : Z) : M unit := emit (EvClose fd).

Definition usleep (usec : Z) : M unit := emit (EvSleep usec).

Definition sql_print (msg : string) : M unit := emit (EvLog msg).

(** [send(sockfd, request, len, 0) >= 0]: [request] is the text held by the
    request buffer and [len] the length passed.  When [len] is larger than
    the buffer, the call reads on past the block; what follows the text on
    the wire is then not described by the event. *)
Definition send (fd : Z) (request : string) (len : Z) : M bool :=
  λ s, let w := world s in
       let ok := send_result w (sends w) in
       Some (ok,
             mkState (glob s)
               (mkWorld (connect_result w) (send_result w) (recv_result w)
                  (malloc_result w) (freed_intact w) (connects w) (S (sends w)) (recvs w)
                  (mallocs w) (trace w ++ [EvSend fd request len ok]))).

(** [recv(sockfd, buffer, size, 0)]: the bytes received, at most [size] of
    them; the empty string stands for [n <= 0]. *)
Definition recv (fd : Z) (size : Z) : M string :=
  λ s, let w := world s in
       let chunk := match recv_result w (recvs w) with
                    | Some c => String.substring 0 (Z.to_nat size) c
                    | None => ""
                    end in
       Some (chunk,
             mkState (glob s)
               (mkWorld (connect_result w) (send_result w) (recv_result w)
                  (malloc_result w) (freed_intact w) (connects w) (sends w) (S (recvs w))
                  (mallocs w) (trace w ++ [EvRecv fd (strlen chunk)]))).

(** A field looked up in a block after [my_free] has been called on it:
    [found] is what the scan finds in the block as it was.  The scan sees
    that if the allocator left the block alone, and finds nothing
    otherwise. *)
Definition scan_freed {A} (found : option A) : M (option A) :=
  λ s, Some (if freed_intact (world s) then found else None, s).

(** *** The request loop *)

(** The [while (total < response_size - 1)] loop.  [acc] is
    [response[0..total)]; the result is [(acc, total, reconnect)].  Both
    [total] and [response_size] are [size_t]. *)
Fixpoint recv_loop (fuel : nat) (sockfd : Z) (acc : string)
    (total response_size : Z) (reconnect : bool) : M (string * Z * bool) :=
  let limit := wrap64 (response_size - 1) in
  if total <? limit then
    match fuel with
    | O => out_of_fuel
    | S fuel' =>
        chunk ← recv sockfd (4096 - 1);
        let n := strlen chunk in
        if n <=? 0 then mret (acc, total, true)
        else if limit <=? total + n then
          mret (acc +:+ String.substring 0 (Z.to_nat (response_size - total - 1)) chunk,
                limit, reconnect)
        else
          let acc' := acc +:+ chunk in
          match strstr (c_str acc') (CRLF +:+ CRLF) with
          | Some _ => mret (acc', total + n, reconnect)
          | None => recv_loop fuel' sockfd acc' (total + n) response_size reconnect
          end
    end
  else mret (acc, total, reconnect).

(** The request as the format string of [http_request] spells it out. *)
Definition format_request (method path : string) (host : option string)
    (port : Z) (body : option string) : string :=
  method +:+ " " +:+ path +:+ " HTTP/1.1" +:+ CRLF +:+
  "Host: " +:+ default "(null)" host +:+ ":" +:+ fmt_u port +:+ CRLF +:+
  "Content-Type: application/json" +:+ CRLF +:+
  "Content-Length: " +:+ fmt_u (from_option strlen 0 body) +:+ CRLF +:+
  "Connection: keep-alive" +:+ CRLF +:+
  CRLF +:+
  default "" body.

(** The text [snprintf] leaves in the 4096-byte request buffer. *)
Definition build_request (method path : string) (host : option string)
    (port : Z) (body : option string) : string :=
  snprintf 4096 (format_request method path host port body).

(** The value [snprintf] returns, which [http_request] passes to [send] as
    the length: that of the whole formatted request, cut or not. *)
Definition request_len (method path : string) (host : option string)
    (port : Z) (body : option string) : Z :=
  strlen (format_request method path host port body).

Definition is_http_200 (response : string) : bool :=
  bool_decide (is_Some (strstr response "HTTP/1.1 200"))
  || bool_decide (is_Some (strstr response "HTTP/1.0 200")).

(** [usleep] argument of the retry paths: [100000 * (1 << retry)]. *)
Definition backoff (retry : Z) : Z := 100000 * Z.shiftl 1 retry.

(** The second half of one iteration of the retry loop, from the request
    buffer's allocation to the verdict on the response, on the socket
    [sockfd].  [continue sockfd reconnect response] is the rest of the loop:
    the next iteration with these values of the locals. *)
Definition http_exchange
    (continue : Z → bool → string → M (dberr_t * string))
    (retry sockfd : Z) (reconnect : bool)
    (method path : string) (body : option string)
    (response : string) (response_size : Z) : M (dberr_t * string) :=
  allocated ← my_malloc;
  if negb allocated then mret (DB_ERROR, response)
  else
    g ← get_glob;
    sent ← send sockfd
             (build_request method path (page_server_host g)
                (page_server_port g) body)
             (request_len method path (page_server_host g)
                (page_server_port g) body);
    if negb sent then
      if retry <? MAX_RETRIES then
        _ ← usleep (backoff retry); continue sockfd true response
      else mret (DB_ERROR, response)
    else
      '(acc, total, reconnect') ←
         recv_loop (Z.to_nat response_size) sockfd "" 0 response_size reconnect;
      let response' := if 0 <? total then c_str acc else response in
      if (0 <? total) && is_http_200 response' then
        mret (DB_SUCCESS, response')
      else if retry <? MAX_RETRIES then
        _ ← usleep (backoff retry); continue sockfd true response'
      else continue sockfd reconnect' response'.

(** The [for (retry = 0; retry <= MAX_RETRIES; retry++)] loop, entered at
    [retry] with the locals [sockfd], [reconnect] and the current contents
    of the caller's [response] buffer. *)
Fixpoint http_request_loop (fuel : nat) (retry sockfd : Z) (reconnect : bool)
    (method path : string) (body : option string)
    (response : string) (response_size : Z) : M (dberr_t * string) :=
  if retry <=? MAX_RETRIES then
    match fuel with
    | O => out_of_fuel
    | S fuel' =>
        let continue (sockfd : Z) (reconnect : bool) (response : string) :=
          http_request_loop fuel' (retry + 1) sockfd reconnect
            method path body response response_size in
        if reconnect || (sockfd <? 0) then
          _ ← (if 0 <=? sockfd then close sockfd else mret tt);
          g ← get_glob;
          fd ← http_connect (page_server_host g) (page_server_port g);
          if fd <? 0 then
            if retry <? MAX_RETRIES then
              _ ← usleep (backoff retry); continue fd reconnect response
            else mret (DB_ERROR, response)
          else
            _ ← set_glob (set_socket fd);
            http_exchange continue retry fd reconnect
              method path body response response_size
        else
          http_exchange continue retry sockfd reconnect
            method path body response response_size
    end
  else mret (DB_ERROR, response).

(** [http_request(method, path, body, response, response_size)]: the status
    and the C string left in [response]. *)
Definition http_request (method path : string) (body : option string)
    (response_size : Z) : M (dberr_t * string) :=
  g ← get_glob;
  let sockfd := page_server_socket g in
  let reconnect :=
    (sockfd <? 0) || bool_decide (page_server_host g = None) in
  http_request_loop (Z.to_nat (MAX_RETRIES + 1)) 0 sockfd reconnect
    method path body "" response_size.

(** *** RPC stubs *)

(** A JSON string literal without escapes. *)
Definition jstr (s : string) : string := String dquote s +:+ String dquote "".

(** [rpc_get_page]: the status, the bytes stored into [buf] (the decoder
    writes them before the length is checked), and the value stored through
    [page_lsn] if any.  The source scans [json] for [page_lsn] after it has
    freed [response], the block [json] points into: the lookup is a
    [scan_freed]. *)
Definition rpc_get_page (space_id page_no lsn page_size : Z)
    : M (dberr_t * list byte * option Z) :=
  let request_body :=
    snprintf 512
      ("{" +:+ jstr "space_id" +:+ ":" +:+ fmt_u space_id +:+ "," +:+
       jstr "page_no" +:+ ":" +:+ fmt_u page_no +:+ "," +:+
       jstr "lsn" +:+ ":" +:+ fmt_u lsn +:+ "}") in
  allocated ← my_malloc;
  if negb allocated then mret (DB_ERROR, [], None)
  else
    '(err, response) ←
       http_request "POST" "/api/v1/get_page" (Some request_body) MAX_RESPONSE_SIZE;
    if negb (dberr_eqb err DB_SUCCESS) then mret (err, [], None)
    else
      let json := extract_json_body response in
      match json_get_string json "status" 64 with
      | None => mret (DB_ERROR, [], None)
      | Some status =>
          if negb (String.eqb status "success") then mret (DB_ERROR, [], None)
          else
            allocated ← my_malloc;
            if negb allocated then mret (DB_ERROR, [], None)
            else
              match json_get_string json "page_data" MAX_RESPONSE_SIZE with
              | None => mret (DB_ERROR, [], None)
              | Some page_data_b64 =>
                  let buf := base64_decode page_data_b64 page_size in
                  let decoded_len := Z.of_nat (length buf) in
                  if (decoded_len =? 0) || (page_size <? decoded_len) then
                    mret (DB_ERROR, buf, None)
                  else
                    found ← scan_freed (json_get_uint64 json "page_lsn");
                    match found with
                    | Some resp_lsn => mret (DB_SUCCESS, buf, Some resp_lsn)
                    | None => mret (DB_SUCCESS, buf, Some lsn)
                    end
              end
      end.

(** [rpc_stream_wal]; the response body is not inspected. *)
Definition rpc_stream_wal (lsn : Z) (wal_data : list byte) : M dberr_t :=
  let wal_len := Z.of_nat (length wal_data) in
  let b64_len := ((wal_len + 2) / 3) * 4 + 1 in
  allocated ← my_malloc;
  if negb allocated then mret DB_ERROR
  else
    let wal_b64 := base64_encode wal_data b64_len in
    let request_body :=
      snprintf 8192
        ("{" +:+ jstr "lsn" +:+ ":" +:+ fmt_u lsn +:+ "," +:+
         jstr "wal_data" +:+ ":" +:+ jstr wal_b64 +:+ "}") in
    '(err, _) ← http_request "POST" "/api/v1/stream_wal" (Some request_body) 1024;
    mret err.

(** *** [PageServerClient] *)

(** [parse_address(address, &host, &port)] for a non-null [address]: [None]
    is [false], otherwise the values stored through [host] and [port].  At
    the only call, in [init], the two pointers are the globals
    [page_server_host] and [page_server_port]: [init] below stores the
    values there. *)
Definition parse_address (address : string) : M (option (string * Z)) :=
  allocated ← my_malloc;
  if negb allocated then mret None
  else
    match strchr address ":" with
    | Some colon =>
        let host :=
          String.substring 0 (String.length address - String.length colon) address in
        let port := atoi_uint (String.substring 1 (String.length colon) colon) in
        mret (Some (host, if port =? 0 then 8080 else port))
    | None => mret (Some (address, 8080))
    end.

Definition is_enabled : M bool :=
  g ← get_glob;
  mret (page_server_enabled g && page_server_initialized g).

Definition ping : M bool :=
  g ← get_glob;
  if negb (page_server_initialized g) then mret false
  else if negb (page_server_enabled g) then mret true
  else if bool_decide (page_server_host g = None) then mret false
  else
    '(err, _) ← http_request "GET" "/api/v1/ping" None 1024;
    mret (dberr_eqb err DB_SUCCESS).

(** [init(address)]; a null pointer is [None].  The result of the first
    allocation is stored in [page_server_address] before it is tested, so a
    failed allocation leaves a null pointer there. *)
Definition init (address : option string) : M bool :=
  if bool_decide (address = None) || (from_option strlen 0 address =? 0) then
    _ ← set_glob (set_enabled false);
    _ ← set_glob (set_initialized true);
    mret true
  else
    let addr := default "" address in
    allocated ← my_malloc;
    if negb allocated then
      _ ← set_glob (set_address None);
      mret false
    else
      _ ← set_glob (set_address (Some addr));
      parsed ← parse_address addr;
      match parsed with
      | None =>
          _ ← set_glob (set_address None);
          mret false
      | Some (host, port) =>
          _ ← set_glob (set_host (Some host));
          _ ← set_glob (set_port port);
          _ ← set_glob (set_enabled true);
          _ ← set_glob (set_initialized true);
          alive ← ping;
          if negb alive then
            _ ← sql_print "InnoDB: Page Server ping failed, disabling";
            _ ← set_glob (set_enabled false);
            _ ← set_glob (set_address None);
            _ ← set_glob (set_host None);
            mret false
          else
            _ ← sql_print ("InnoDB: Page Server client initialized: " +:+ addr);
            mret true
      end.

Definition shutdown : M unit :=
  g ← get_glob;
  _ ← (if 0 <=? page_server_socket g then
         _ ← close (page_server_socket g); set_glob (set_socket (-1))
       else mret tt);
  _ ← set_glob (set_address None);
  _ ← set_glob (set_host None);
  _ ← set_glob (set_enabled false);
  set_glob (set_initialized false).

Definition get_page (space_id page_no lsn page_size : Z)
    : M (dberr_t * list byte * option Z) :=
  enabled ← is_enabled;
  if negb enabled then mret (DB_ERROR, [], None)
  else
    '(err, buf, page_lsn) ← rpc_get_page space_id page_no lsn page_size;
    _ ← (if negb (dberr_eqb err DB_SUCCESS) then
           sql_print
             ("InnoDB: Page Server get_page failed: space=" +:+ fmt_u space_id +:+
              " page=" +:+ fmt_u page_no +:+ " lsn=" +:+ fmt_u lsn)
         else mret tt);
    mret (err, buf, page_lsn).

Definition stream_wal (lsn : Z) (wal_data : list byte) : M dberr_t :=
  enabled ← is_enabled;
  if negb enabled then mret DB_SUCCESS
  else rpc_stream_wal lsn wal_data.

(** The client state before [init]. *)
Definition initial_globals : Globals :=
  mkGlobals false false None None 8080 (-1).

(** *** Batch reads *)

(** [struct PageRequest] and [struct PageResult] of page_server.h.
    [rs_page_data] is what the call stored in the caller's buffer;
    [rs_page_lsn] is [None] when the value assigned to the field is the
    local [page_lsn] that [rpc_get_page] did not set. *)
Record PageRequest := mkPageRequest {
  rq_space_id : Z;
  rq_page_no : Z;
  rq_lsn : Z
}.

Record PageResult := mkPageResult {
  rs_err : dberr_t;
  rs_page_lsn : option Z;
  rs_page_data : list byte
}.

(** The [for] loop of [get_pages_batch] over [requests[i..num_reqs)]: the
    results written from [i] on and the final [success_count] (a
    [size_t]). *)
Fixpoint get_pages_loop (srv_page_size : Z) (requests : list PageRequest)
    (success_count : Z) : M (list PageResult * Z) :=
  match requests with
  | [] => mret ([], success_count)
  | r :: rest =>
      '(err, buf, page_lsn) ←
         rpc_get_page (rq_space_id r) (rq_page_no r) (rq_lsn r) srv_page_size;
      let success_count :=
        if dberr_eqb err DB_SUCCESS then wrap64 (success_count + 1)
        else success_count in
      '(results, n) ← get_pages_loop srv_page_size rest success_count;
      mret (mkPageResult err page_lsn buf :: results, n)
  end.

(** [get_pages_batch(requests, num_reqs, results)]: [requests] is
    [requests[0..num_reqs)] or a null pointer, [results] tells whether the
    result pointer is non-null, [srv_page_size] is the server variable of
    that name.  The value is the count returned and the results written. *)
Definition get_pages_batch (srv_page_size : Z)
    (requests : option (list PageRequest)) (results : bool)
    : M (Z * list PageResult) :=
  enabled ← is_enabled;
  if negb enabled || bool_decide (requests = None) || negb results then mret (0, [])
  else
    '(written, n) ← get_pages_loop srv_page_size (default [] requests) 0;
    mret (n, written).

End PageServerClient.

(** ** The versioned index of the design, for comparison

    The design document describes a Page Version Index: each key owns its
    versions in LSN order, and [get(key, lsn)] answers with the version of
    greatest stored LSN not above [lsn].  [spec_get] follows those words; it
    is not taken from the Go source, which keeps one image per key and no
    LSN beside it.  [held_versions] reads the Go server's page map as such an
    index. *)

Module VersionIndex.




End VersionIndex.

(** ** Observations and sample inputs *)

Module Observe.

Import PageServer PageServerClient.

(** The base64 page image of a successful GetPage reply; [None] for every
    other reply. *)
Definition served (r : Response) : option string :=
  match Written r with
  | GetPageJSON g =>
      if (StatusCode r =? StatusOK) && String.eqb (gr_Status g) "success"
      then Some (gr_PageData g) else None
  | _ => None
  end.

(** The [page_lsn] of a successful GetPage reply. *)
Definition served_lsn (r : Response) : option Z :=
  match Written r with
  | GetPageJSON g =>
      if (StatusCode r =? StatusOK) && String.eqb (gr_Status g) "success"
      then Some (gr_PageLSN g) else None
  | _ => None
  end.

(** The [last_applied_lsn] of a successful StreamWAL acknowledgment. *)
Definition acked_lsn (r : Response) : option Z :=
  match Written r with
  | StreamWALJSON a =>
      if (StatusCode r =? StatusOK) && String.eqb (sr_Status a) "success"
      then Some (sr_LastAppliedLSN a) else None
  | _ => None
  end.

(** The [page_data] field of a GetPage reply (empty when omitted). *)
Definition reply_page_data (r : Response) : string :=
  match Written r with
  | GetPageJSON g => gr_PageData g
  | _ => ""
  end.

Definition get_page_request (space page lsn : Z) : Request GetPageRequest :=
  mkRequest MethodPost (Some (mkGetPageRequest space page lsn)).

Definition stream_wal_request (lsn : Z) (wal_b64 : string) (space page : Z)
    : Request StreamWALRequest :=
  mkRequest MethodPost (Some (mkStreamWALRequest lsn wal_b64 space page)).

(** A server holding one three-byte image for page 42 of space 1. *)
Definition one_page_server : PageServer :=
  mkPageServer {[ "1:42" := [10; 20; 30] ]} [].

(** Events of a trace, by kind. *)
Definition connect_count (evs : list event) : nat :=
  length (List.filter (λ e, match e with EvConnect _ _ _ => true | _ => false end) evs).

Definition send_count (evs : list event) : nat :=
  length (List.filter (λ e, match e with EvSend _ _ _ _ => true | _ => false end) evs).

Definition sleeps (evs : list event) : list Z :=
  omap (λ e, match e with EvSleep usec => Some usec | _ => None end) evs.

(** The delays of the retries still ahead when the loop is at [retry]. *)
Definition schedule (retry : Z) : list Z :=
  backoff <$> seqZ retry (MAX_RETRIES - retry).

(** Everything in the client's globals except the cached socket. *)
Definition same_config (g g' : Globals) : Prop :=
  page_server_enabled g' = page_server_enabled g ∧
  page_server_initialized g' = page_server_initialized g ∧
  page_server_address g' = page_server_address g ∧
  page_server_host g' = page_server_host g ∧
  page_server_port g' = page_server_port g.

(** No connection can be made and nothing can be sent on an old socket. *)
Definition unreachable (w : World) : Prop :=
  (∀ k, connect_result w k < 0) ∧ (∀ k, send_result w k = false).

(** An environment in which every connection attempt fails. *)
Definition dead_world : World :=
  mkWorld (λ _, -1) (λ _, false) (λ _, None) (λ _, true) true 0 0 0 0 [].

(** An environment whose server answers the first request with [reply]. *)
Definition answering_world (reply : string) : World :=
  mkWorld (λ _, 3) (λ _, true) (λ k, match k with O => Some reply | _ => None end)
    (λ _, true) true 0 0 0 0 [].

Definition http_ok (body : string) : string :=
  "HTTP/1.1 200 OK" +:+ CRLF +:+ "Content-Type: application/json" +:+ CRLF +:+
  CRLF +:+ body +:+ LF.

(** [json.NewEncoder(w).Encode(resp)] for a [GetPageResponse]: fields in
    declaration order, the [omitempty] ones left out when empty or zero, a
    newline at the end.  None of the strings the handlers put there needs
    escaping. *)
Definition encode_GetPageResponse (g : GetPageResponse) : string :=
  "{" +:+ jstr "status" +:+ ":" +:+ jstr (gr_Status g) +:+
  (if String.eqb (gr_PageData g) "" then ""
   else "," +:+ jstr "page_data" +:+ ":" +:+ jstr (gr_PageData g)) +:+
  (if gr_PageLSN g =? 0 then ""
   else "," +:+ jstr "page_lsn" +:+ ":" +:+ fmt_u (gr_PageLSN g)) +:+
  (if String.eqb (gr_Error g) "" then ""
   else "," +:+ jstr "error" +:+ ":" +:+ jstr (gr_Error g)) +:+
  "}" +:+ LF.

(** A GetPage reply reduced to what the client looks at: status line,
    content type, blank line, body.  The [Date] and [Content-Length] or
    [Transfer-Encoding] headers that [net/http] adds, and the framing of a
    chunked body, are left out. *)
Definition wire (r : Response) : string :=
  "HTTP/1.1 " +:+ fmt_u (StatusCode r) +:+ " " +:+
  (if StatusCode r =? StatusOK then "OK"
   else if StatusCode r =? StatusBadRequest then "Bad Request"
   else if StatusCode r =? StatusNotFound then "Not Found"
   else "Method Not Allowed") +:+ CRLF +:+
  "Content-Type: " +:+ ContentType r +:+ CRLF +:+ CRLF +:+
  match Written r with
  | GetPageJSON g => encode_GetPageResponse g
  | PlainText msg => msg +:+ LF
  | _ => ""
  end.

(** The client after a successful [init("localhost:8080")], not yet
    connected. *)
Definition enabled_globals : Globals :=
  mkGlobals true true (Some "localhost:8080") (Some "localhost") 8080 (-1).

End Observe.

(** ** A small program logic for the client monad

    [runs m s Q]: from state [s] the computation [m] does not run out of
    fuel; it ends with a value [a] in a state [s'] that shares the
    environment of [s], having appended the events [evs] to the trace, and
    [Q a s' evs] holds. *)

Module ClientLogic.

Import PageServerClient Observe.

Definition same_env (w w' : World) : Prop :=
  connect_result w' = connect_result w ∧ send_result w' = send_result w ∧
  recv_result w' = recv_result w ∧ malloc_result w' = malloc_result w ∧
  freed_intact w' = freed_intact w.

Definition steps (s s' : State) (evs : list event) : Prop :=
  same_env (world s) (world s') ∧
  trace (world s') = (trace (world s) ++ evs)%list.

Definition runs {A} (m : M A) (s : State)
    (Q : A → State → list event → Prop) : Prop :=
  ∃ a s', m s = Some (a, s') ∧ ∃ evs, steps s s' evs ∧ Q a s' evs.

(** What the retry loop entered at [retry] guarantees on return. *)
Definition loop_post (retry : Z) (s : State)
    (res : dberr_t * string) (s' : State) (evs : list event) : Prop :=
  same_config (glob s) (glob s') ∧
  (connect_count evs ≤ Z.to_nat (MAX_RETRIES + 1 - retry))%nat ∧
  (send_count evs ≤ Z.to_nat (MAX_RETRIES + 1 - retry))%nat ∧
  sleeps evs `prefix_of` schedule retry ∧
  (res.1 = DB_SUCCESS → is_http_200 res.2 = true) ∧
  (unreachable (world s) → res.1 = DB_ERROR).

(** The same for the second half of an iteration: no connection is made
    in it. *)
Definition exch_post (retry : Z) (s : State)
    (res : dberr_t * string) (s' : State) (evs : list event) : Prop :=
  same_config (glob s) (glob s') ∧
  (connect_count evs ≤ Z.to_nat (MAX_RETRIES - retry))%nat ∧
  (send_count evs ≤ Z.to_nat (MAX_RETRIES + 1 - retry))%nat ∧
  sleeps evs `prefix_of` schedule retry ∧
  (res.1 = DB_SUCCESS → is_http_200 res.2 = true) ∧
  (unreachable (world s) → res.1 = DB_ERROR).

(** The network activity one call may cause: at most [MAX_RETRIES + 1]
    connection attempts and sends, and the backoff delays in order. *)
Definition bounded (evs : list event) : Prop :=
  (connect_count evs ≤ Z.to_nat (MAX_RETRIES + 1))%nat ∧
  (send_count evs ≤ Z.to_nat (MAX_RETRIES + 1))%nat ∧
  sleeps evs `prefix_of` schedule 0.

End ClientLogic.

(** ** Conditions and outcomes used to state what the two programs do
       together *)

Module Scenario.

Import PageServer PageServerClient Observe ClientLogic.

(** *** Texts *)

(** What [DecodeString] keeps of its input. *)
Definition clean (s : string) : list ascii :=
  List.filter (fun c => negb ((code c =? 13) || (code c =? 10)))
    (list_ascii_of_string s).

(** A character that [json_get_string] copies as it is: not a quote, not a
    backslash, not NUL. *)
Definition plain_char (c : ascii) : bool :=
  negb (Ascii.eqb c dquote) && negb (Ascii.eqb c "\") && negb (code c =? 0).

Definition plain (s : string) : Prop :=
  Forall (λ c, plain_char c = true) (list_ascii_of_string s).

(** Base64 text: characters of the alphabet and padding. *)
Definition b64_text_char (c : ascii) : bool :=
  bool_decide (is_Some (b64_index c)) || (code c =? code "=").

Definition b64_text (s : string) : Prop :=
  Forall (λ c, b64_text_char c = true) (list_ascii_of_string s).

Definition colon_free (s : string) : Prop :=
  ¬ In ":"%char (list_ascii_of_string s).

Definition nul_free (s : string) : Prop :=
  Forall (λ c, (code c =? 0) = false) (list_ascii_of_string s).

(** The first bytes of a success reply, up to a point inside the
    [page_data] string. *)
Definition cut_reply (page_data_b64 : string) : string :=
  "HTTP/1.1 200 OK" +:+ CRLF +:+ "Content-Type: application/json" +:+ CRLF +:+
  CRLF +:+ "{" +:+ jstr "status" +:+ ":" +:+ jstr "success" +:+ "," +:+
  jstr "page_data" +:+ ":" +:+ String dquote page_data_b64.

(** *** The environment *)

Definition recv_count (evs : list event) : nat :=
  length (List.filter (λ e, match e with EvRecv _ _ => true | _ => false end) evs).

(** A healthy environment: connections are made, sends and allocations
    succeed, and every [recv] delivers [reply]. *)
Definition answers (w : World) (reply : string) : Prop :=
  (∀ k, 0 ≤ connect_result w k) ∧ (∀ k, send_result w k = true) ∧
  (∀ k, recv_result w k = Some reply) ∧ (∀ k, malloc_result w k = true).

(** [reply] fits one [recv] and the response buffer, and holds the blank
    line that ends the HTTP header. *)
Definition one_chunk (reply : string) (response_size : Z) : Prop :=
  0 < strlen reply ≤ 4095 ∧ strlen reply < response_size - 1 ∧
  response_size < 2 ^ 64 ∧
  is_Some (strstr (c_str reply) (CRLF +:+ CRLF)).

(** An environment whose server answers every request with [reply]. *)
Definition serving_world (reply : string) : World :=
  mkWorld (λ _, 3) (λ _, true) (λ _, Some reply) (λ _, true) true 0 0 0 0 [].

(** The same with an allocator that wipes the blocks it is handed back. *)
Definition wiping_world (reply : string) : World :=
  mkWorld (λ _, 3) (λ _, true) (λ _, Some reply) (λ _, true) false 0 0 0 0 [].

(** An enabled client in that environment, not yet connected. *)
Definition served_by (reply : string) : State :=
  mkState enabled_globals (serving_world reply).

(** A server holding a 3009-byte image for page 42 of space 1. *)
Definition large_page : list byte := replicate (Z.to_nat 3009) 7.

Definition large_page_server : PageServer.PageServer :=
  mkPageServer {[ "1:42" := large_page ]} [].

(** *** Replies as an HTTP server frames them *)

(** The body [handleGetPage] writes for its response: the JSON text of
    [json.NewEncoder(w).Encode(resp)], or the line of [http.Error]. *)
Definition get_page_body (r : Response) : string :=
  match Written r with
  | GetPageJSON g => encode_GetPageResponse g
  | PlainText msg => msg +:+ LF
  | _ => ""
  end.

(** What the client holds after a [recv] of [reply]: a 200 whose text after
    the blank line of the header is [text], itself after [gap].  The header
    lines are the HTTP library's and are left open; [gap] is the size line
    of a chunk when the body is sent chunked, and is empty when it is sent
    with its length. *)
Definition holds_body (reply gap text : string) : Prop :=
  is_http_200 (c_str reply) = true ∧ plain gap ∧
  extract_json_body (c_str reply) = gap +:+ text.

(** The number of characters of a success body before the [page_data]
    text. *)
Definition page_data_offset : nat :=
  String.length ("{" +:+ jstr "status" +:+ ":" +:+ jstr "success" +:+ "," +:+
                 jstr "page_data" +:+ ":" +:+ String dquote "").

(** A body of known length as Go's [net/http] sends it: status line, the
    handler's content type, date, length, blank line, body. *)
Definition sized_reply (date body : string) : string :=
  "HTTP/1.1 200 OK" +:+ CRLF +:+ "Content-Type: application/json" +:+ CRLF +:+
  "Date: " +:+ date +:+ CRLF +:+
  "Content-Length: " +:+ fmt_u (strlen body) +:+ CRLF +:+ CRLF +:+ body.

(** A longer body as it sends it: chunked, here in one chunk whose size
    line is [size]. *)
Definition chunked_reply (date size body : string) : string :=
  "HTTP/1.1 200 OK" +:+ CRLF +:+ "Content-Type: application/json" +:+ CRLF +:+
  "Date: " +:+ date +:+ CRLF +:+
  "Transfer-Encoding: chunked" +:+ CRLF +:+ CRLF +:+
  size +:+ CRLF +:+ body +:+ CRLF +:+ "0" +:+ CRLF +:+ CRLF.

(** Whether [http_request] starts on the cached socket. *)
Definition cached (g : Globals) : bool :=
  negb ((page_server_socket g <? 0) || bool_decide (page_server_host g = None)).

(** *** Outcomes of the request loop *)

(** One successful exchange on an open socket. *)
Definition exchanged (reply : string) (s : State)
    (res : dberr_t * string) (s' : State) (evs : list event) : Prop :=
  res = (DB_SUCCESS, c_str reply) ∧ glob s' = glob s ∧
  connect_count evs = 0%nat ∧ send_count evs = 1%nat ∧ recv_count evs = 1%nat ∧
  sleeps evs = [].

(** The loop entered with a healthy server: what its first iteration
    does. *)
Definition first_try (reply : string) (reconnect : bool) (sockfd : Z)
    (s : State) (res : dberr_t * string) (s' : State) (evs : list event) : Prop :=
  res = (DB_SUCCESS, c_str reply) ∧ same_config (glob s) (glob s') ∧
  0 ≤ page_server_socket (glob s') ∧
  connect_count evs = (if reconnect || (sockfd <? 0) then 1%nat else 0%nat) ∧
  send_count evs = 1%nat ∧ recv_count evs = 1%nat ∧ sleeps evs = [].

(** The loop entered at [retry] when every reply is complete but is not a
    200: all the remaining iterations run, each on a fresh connection after
    the first. *)
Definition rejected (reply : string) (retry : Z) (reconnect : bool) (sockfd : Z)
    (s : State) (res : dberr_t * string) (s' : State) (evs : list event) : Prop :=
  res = (DB_ERROR, c_str reply) ∧ same_config (glob s) (glob s') ∧
  connect_count evs =
    ((if reconnect || (sockfd <? 0)%Z then 1 else 0) + Z.to_nat (MAX_RETRIES - retry))%nat ∧
  send_count evs = Z.to_nat (MAX_RETRIES + 1 - retry) ∧
  recv_count evs = Z.to_nat (MAX_RETRIES + 1 - retry) ∧
  sleeps evs = schedule retry.

(** A request answered at the first attempt. *)
Definition answered (reply : string) (s : State)
    (res : dberr_t * string) (s' : State) (evs : list event) : Prop :=
  res = (DB_SUCCESS, c_str reply) ∧ same_config (glob s) (glob s') ∧
  0 ≤ page_server_socket (glob s') ∧
  connect_count evs = (if cached (glob s) then 0%nat else 1%nat) ∧
  send_count evs = 1%nat ∧ recv_count evs = 1%nat ∧ sleeps evs = [].

(** A request whose every attempt is answered by something else than a
    200. *)
Definition refused (reply : string) (s : State)
    (res : dberr_t * string) (s' : State) (evs : list event) : Prop :=
  res = (DB_ERROR, c_str reply) ∧ same_config (glob s) (glob s') ∧
  connect_count evs = (if cached (glob s) then 2%nat else 3%nat) ∧
  send_count evs = 3%nat ∧ recv_count evs = 3%nat ∧
  sleeps evs = [100000; 200000].

(** *** Outcomes of the entry points *)

(** A page read that the server answers at once. *)
Definition delivered (buf : list byte) (page_lsn : Z) (s : State)
    (res : dberr_t * list byte * option Z) (s' : State) (evs : list event) : Prop :=
  res = (DB_SUCCESS, buf, Some page_lsn) ∧ same_config (glob s) (glob s') ∧
  0 ≤ page_server_socket (glob s') ∧
  connect_count evs = (if cached (glob s) then 0%nat else 1%nat) ∧
  send_count evs = 1%nat ∧ recv_count evs = 1%nat ∧ sleeps evs = [].

(** The page LSN a successful read reports for a reply whose body is
    [json]: the [page_lsn] found in the reply if the freed block still holds
    it, and the caller's [lsn] if the field is missing or the block is
    gone. *)
Definition reported_lsn (w : World) (json : string) (lsn : Z) : Z :=
  default lsn (if freed_intact w then json_get_uint64 json "page_lsn" else None).

(** What a caller can rely on in the outcome of a page read: on success the
    page LSN is set and the buffer holds between one and [page_size] bytes;
    on failure nothing was stored in the buffer or in [*page_lsn]. *)
Definition well_formed_result (page_size : Z)
    (res : dberr_t * list byte * option Z) : Prop :=
  match res with
  | (DB_SUCCESS, buf, page_lsn) =>
      is_Some page_lsn ∧ 0 < Z.of_nat (length buf) ≤ page_size ∧ Forall is_byte buf
  | (DB_ERROR, buf, page_lsn) => buf = [] ∧ page_lsn = None
  end.

Definition well_formed (srv_page_size : Z) (r : PageResult) : Prop :=
  well_formed_result srv_page_size (rs_err r, rs_page_data r, rs_page_lsn r).

(** The number of results marked [DB_SUCCESS]. *)
Definition successes (results : list PageResult) : Z :=
  Z.of_nat (length (List.filter (λ r, dberr_eqb (rs_err r) DB_SUCCESS) results)).

(** [results] are what single reads of [requests] give, taken one after
    the other from state [s] to state [s']: result [i] is the outcome of
    [rpc_get_page] for request [i], run where the read before it ended. *)
Fixpoint read_in_turn (srv_page_size : Z) (requests : list PageRequest)
    (results : list PageResult) (s s' : State) : Prop :=
  match requests, results with
  | [], [] => s' = s
  | r :: requests, x :: results =>
      ∃ s1,
        rpc_get_page (rq_space_id r) (rq_page_no r) (rq_lsn r) srv_page_size s
          = Some ((rs_err x, rs_page_data x, rs_page_lsn x), s1) ∧
        read_in_turn srv_page_size requests results s1 s'
  | _, _ => False
  end.

(** A server holding a three-byte image for each of the pages 42 and 43 of
    space 1. *)
Definition two_page_server : PageServer.PageServer :=
  mkPageServer {[ "1:42" := [10; 20; 30]; "1:43" := [40; 50; 60] ]} [].

(** An environment whose server answers the k-th [recv] with the k-th of
    [replies], and with nothing after the last. *)
Definition replying_world (replies : list string) : World :=
  mkWorld (λ _, 3) (λ _, true) (λ k, replies !! k) (λ _, true) true 0 0 0 0 [].

(** The client after a successful [init(address)]. *)
Definition set_up (address host : string) (port : Z) (g : Globals) : Prop :=
  page_server_enabled g = true ∧ page_server_initialized g = true ∧
  page_server_address g = Some address ∧ page_server_host g = Some host ∧
  page_server_port g = port ∧ 0 ≤ page_server_socket g.

(** *** The server's log *)

(** The LSNs acknowledged by a sequence of replies, in order. *)
Definition acks (rs : list Response) : list Z := omap acked_lsn rs.

(** The record a StreamWAL body describes: its LSN, space and page with the
    bytes its payload stands for, when the payload is base64. *)
Definition described (req : StreamWALRequest) : option WALRecord :=
  match DecodeString (sw_WALData req) with
  | Some walData =>
      Some (mkWALRecord (sw_LSN req) walData (sw_SpaceID req) (sw_PageNo req))
  | None => None
  end.

(** The record a call asks the server to keep: a StreamWAL POST whose body
    was read and describes a record asks for that record; any other call
    asks for none. *)
Definition asks_to_keep (c : Call) : option WALRecord :=
  match c with
  | StreamWALCall q =>
      if String.eqb (Method q) MethodPost
      then match Body q with Some req => described req | None => None end
      else None
  | _ => None
  end.

End Scenario.

(** * Properties of the page server *)

Module PageServerFacts.

Import PageServer VersionIndex Observe.

(** What [handleGetPage] computes on a well-formed POST, in one equation. *)
Lemma handleGetPage_post (s : PageServer) (req : GetPageRequest) :
  handleGetPage (mkRequest MethodPost (Some req)) s =
  (match pages s !! page_key (gp_SpaceID req) (gp_PageNo req) with
   | Some pageData =>
       json_reply StatusOK
         (GetPageJSON
            (mkGetPageResponse "success" (EncodeToString pageData) (gp_LSN req) ""))
   | None =>
       json_reply StatusNotFound
         (GetPageJSON
            (mkGetPageResponse "error" "" 0
               ("Page not found: space=" +:+ fmt_u (gp_SpaceID req)
                  +:+ " page=" +:+ fmt_u (gp_PageNo req))))
   end, s).
Proof.
  unfold handleGetPage, mbind, handler_bind, read_page, mret, handler_ret. simpl.
  destruct (pages s !! page_key (gp_SpaceID req) (gp_PageNo req)); reflexivity.
Qed.

(** On a stored page the reply's [page_lsn] is the request's [lsn], whatever
    the page is. *)
Lemma handleGetPage_page_lsn (s : PageServer) (req : GetPageRequest) (d : list byte) :
  pages s !! page_key (gp_SpaceID req) (gp_PageNo req) = Some d →
  served_lsn (handleGetPage (mkRequest MethodPost (Some req)) s).1 = Some (gp_LSN req).
Proof.
  intros Hd. rewrite handleGetPage_post, Hd. reflexivity.
Qed.

(** C1.  The server holds one image for page 42 of space 1.  Asked for it at
    LSN 5 and at LSN 7 it serves the same image both times and labels it with
    [page_lsn] 5 and 7: the label is the request's LSN, not a property of the
    version served.  A client that sends these two requests and receives
    these two replies reports the same three bytes with [page_lsn] 5 and 7. *)
Theorem get_page_lsn_echoes_request :
  let r5 := (handleGetPage (get_page_request 1 42 5) one_page_server).1 in
  let r7 := (handleGetPage (get_page_request 1 42 7) one_page_server).1 in
  served r5 = Some "ChQe" ∧ served r7 = Some "ChQe" ∧
  served_lsn r5 = Some 5 ∧ served_lsn r7 = Some 7 ∧
  fst <$> PageServerClient.get_page 1 42 5 16
            (PageServerClient.mkState enabled_globals (answering_world (wire r5)))
    = Some (PageServerClient.DB_SUCCESS, [10; 20; 30], Some 5) ∧
  fst <$> PageServerClient.get_page 1 42 7 16
            (PageServerClient.mkState enabled_globals (answering_world (wire r7)))
    = Some (PageServerClient.DB_SUCCESS, [10; 20; 30], Some 7).
Proof. vm_compute. repeat split. Qed.

(** The handler hands back the receiver it was given. *)
Lemma handleGetPage_frame (r : Request GetPageRequest) (s : PageServer) :
  (handleGetPage r s).2 = s.
Proof.
  unfold handleGetPage.
  destruct (negb (String.eqb (Method r) MethodPost)); [reflexivity |].
  destruct (Body r) as [req |]; [| reflexivity].
  unfold mbind, handler_bind, read_page.
  destruct (pages s !! page_key (gp_SpaceID req) (gp_PageNo req)); reflexivity.
Qed.

(** C9.  [handleGetPage] returns the server state it was given, for every
    request: wrong method, undecodable body, missing page or stored page.
    The page map and the WAL list are those of before. *)
Theorem handleGetPage_state_unchanged (r : Request GetPageRequest) (s : PageServer) :
  (handleGetPage r s).2 = s ∧
  pages (handleGetPage r s).2 = pages s ∧
  walRecords (handleGetPage r s).2 = walRecords s.
Proof.
  rewrite handleGetPage_frame. auto.
Qed.

(** No handler writes the page map: on a server started from
    [NewPageServer] it stays empty, and page images can only come from
    outside the three handlers. *)
Lemma handlers_never_write_pages
    (s : PageServer) (g : Request GetPageRequest)
    (w : Request StreamWALRequest) (method : string) :
  pages (handleGetPage g s).2 = pages s ∧
  pages (handleStreamWAL w s).2 = pages s ∧
  pages (handlePing method s).2 = pages s.
Proof.
  split; [by rewrite handleGetPage_frame |]. split.
  - unfold handleStreamWAL.
    destruct (negb (String.eqb (Method w) MethodPost)); [reflexivity |].
    destruct (Body w) as [req |]; [| reflexivity].
    destruct (DecodeString (sw_WALData req)); reflexivity.
  - unfold handlePing.
    destruct (negb (String.eqb method MethodGet)); reflexivity.
Qed.

(** The read does not look at the requested LSN: for every key and every
    LSN it serves the one image stored under the key, and when the key has
    no image it answers 404 with status [error] and no page data. *)
Lemma get_page_serves_stored_image (s : PageServer) (space page lsn : Z) :
  let reply := (handleGetPage (get_page_request space page lsn) s).1 in
  served reply = EncodeToString <$> pages s !! page_key space page ∧
  reply_page_data reply
    = from_option EncodeToString "" (pages s !! page_key space page) ∧
  StatusCode reply
    = (if pages s !! page_key space page is Some _ then StatusOK else StatusNotFound).
Proof.
  unfold get_page_request. rewrite handleGetPage_post. simpl.
  destruct (pages s !! page_key space page); simpl; auto.
Qed.




(** What [handleStreamWAL] computes on a well-formed POST. *)
Lemma handleStreamWAL_post (s : PageServer) (req : StreamWALRequest) :
  handleStreamWAL (mkRequest MethodPost (Some req)) s =
  match DecodeString (sw_WALData req) with
  | Some walData =>
      (json_reply StatusOK
         (StreamWALJSON (mkStreamWALResponse "success" (sw_LSN req) "")),
       mkPageServer (pages s)
         (walRecords s ++
            [mkWALRecord (sw_LSN req) walData (sw_SpaceID req) (sw_PageNo req)]))
  | None => (http_Error "Invalid base64 WAL data" StatusBadRequest, s)
  end.
Proof.
  unfold handleStreamWAL. simpl.
  destruct (DecodeString (sw_WALData req)); reflexivity.
Qed.

(** C3, as stated, fails.  From an empty server, a record of LSN 1000 for page
    1:42 is acknowledged with [last_applied_lsn] 1000 although the page map
    is still empty and the page cannot be read; the next record, of LSN 5, is
    acknowledged with 5: the reported watermark went down. *)
Lemma stream_wal_ack_not_a_watermark :
  let '(a1, s1) :=
    handleStreamWAL (stream_wal_request 1000 "SGVsbG8gV29ybGQ=" 1 42) NewPageServer in
  let '(a2, s2) :=
    handleStreamWAL (stream_wal_request 5 "SGVsbG8gV29ybGQ=" 1 42) s1 in
  acked_lsn a1 = Some 1000 ∧
  pages s1 = ∅ ∧
  served (handleGetPage (get_page_request 1 42 1000) s1).1 = None ∧
  acked_lsn a2 = Some 5 ∧
  5 < 1000.
Proof. vm_compute. repeat split. Qed.

(** C3, amended.  The server keeps no watermark.  A StreamWAL request whose
    payload decodes is appended to the WAL list, the page map is left as it
    was, and the acknowledgment carries the request's own LSN. *)
Theorem stream_wal_ack_is_request_lsn
    (s : PageServer) (req : StreamWALRequest) (walData : list byte) :
  DecodeString (sw_WALData req) = Some walData →
  let '(ack, s') := handleStreamWAL (mkRequest MethodPost (Some req)) s in
  acked_lsn ack = Some (sw_LSN req) ∧
  pages s' = pages s ∧
  walRecords s' =
    (walRecords s ++
      [mkWALRecord (sw_LSN req) walData (sw_SpaceID req) (sw_PageNo req)])%list.
Proof.
  intros Hd. rewrite handleStreamWAL_post, Hd. auto.
Qed.

Lemma stream_wal_ack_is_request_lsn_witness :
  DecodeString "SGVsbG8gV29ybGQ=" = Some [72; 101; 108; 108; 111; 32; 87; 111; 114; 108; 100] ∧
  let '(ack, s') :=
    handleStreamWAL (stream_wal_request 1000 "SGVsbG8gV29ybGQ=" 1 42) NewPageServer in
  acked_lsn ack = Some 1000 ∧
  pages s' = pages NewPageServer ∧
  walRecords s' =
    (walRecords NewPageServer ++
      [mkWALRecord 1000 [72; 101; 108; 108; 111; 32; 87; 111; 114; 108; 100] 1 42])%list.
Proof.
  split; [reflexivity |].
  apply (stream_wal_ack_is_request_lsn NewPageServer
           (mkStreamWALRequest 1000 "SGVsbG8gV29ybGQ=" 1 42)).
  reflexivity.
Defined.

(** C4, as stated, fails.  Delivering the same record twice leaves two copies
    in the WAL list; the state differs from the state after one delivery. *)
Lemma duplicate_wal_record_is_stored_again :
  let r := stream_wal_request 1000 "SGVsbG8gV29ybGQ=" 1 42 in
  let once := (handleStreamWAL r NewPageServer).2 in
  let twice := (handleStreamWAL r once).2 in
  length (walRecords once) = 1%nat ∧
  length (walRecords twice) = 2%nat ∧
  twice ≠ once.
Proof.
  vm_compute. repeat split. intros H. discriminate H.
Qed.

(** C4, amended.  Delivering the same StreamWAL request twice is not an
    error (both deliveries are acknowledged with success) and leaves the page
    map as one delivery does, namely untouched; the record itself is appended
    to the WAL list once per delivery. *)
Theorem duplicate_stream_wal_appends_again
    (s : PageServer) (req : StreamWALRequest) (walData : list byte) :
  DecodeString (sw_WALData req) = Some walData →
  let r := mkRequest MethodPost (Some req) in
  let record := mkWALRecord (sw_LSN req) walData (sw_SpaceID req) (sw_PageNo req) in
  let '(ack1, once) := handleStreamWAL r s in
  let '(ack2, twice) := handleStreamWAL r once in
  acked_lsn ack1 = Some (sw_LSN req) ∧
  acked_lsn ack2 = Some (sw_LSN req) ∧
  pages twice = pages once ∧
  pages once = pages s ∧
  walRecords once = (walRecords s ++ [record])%list ∧
  walRecords twice = (walRecords once ++ [record])%list.
Proof.
  intros Hd. simpl. rewrite !handleStreamWAL_post, Hd.
  rewrite handleStreamWAL_post, Hd. simpl. auto 10.
Qed.

Lemma duplicate_stream_wal_appends_again_witness :
  let record := mkWALRecord 7 [65; 66; 67] 1 42 in
  let '(ack1, once) := handleStreamWAL (stream_wal_request 7 "QUJD" 1 42) NewPageServer in
  let '(ack2, twice) := handleStreamWAL (stream_wal_request 7 "QUJD" 1 42) once in
  acked_lsn ack1 = Some 7 ∧
  acked_lsn ack2 = Some 7 ∧
  pages twice = pages once ∧
  pages once = pages NewPageServer ∧
  walRecords once = (walRecords NewPageServer ++ [record])%list ∧
  walRecords twice = (walRecords once ++ [record])%list.
Proof.
  apply (duplicate_stream_wal_appends_again NewPageServer
           (mkStreamWALRequest 7 "QUJD" 1 42) [65; 66; 67]).
  reflexivity.
Defined.

End PageServerFacts.

(** * Properties of the client *)

(** ** Rules of the program logic *)

Module ClientLogicFacts.

Import PageServerClient Observe ClientLogic.

Lemma same_env_refl w : same_env w w.
Proof. repeat split. Qed.

Lemma steps_refl s : steps s s [].
Proof. split; [apply same_env_refl | by rewrite app_nil_r]. Qed.

Lemma steps_trans s1 s2 s3 evs1 evs2 :
  steps s1 s2 evs1 → steps s2 s3 evs2 → steps s1 s3 (evs1 ++ evs2).
Proof.
  intros [(A1 & A2 & A3 & A4 & A5) T1] [(B1 & B2 & B3 & B4 & B5) T2].
  split.
  - repeat split; congruence.
  - rewrite T2, T1, app_assoc. reflexivity.
Qed.

Lemma steps_unreachable s s' evs :
  steps s s' evs → unreachable (world s) → unreachable (world s').
Proof.
  intros [(A1 & A2 & _) _] [U1 U2]. split; intros k.
  - rewrite A1. apply U1.
  - rewrite A2. apply U2.
Qed.

Lemma runs_ret {A} (a : A) s (Q : A → State → list event → Prop) :
  Q a s [] → runs (mret a) s Q.
Proof. intros HQ. exists a, s. split; [reflexivity |]. exists []. auto using steps_refl. Qed.

Lemma runs_bind {A B} (m : M A) (k : A → M B) s
    (Q : B → State → list event → Prop) :
  runs m s (λ a s1 evs1, runs (k a) s1 (λ b s2 evs2, Q b s2 (evs1 ++ evs2)%list)) →
  runs (m ≫= k) s Q.
Proof.
  intros (a & s1 & Hm & evs1 & H1 & b & s2 & Hk & evs2 & H2 & HQ).
  exists b, s2. split.
  - unfold mbind, client_bind. rewrite Hm. exact Hk.
  - exists (evs1 ++ evs2)%list. eauto using steps_trans.
Qed.

Lemma runs_weaken {A} (m : M A) s (Q Q' : A → State → list event → Prop) :
  runs m s Q → (∀ a s' evs, steps s s' evs → Q a s' evs → Q' a s' evs) →
  runs m s Q'.
Proof.
  intros (a & s' & Hm & evs & Hs & HQ) Himp. exists a, s'. split; [done |].
  exists evs. auto.
Qed.

Lemma runs_get_glob s (Q : Globals → State → list event → Prop) :
  Q (glob s) s [] → runs get_glob s Q.
Proof. intros HQ. exists (glob s), s. split; [reflexivity |]. exists []. auto using steps_refl. Qed.

Lemma runs_scan_freed {A} (found : option A) s
    (Q : option A → State → list event → Prop) :
  Q (if freed_intact (world s) then found else None) s [] →
  runs (scan_freed found) s Q.
Proof.
  intros HQ. eexists _, s. split; [reflexivity |]. exists [].
  auto using steps_refl.
Qed.

Lemma runs_set_glob f s (Q : unit → State → list event → Prop) :
  (∀ s', glob s' = f (glob s) → steps s s' [] → Q tt s' []) →
  runs (set_glob f) s Q.
Proof.
  intros HQ. eexists tt, _. split; [reflexivity |]. exists [].
  assert (steps s (mkState (f (glob s)) (world s)) [])
    by (split; [apply same_env_refl | simpl; by rewrite app_nil_r]).
  auto.
Qed.

Lemma runs_emit e s (Q : unit → State → list event → Prop) :
  (∀ s', glob s' = glob s → steps s s' [e] → Q tt s' [e]) →
  runs (emit e) s Q.
Proof.
  intros HQ. eexists tt, _. split; [reflexivity |]. exists [e].
  assert (steps s (mkState (glob s) (log_event e (world s))) [e])
    by (split; [repeat split | reflexivity]).
  auto.
Qed.

Lemma runs_my_malloc s (Q : bool → State → list event → Prop) :
  (∀ b s', glob s' = glob s → steps s s' [] → Q b s' []) →
  runs my_malloc s Q.
Proof.
  intros HQ. eexists _, _. split; [reflexivity |]. exists [].
  split; [| apply HQ; [reflexivity |]];
    (split; [repeat split | simpl; by rewrite app_nil_r]).
Qed.

Lemma runs_http_connect host port s (Q : Z → State → list event → Prop) :
  (∀ fd s', glob s' = glob s → steps s s' [EvConnect host port fd] →
            (unreachable (world s) → (fd <? 0) = true) →
            Q fd s' [EvConnect host port fd]) →
  runs (http_connect host port) s Q.
Proof.
  intros HQ. eexists _, _. split; [reflexivity |]. eexists.
  split; [| apply HQ; [reflexivity | |]].
  - split; [repeat split | reflexivity].
  - split; [repeat split | reflexivity].
  - intros [U _]. specialize (U (connects (world s))).
    apply Z.ltb_lt in U. rewrite U. reflexivity.
Qed.

Lemma runs_send fd request len s (Q : bool → State → list event → Prop) :
  (∀ ok s', glob s' = glob s → steps s s' [EvSend fd request len ok] →
            (unreachable (world s) → ok = false) →
            Q ok s' [EvSend fd request len ok]) →
  runs (send fd request len) s Q.
Proof.
  intros HQ. eexists _, _. split; [reflexivity |]. eexists.
  split; [| apply HQ; [reflexivity | |]].
  - split; [repeat split | reflexivity].
  - split; [repeat split | reflexivity].
  - intros [_ U]. apply U.
Qed.

Lemma runs_recv fd size s (Q : string → State → list event → Prop) :
  (∀ chunk s', glob s' = glob s → steps s s' [EvRecv fd (strlen chunk)] →
               Q chunk s' [EvRecv fd (strlen chunk)]) →
  runs (recv fd size) s Q.
Proof.
  intros HQ. eexists _, _. split; [reflexivity |]. eexists.
  split; [| apply HQ; [reflexivity |]];
    (split; [repeat split | reflexivity]).
Qed.

(** Counting events over concatenated traces. *)
Lemma connect_count_app evs1 evs2 :
  connect_count (evs1 ++ evs2) = (connect_count evs1 + connect_count evs2)%nat.
Proof. unfold connect_count. by rewrite List.filter_app, length_app. Qed.

Lemma send_count_app evs1 evs2 :
  send_count (evs1 ++ evs2) = (send_count evs1 + send_count evs2)%nat.
Proof. unfold send_count. by rewrite List.filter_app, length_app. Qed.

Lemma sleeps_app evs1 evs2 :
  sleeps (evs1 ++ evs2) = (sleeps evs1 ++ sleeps evs2)%list.
Proof. unfold sleeps. apply omap_app. Qed.

Lemma strlen_nonneg s : 0 ≤ strlen s.
Proof. unfold strlen. lia. Qed.

(** One symbolic step of a client computation. *)
Ltac run_step :=
  lazymatch goal with
  | |- runs (mbind _ _) _ _ => apply runs_bind
  | |- runs (mret _) _ _ => apply runs_ret
  | |- runs get_glob _ _ => apply runs_get_glob
  | |- runs (scan_freed _) _ _ => apply runs_scan_freed
  | |- runs (set_glob _) _ _ =>
      apply runs_set_glob; let s := fresh "s" in intros s ? ?
  | |- runs (emit _) _ _ =>
      apply runs_emit; let s := fresh "s" in intros s ? ?
  | |- runs (close _) _ _ =>
      unfold close; apply runs_emit; let s := fresh "s" in intros s ? ?
  | |- runs (usleep _) _ _ =>
      unfold usleep; apply runs_emit; let s := fresh "s" in intros s ? ?
  | |- runs (sql_print _) _ _ =>
      unfold sql_print; apply runs_emit; let s := fresh "s" in intros s ? ?
  | |- runs my_malloc _ _ =>
      apply runs_my_malloc;
      let b := fresh "allocated" in let s := fresh "s" in intros b s ? ?
  | |- runs (http_connect _ _) _ _ =>
      apply runs_http_connect;
      let fd := fresh "fd" in let s := fresh "s" in intros fd s ? ? ?
  | |- runs (send _ _ _) _ _ =>
      apply runs_send;
      let ok := fresh "sent" in let s := fresh "s" in intros ok s ? ? ?
  | |- runs (recv _ _) _ _ =>
      apply runs_recv;
      let c := fresh "chunk" in let s := fresh "s" in intros c s ? ?
  | |- runs (if ?b then _ else _) _ _ => destruct b eqn:?
  | |- runs (match ?x with _ => _ end) _ _ => destruct x eqn:?
  end; cbv beta.

Ltac count_events :=
  rewrite ?connect_count_app, ?send_count_app, ?sleeps_app;
  unfold connect_count, send_count, sleeps in *; simpl;
  rewrite ?app_nil_r, ?Nat.add_0_r.

(** The read loop terminates within its fuel: every round that goes on has
    added at least one byte below the limit.  It only receives. *)
Lemma recv_loop_runs (fuel : nat) :
  ∀ sockfd acc total response_size reconnect s,
    0 < response_size < 2 ^ 64 → 0 ≤ total →
    response_size - 1 - total ≤ Z.of_nat fuel →
    runs (recv_loop fuel sockfd acc total response_size reconnect) s
      (λ _ s' evs, glob s' = glob s ∧ connect_count evs = 0%nat ∧
                   send_count evs = 0%nat ∧ sleeps evs = []).
Proof.
  induction fuel as [| fuel IH]; intros sockfd acc total rs rc s Hrs Htot Hfuel;
    simpl; unfold wrap64; rewrite (Z.mod_small (rs - 1)) by lia.
  - destruct (total <? rs - 1) eqn:Hlt; [apply Z.ltb_lt in Hlt; lia |].
    run_step. auto.
  - destruct (total <? rs - 1) eqn:Hlt; [| run_step; auto].
    apply Z.ltb_lt in Hlt.
    run_step. run_step. run_step; [run_step; count_events; auto |].
    run_step; [run_step; count_events; auto |].
    run_step; [run_step; count_events; auto |].
    pose proof (strlen_nonneg chunk).
    eapply runs_weaken.
    + apply IH; [done | lia | lia].
    + intros a s' evs _ (Hg & Hc & Hs & Hz). count_events.
      rewrite Hc, Hs, Hz. repeat split. congruence.
Qed.

Lemma schedule_done retry : MAX_RETRIES ≤ retry → schedule retry = [].
Proof.
  intros H. unfold schedule. rewrite seqZ_nil by lia. reflexivity.
Qed.

Lemma schedule_next retry :
  retry < MAX_RETRIES → schedule retry = backoff retry :: schedule (retry + 1).
Proof.
  intros H. unfold schedule. rewrite seqZ_cons by lia. simpl.
  do 3 f_equal; lia.
Qed.

Lemma same_config_refl g : same_config g g.
Proof. repeat split. Qed.

Lemma same_config_set_socket g fd : same_config g (set_socket fd g).
Proof. repeat split. Qed.

Lemma same_config_trans g1 g2 g3 :
  same_config g1 g2 → same_config g2 g3 → same_config g1 g3.
Proof.
  intros (A1 & A2 & A3 & A4 & A5) (B1 & B2 & B3 & B4 & B5).
  repeat split; congruence.
Qed.

(** ** The retry loop *)

#[local] Arguments build_request : simpl never.
#[local] Arguments backoff : simpl never.
#[local] Arguments recv_loop : simpl never.
#[local] Arguments is_http_200 : simpl never.
#[local] Arguments c_str : simpl never.
#[local] Arguments Z.to_nat : simpl never.
#[local] Arguments Z.sub : simpl never.
#[local] Arguments Z.add : simpl never.

(** Discharging the six parts of [loop_post] and [exch_post]. *)
Ltac post_config :=
  repeat match goal with
         | H : glob ?s' = glob ?s |- _ => rewrite H in *; clear H
         | H : glob ?s' = set_socket _ _ |- _ => rewrite H in *; clear H
         end;
  first [ apply same_config_refl
        | apply same_config_set_socket
        | eapply same_config_trans; [| eassumption]; apply same_config_set_socket
        | eassumption ].

Ltac unreach := eauto 10 using steps_unreachable.

Ltac post_sleeps retry :=
  first
    [ apply prefix_nil
    | assumption
    | rewrite (schedule_next retry) by lia; apply prefix_cons;
      first [ assumption | apply prefix_nil ]
    | match goal with
      | Hz : _ `prefix_of` schedule (retry + 1) |- _ =>
          rewrite (schedule_done (retry + 1)) in Hz by lia;
          rewrite (schedule_done retry) by lia; exact Hz
      end ].

Ltac post_unreachable :=
  let U := fresh "U" in
  intros U;
  first
    [ reflexivity
    | match goal with
      | H : unreachable _ → ?b = false, E : negb ?b = false |- _ =>
          rewrite H in E by unreach; discriminate E
      | H : unreachable _ → (?fd <? 0) = true, E : (?fd <? 0) = false |- _ =>
          rewrite H in E by unreach; discriminate E
      | H : unreachable _ → false = true |- _ =>
          exfalso; assert (false = true) by (apply H; unreach); discriminate
      | H : unreachable _ → true = false |- _ =>
          exfalso; assert (true = false) by (apply H; unreach); discriminate
      end
    | match goal with
      | Hun : unreachable _ → ?r = DB_ERROR |- ?r = DB_ERROR => apply Hun; unreach
      end ].

Ltac post_ok :=
  first
    [ assumption
    | simpl; discriminate
    | simpl; intros _;
      match goal with
      | E : _ && is_http_200 _ = true |- _ =>
          apply andb_true_iff in E; destruct E as [_ E]; exact E
      end ].

Ltac use_recv_facts :=
  repeat match goal with
         | H : omap _ ?e = [] |- _ => rewrite H; clear H
         end; simpl.

Ltac post retry :=
  unfold exch_post, loop_post; count_events; use_recv_facts;
  split; [post_config |];
  split; [lia |];
  split; [lia |];
  split; [post_sleeps retry |];
  split; [post_ok | post_unreachable].

(** Whatever the rest of the loop is, provided it meets [loop_post] one
    retry later, the second half of an iteration meets [exch_post]. *)
Lemma http_exchange_runs continue retry fd rc method path body response rs s :
  0 < rs < 2 ^ 64 → 0 ≤ retry ≤ MAX_RETRIES →
  (∀ sockfd rc response s',
     runs (continue sockfd rc response) s' (loop_post (retry + 1) s')) →
  runs (http_exchange continue retry fd rc method path body response rs) s
    (exch_post retry s).
Proof.
  intros Hrs Hretry Hcont. unfold http_exchange.
  repeat run_step.
  - post retry.
  - eapply runs_weaken; [apply Hcont |].
    intros res s' evs Hst (Hcfg & Hc & Hs & Hz & H200 & Hun).
    post retry.
  - post retry.
  - eapply runs_weaken; [apply recv_loop_runs; lia |].
    intros [[acc total] rc'] s2 evs1 Hst (Hg & Hc1 & Hs1 & Hz1).
    cbv beta iota zeta.
    repeat run_step.
    + post retry.
    + eapply runs_weaken; [apply Hcont |].
      intros res s' evs Hst' (Hcfg & Hc & Hs & Hz & H200 & Hun).
      post retry.
    + eapply runs_weaken; [apply Hcont |].
      intros res s' evs Hst' (Hcfg & Hc & Hs & Hz & H200 & Hun).
      post retry.
Qed.

(** The loop entered at [retry] never needs more than
    [MAX_RETRIES + 1 - retry] units of fuel. *)
Lemma http_request_loop_runs (fuel : nat) :
  ∀ retry sockfd reconnect method path body response response_size s,
    0 < response_size < 2 ^ 64 → 0 ≤ retry →
    MAX_RETRIES + 1 - retry ≤ Z.of_nat fuel →
    runs (http_request_loop fuel retry sockfd reconnect method path body
            response response_size) s (loop_post retry s).
Proof.
  induction fuel as [| fuel IH];
    intros retry sockfd rc method path body response rs s Hrs Hretry Hfuel.
  - simpl. destruct (retry <=? MAX_RETRIES) eqn:Hle; [lia |].
    run_step. post retry.
  - simpl. destruct (retry <=? MAX_RETRIES) eqn:Hle; [| run_step; post retry].
    assert (Hcont : ∀ sockfd rc response s',
               runs (http_request_loop fuel (retry + 1) sockfd rc method path
                       body response rs) s' (loop_post (retry + 1) s'))
      by (intros; apply IH; lia).
    repeat run_step.
    all: try (eapply runs_weaken; [apply Hcont |];
              intros res s' evs Hst' (Hcfg & Hc & Hs & Hz & H200 & Hun);
              post retry).
    all: try (post retry).
    all: eapply runs_weaken;
      [apply (http_exchange_runs _ retry); [lia | lia | apply Hcont] |];
      intros res s' evs Hst' (Hcfg & Hc & Hs & Hz & H200 & Hun);
      post retry.
Qed.

Lemma http_request_runs method path body response_size s :
  0 < response_size < 2 ^ 64 →
  runs (http_request method path body response_size) s (loop_post 0 s).
Proof.
  intros Hrs. unfold http_request. run_step. run_step.
  eapply runs_weaken;
    [apply http_request_loop_runs; [lia | lia | unfold MAX_RETRIES; simpl; lia] |].
  intros res s' evs _ Hpost. exact Hpost.
Qed.

End ClientLogicFacts.

(** ** base64 *)

Module Base64Facts.

Import PageServerClient Observe.

(** The decoder never stores more than [out_len] bytes. *)
Lemma base64_decode_from_length inp :
  ∀ i j val pad out_len,
    j ≤ out_len →
    Z.of_nat (length (base64_decode_from inp i j val pad out_len)) ≤ out_len - j.
Proof.
  induction inp as [| c rest IH]; intros i j val pad out_len Hj; simpl; [lia |].
  destruct (j <? out_len) eqn:Hlt; [| simpl; lia].
  destruct (code c =? code "=") eqn:Hpad; [apply IH; lia |].
  destruct (b64_index c) as [idx |]; [| apply IH; lia].
  destruct ((i + 1) mod 4 =? 0); [| apply IH; lia].
  repeat match goal with
         | |- context [?a <? ?b] => destruct (a <? b) eqn:?; simpl
         end;
    match goal with
    | |- context [base64_decode_from rest ?i' ?j' ?v' ?p' ?o'] =>
        specialize (IH i' j' v' p' o')
    end; lia.
Qed.

Lemma base64_decode_length inp out_len :
  0 ≤ out_len → Z.of_nat (length (base64_decode inp out_len)) ≤ out_len.
Proof.
  intros H. unfold base64_decode.
  pose proof (base64_decode_from_length inp 0 0 0 0 out_len H). lia.
Qed.

(** Hence the client's test [decoded_len > page_size] is never true. *)
Lemma oversize_test_never_fires inp page_size :
  0 ≤ page_size →
  (page_size <? Z.of_nat (length (base64_decode inp page_size))) = false.
Proof.
  intros H. pose proof (base64_decode_length inp page_size H). lia.
Qed.

(** Every character of the alphabet decodes to its own index and is not the
    padding character. *)
Lemma alphabet k :
  0 ≤ k < 64 →
  b64_index (b64_char k) = Some k ∧ (code (b64_char k) =? code "=") = false.
Proof.
  intros Hk.
  assert (H : forallb
                (λ k, match b64_index (b64_char k) with
                      | Some k' => k' =? k
                      | None => false
                      end && negb (code (b64_char k) =? code "="))
                (seqZ 0 64) = true) by (vm_compute; reflexivity).
  rewrite forallb_forall in H. specialize (H k).
  rewrite <- list_elem_of_In, elem_of_seqZ in H.
  specialize (H ltac:(lia)). apply andb_true_iff in H as [H1 H2].
  destruct (b64_index (b64_char k)) as [k' |]; [| discriminate].
  apply Z.eqb_eq in H1. subst k'. apply negb_true_iff in H2. auto.
Qed.

Lemma sextet_range x : 0 ≤ Z.land x 63 < 64.
Proof.
  change 63 with (Z.ones 6). rewrite Z.land_ones by lia.
  apply Z.mod_pos_bound. lia.
Qed.

(** Or-ing a value below [2 ^ n] into a multiple of [2 ^ n] adds it. *)
Lemma lor_disjoint_add a b n :
  0 ≤ n → a mod 2 ^ n = 0 → 0 ≤ b < 2 ^ n → Z.lor a b = a + b.
Proof.
  intros Hn Ha Hb.
  assert (Hland : Z.land a b = 0).
  { apply Z.bits_inj'. intros i Hi. rewrite Z.land_spec, Z.bits_0.
    destruct (Z.lt_ge_cases i n) as [Hlt | Hge].
    - rewrite <- (Z.mod_pow2_bits_low a n i) by lia. rewrite Ha, Z.bits_0.
      reflexivity.
    - rewrite <- (Z.mod_small b (2 ^ n)) by lia.
      rewrite Z.mod_pow2_bits_high by lia. apply andb_false_r. }
  rewrite <- Z.lxor_lor by exact Hland.
  symmetry. apply Z.add_nocarry_lxor. exact Hland.
Qed.

(** Linear arithmetic with division and remainder by constants. *)
Ltac dm :=
  change (2 ^ 6) with 64; change (2 ^ 8) with 256; change (2 ^ 16) with 65536;
  Z.div_mod_to_equations; lia.

(** Three bytes cut into four sextets by the encoder and shifted back
    together by the decoder are the same three bytes. *)
Lemma regroup b0 b1 b2 :
  is_byte b0 → is_byte b1 → is_byte b2 →
  let b := Z.lor (Z.lor (Z.shiftl b0 16) (Z.shiftl b1 8)) b2 in
  let v1 := Z.lor (wrap32 (Z.shiftl 0 6)) (Z.land (Z.shiftr b 18) 63) in
  let v2 := Z.lor (wrap32 (Z.shiftl v1 6)) (Z.land (Z.shiftr b 12) 63) in
  let v3 := Z.lor (wrap32 (Z.shiftl v2 6)) (Z.land (Z.shiftr b 6) 63) in
  let v4 := Z.lor (wrap32 (Z.shiftl v3 6)) (Z.land b 63) in
  Z.land (Z.shiftr v4 16) 255 = b0 ∧
  Z.land (Z.shiftr v4 8) 255 = b1 ∧
  Z.land v4 255 = b2.
Proof.
  unfold is_byte, wrap32. intros H0 H1 H2. cbv zeta.
  change 63 with (Z.ones 6). change 255 with (Z.ones 8).
  rewrite !Z.land_ones, !Z.shiftr_div_pow2, !Z.shiftl_mul_pow2 by lia.
  change (2 ^ 6) with 64. change (2 ^ 8) with 256. change (2 ^ 16) with 65536.
  change (2 ^ 12) with 4096. change (2 ^ 18) with 262144.
  change (2 ^ 32) with 4294967296.
  rewrite (lor_disjoint_add (b0 * 65536) (b1 * 256) 16) by dm.
  rewrite (lor_disjoint_add (b0 * 65536 + b1 * 256) b2 8) by dm.
  set (b := b0 * 65536 + b1 * 256 + b2).
  assert (Hb : 0 ≤ b < 16777216) by (subst b; lia).
  change ((0 * 64) mod 4294967296) with 0. rewrite !Z.lor_0_l.
  set (s0 := (b / 262144) mod 64). set (s1 := (b / 4096) mod 64).
  set (s2 := (b / 64) mod 64). set (s3 := b mod 64).
  assert (0 ≤ s0 < 64 ∧ 0 ≤ s1 < 64 ∧ 0 ≤ s2 < 64 ∧ 0 ≤ s3 < 64)
    as (R0 & R1 & R2 & R3) by (subst s0 s1 s2 s3; dm).
  rewrite (Z.mod_small (s0 * 64)) by lia.
  rewrite (lor_disjoint_add (s0 * 64) s1 6) by dm.
  rewrite (Z.mod_small ((s0 * 64 + s1) * 64)) by lia.
  rewrite (lor_disjoint_add ((s0 * 64 + s1) * 64) s2 6) by dm.
  rewrite (Z.mod_small (((s0 * 64 + s1) * 64 + s2) * 64)) by lia.
  rewrite (lor_disjoint_add (((s0 * 64 + s1) * 64 + s2) * 64) s3 6) by dm.
  assert (Hv : ((s0 * 64 + s1) * 64 + s2) * 64 + s3 = b) by (subst s0 s1 s2 s3; dm).
  rewrite Hv. subst b. dm.
Qed.

#[local] Arguments Z.shiftl : simpl never.
#[local] Arguments Z.shiftr : simpl never.
#[local] Arguments Z.land : simpl never.
#[local] Arguments Z.lor : simpl never.
#[local] Arguments Z.modulo : simpl never.
#[local] Arguments Z.add : simpl never.
#[local] Arguments Z.ltb : simpl never.
#[local] Arguments Z.eqb : simpl never.
#[local] Arguments b64_char : simpl never.
#[local] Arguments b64_index : simpl never.
#[local] Arguments code : simpl never.
#[local] Arguments wrap32 : simpl never.

(** The decoder on a character of the alphabet that does not end a group. *)
Lemma decode_shift k rest i j val pad dec_len :
  j < dec_len → 0 ≤ k < 64 → (i + 1) mod 4 ≠ 0 →
  base64_decode_from (String (b64_char k) rest) i j val pad dec_len
  = base64_decode_from rest (i + 1) j (Z.lor (wrap32 (Z.shiftl val 6)) k) pad dec_len.
Proof.
  intros Hj Hk Hi. simpl.
  destruct (alphabet k Hk) as [Hidx Hpad]. rewrite Hidx, Hpad.
  destruct (j <? dec_len) eqn:E; [| lia].
  destruct ((i + 1) mod 4 =? 0) eqn:E4; [lia | reflexivity].
Qed.

(** The decoder on the character that ends an unpadded group. *)
Lemma decode_emit k rest i j val dec_len :
  j + 3 ≤ dec_len → 0 ≤ k < 64 → (i + 1) mod 4 = 0 →
  base64_decode_from (String (b64_char k) rest) i j val 0 dec_len
  = let v := Z.lor (wrap32 (Z.shiftl val 6)) k in
    Z.land (Z.shiftr v 16) 255 :: Z.land (Z.shiftr v 8) 255 :: Z.land v 255
      :: base64_decode_from rest (i + 1) (j + 3) 0 0 dec_len.
Proof.
  intros Hj Hk Hi. simpl.
  destruct (alphabet k Hk) as [Hidx Hpad]. rewrite Hidx, Hpad.
  destruct (j <? dec_len) eqn:E; [| lia].
  destruct ((i + 1) mod 4 =? 0) eqn:E4; [| lia].
  change (0 <? 2) with true. change (0 <? 1) with true.
  assert (E1 : (j + 1 <? dec_len) = true) by lia.
  assert (E2 : (j + 1 + 1 <? dec_len) = true) by lia.
  rewrite E1. simpl. rewrite E2. simpl.
  replace (j + 1 + 1 + 1) with (j + 3) by lia. reflexivity.
Qed.

Lemma round_trip_from (n : nat) :
  ∀ data je out_len i j dec_len,
    length data = (3 * n)%nat → Forall is_byte data →
    je + 4 * Z.of_nat n < out_len →
    i mod 4 = 0 →
    j + 3 * Z.of_nat n ≤ dec_len →
    base64_decode_from (base64_encode_from data je out_len) i j 0 0 dec_len = data.
Proof.
  induction n as [| n IH]; intros data je out_len i j dec_len Hlen Hbytes Hroom Hi Hdec.
  - destruct data; [reflexivity | discriminate].
  - destruct data as [| b0 [| b1 [| b2 rest]]]; simpl in Hlen; try lia.
    inversion Hbytes as [| ? ? B0 Hb1]; subst.
    inversion Hb1 as [| ? ? B1 Hb2]; subst.
    inversion Hb2 as [| ? ? B2 Hrest]; subst.
    cbn [base64_encode_from].
    destruct (je + 4 <? out_len) eqn:E; [| lia].
    rewrite decode_shift by (first [apply sextet_range | Z.div_mod_to_equations; lia]).
    rewrite decode_shift by (first [apply sextet_range | Z.div_mod_to_equations; lia]).
    rewrite decode_shift by (first [apply sextet_range | Z.div_mod_to_equations; lia]).
    rewrite decode_emit by (first [apply sextet_range | Z.div_mod_to_equations; lia]).
    cbv zeta.
    destruct (regroup b0 b1 b2 B0 B1 B2) as (R0 & R1 & R2). cbv zeta in R0, R1, R2.
    rewrite R0, R1, R2.
    do 3 f_equal.
    replace (i + 1 + 1 + 1 + 1) with (i + 4) by lia.
    apply IH; try assumption; first [lia | Z.div_mod_to_equations; lia].
Qed.

(** Without padding the round trip is exact: every byte sequence whose
    length is a multiple of three, the empty one included, comes back
    unchanged from buffers that are large enough. *)
Lemma base64_round_trip_multiple_of_three (data : list byte) (out_len dec_len : Z) :
  Forall is_byte data →
  (length data mod 3 = 0)%nat →
  4 * (Z.of_nat (length data) / 3) < out_len →
  Z.of_nat (length data) ≤ dec_len →
  base64_decode (base64_encode data out_len) dec_len = data.
Proof.
  intros Hbytes Hmod Hroom Hdec.
  unfold base64_decode, base64_encode.
  apply Nat.Div0.mod_divides in Hmod as [n Hn].
  apply (round_trip_from n); try assumption;
    first [reflexivity | lia | Z.div_mod_to_equations; lia].
Qed.

(** C6.  The round trip loses every input whose length is not a multiple of
    three.  The encoder pads the last group with [=]; in the decoder the
    [continue] taken on [=] skips the test [(i + 1) % 4 == 0], so a group that
    ends in padding is never written out.  One byte comes back as none, and a
    16 KiB page comes back one byte short. *)
Theorem base64_round_trip_drops_padded_group :
  base64_encode [65] 5 = "QQ==" ∧
  base64_decode (base64_encode [65] 5) 16 = [] ∧
  base64_encode [72; 105] 5 = "SGk=" ∧
  base64_decode (base64_encode [72; 105] 5) 16 = [] ∧
  base64_decode (base64_encode [72; 105; 33] 5) 16 = [72; 105; 33] ∧
  Z.of_nat
    (length
       (base64_decode (base64_encode (replicate (Z.to_nat 16384) 7) 21849) 16384))
    = 16383.
Proof. vm_compute. repeat split. Qed.

End Base64Facts.

(** ** The client's entry points *)

Module ClientFacts.

Import PageServerClient Observe ClientLogic ClientLogicFacts.

#[local] Arguments http_request : simpl never.
#[local] Arguments base64_encode : simpl never.
#[local] Arguments snprintf : simpl never.
#[local] Arguments Z.to_nat : simpl never.

Ltac glob_facts :=
  repeat match goal with
         | H : glob ?s = _ |- context [glob ?s] => rewrite H
         end.

Ltac run_all := repeat (run_step; glob_facts; simpl).

Lemma schedule_0 : schedule 0 = [100000; 200000].
Proof. reflexivity. Qed.

Lemma dead_world_unreachable : unreachable dead_world.
Proof. split; intros k; simpl; [lia | reflexivity]. Qed.

Lemma strlen_zero a : strlen a = 0 → a = "".
Proof. destruct a; [reflexivity | unfold strlen; simpl; lia]. Qed.

(** C10.  The server answers [success] with a six-byte page while the caller's
    [page_size] is 3.  The decoder stops at [out_len], so [decoded_len] is 3,
    the test [decoded_len > page_size] is false, and [get_page] returns
    [DB_SUCCESS] with the first three bytes.  (A [success] reply with an empty
    page is refused with [DB_ERROR].) *)
Theorem get_page_accepts_oversized_page :
  let reply page_data :=
    http_ok
      ("{" +:+ jstr "status" +:+ ":" +:+ jstr "success" +:+ "," +:+
       jstr "page_data" +:+ ":" +:+ jstr page_data +:+ "," +:+
       jstr "page_lsn" +:+ ":7}") in
  PageServer.DecodeString "QUJDREVG" = Some [65; 66; 67; 68; 69; 70] ∧
  fst <$> get_page 1 42 7 3
            (mkState enabled_globals (answering_world (reply "QUJDREVG")))
    = Some (DB_SUCCESS, [65; 66; 67], Some 7) ∧
  fst <$> get_page 1 42 7 3 (mkState enabled_globals (answering_world (reply "")))
    = Some (DB_ERROR, [], None).
Proof. vm_compute. repeat split. Qed.

(** *** The retry loop, from the caller's side *)

(** With nothing to connect to, a request makes three connection attempts,
    sleeps 100 ms and 200 ms between them, and fails. *)
Example http_request_dead_world :
  (λ r, (r.1.1, trace (world r.2))) <$>
    http_request "GET" "/api/v1/ping" None 1024 (mkState enabled_globals dead_world)
  = Some (DB_ERROR,
          [EvConnect (Some "localhost") 8080 (-1); EvSleep 100000;
           EvConnect (Some "localhost") 8080 (-1); EvSleep 200000;
           EvConnect (Some "localhost") 8080 (-1)]).
Proof. vm_compute. reflexivity. Qed.

(** C8.  Whatever the environment does, [http_request] returns.  It makes at
    most [MAX_RETRIES + 1] connection attempts and at most [MAX_RETRIES + 1]
    sends; the delays it sleeps are an initial part of 100000, 200000 (the
    delay doubles with each retry); it reports success only on an HTTP 200
    response, so a request whose attempts all fail returns [DB_ERROR]. *)
Theorem http_request_bounded_retries
    (method path : string) (body : option string) (response_size : Z) (s : State) :
  0 < response_size < 2 ^ 64 →
  ∃ err response s' evs,
    http_request method path body response_size s = Some ((err, response), s') ∧
    trace (world s') = (trace (world s) ++ evs)%list ∧
    (connect_count evs ≤ Z.to_nat (MAX_RETRIES + 1))%nat ∧
    (send_count evs ≤ Z.to_nat (MAX_RETRIES + 1))%nat ∧
    sleeps evs `prefix_of` [100000; 2 * 100000] ∧
    (err = DB_SUCCESS → is_http_200 response = true) ∧
    (unreachable (world s) → err = DB_ERROR).
Proof.
  intros Hrs.
  destruct (http_request_runs method path body response_size s Hrs)
    as ([err response] & s' & Hrun & evs & [_ Htr] & Hpost).
  destruct Hpost as (_ & Hc & Hs & Hz & H200 & Hun).
  exists err, response, s', evs.
  rewrite schedule_0 in Hz. rewrite Z.sub_0_r in Hc, Hs.
  repeat split; assumption.
Qed.

Lemma http_request_bounded_retries_witness :
  0 < 1024 < 2 ^ 64 ∧
  ∃ err response s' evs,
    http_request "GET" "/api/v1/ping" None 1024 (mkState enabled_globals dead_world)
      = Some ((err, response), s') ∧
    trace (world s') = (trace dead_world ++ evs)%list ∧
    (connect_count evs ≤ Z.to_nat (MAX_RETRIES + 1))%nat ∧
    (send_count evs ≤ Z.to_nat (MAX_RETRIES + 1))%nat ∧
    sleeps evs `prefix_of` [100000; 2 * 100000] ∧
    (err = DB_SUCCESS → is_http_200 response = true) ∧
    (unreachable dead_world → err = DB_ERROR).
Proof.
  split; [lia |].
  apply (http_request_bounded_retries "GET" "/api/v1/ping" None 1024
           (mkState enabled_globals dead_world)).
  lia.
Defined.

(** *** [stream_wal] *)

Lemma stream_wal_runs lsn wal_data s :
  unreachable (world s) →
  runs (stream_wal lsn wal_data) s
    (λ r s' evs,
       let enabled :=
         page_server_enabled (glob s) && page_server_initialized (glob s) in
       r = (if enabled then DB_ERROR else DB_SUCCESS) ∧
       (enabled = false → s' = s) ∧
       (connect_count evs ≤ Z.to_nat (MAX_RETRIES + 1))%nat ∧
       (send_count evs ≤ Z.to_nat (MAX_RETRIES + 1))%nat ∧
       sleeps evs `prefix_of` schedule 0).
Proof.
  intros U. unfold stream_wal, is_enabled, rpc_stream_wal.
  run_step. run_step. run_step. run_step.
  destruct (page_server_enabled (glob s) && page_server_initialized (glob s))
    eqn:Hen; simpl.
  - run_step. run_step. run_step.
    + run_step. count_events.
      repeat split; try lia; try apply prefix_nil; discriminate.
    + run_step. eapply runs_weaken; [apply http_request_runs; lia |].
      intros [err response] s' evs Hst (Hcfg & Hc & Hs & Hz & H200 & Hun).
      run_step. count_events. simpl in *.
      repeat split; try lia; try assumption; try discriminate.
      apply Hun. unreach.
  - run_step. count_events. repeat split; try lia; apply prefix_nil.
Qed.

(** C5, as stated, fails.  The client is enabled and nothing can be reached:
    [stream_wal] hands the transport error to its caller. *)
Lemma stream_wal_unreachable_is_an_error :
  unreachable dead_world ∧
  is_enabled (mkState enabled_globals dead_world)
    = Some (true, mkState enabled_globals dead_world) ∧
  fst <$> stream_wal 1000 [1; 2; 3] (mkState enabled_globals dead_world)
    = Some DB_ERROR.
Proof.
  split; [apply dead_world_unreachable |].
  vm_compute. split; reflexivity.
Qed.

(** C5, amended.  While the service is unreachable, [stream_wal] returns
    [DB_SUCCESS] without touching the network only if the client is
    disabled; if the client is enabled it returns [DB_ERROR], after at most
    [MAX_RETRIES + 1] connection attempts and the two backoff delays, so the
    caller is held up for a bounded time and then told of the failure. *)
Theorem stream_wal_when_unreachable (lsn : Z) (wal_data : list byte) (s : State) :
  unreachable (world s) →
  let enabled :=
    page_server_enabled (glob s) && page_server_initialized (glob s) in
  ∃ s' evs,
    stream_wal lsn wal_data s
      = Some (if enabled then DB_ERROR else DB_SUCCESS, s') ∧
    trace (world s') = (trace (world s) ++ evs)%list ∧
    (if enabled then True else s' = s) ∧
    (connect_count evs ≤ Z.to_nat (MAX_RETRIES + 1))%nat ∧
    (send_count evs ≤ Z.to_nat (MAX_RETRIES + 1))%nat ∧
    sleeps evs `prefix_of` [100000; 2 * 100000].
Proof.
  intros U enabled.
  destruct (stream_wal_runs lsn wal_data s U)
    as (r & s' & Hrun & evs & [_ Htr] & Hr & Hsame & Hc & Hs & Hz).
  exists s', evs. subst r. rewrite schedule_0 in Hz.
  repeat split; try assumption.
  subst enabled.
  destruct (page_server_enabled (glob s) && page_server_initialized (glob s));
    auto.
Qed.

Lemma stream_wal_when_unreachable_witness :
  unreachable dead_world ∧
  ∃ s' evs,
    stream_wal 1000 [1; 2; 3] (mkState enabled_globals dead_world)
      = Some (DB_ERROR, s') ∧
    trace (world s') = (trace dead_world ++ evs)%list ∧
    True ∧
    (connect_count evs ≤ Z.to_nat (MAX_RETRIES + 1))%nat ∧
    (send_count evs ≤ Z.to_nat (MAX_RETRIES + 1))%nat ∧
    sleeps evs `prefix_of` [100000; 2 * 100000].
Proof.
  split; [apply dead_world_unreachable |].
  apply (stream_wal_when_unreachable 1000 [1; 2; 3]
           (mkState enabled_globals dead_world)).
  apply dead_world_unreachable.
Defined.

(** *** [init] *)

Lemma init_runs addr s :
  page_server_enabled (glob s) = false → addr ≠ "" →
  unreachable (world s) →
  runs (init (Some addr)) s
    (λ r s' evs,
       r = false ∧ page_server_enabled (glob s') = false ∧
       (connect_count evs ≤ Z.to_nat (MAX_RETRIES + 1))%nat ∧
       sleeps evs `prefix_of` schedule 0).
Proof.
  intros Hoff Hne U. unfold init, parse_address, ping. simpl.
  destruct (strlen addr =? 0) eqn:Hlen.
  { apply Z.eqb_eq, strlen_zero in Hlen. contradiction. }
  run_all.
  1, 2: count_events; repeat split; try lia; try apply prefix_nil; assumption.
  all: eapply runs_weaken; [apply http_request_runs; lia |];
    intros [err response] s' evs Hst (Hcfg & Hc & Hs & Hz & H200 & Hun);
    assert (err = DB_ERROR) as -> by (apply Hun; unreach);
    run_all; count_events; repeat split; try lia; assumption.
Qed.

(** A disabled client answers every call from its flags alone. *)
Lemma disabled_calls_do_nothing s :
  page_server_enabled (glob s) = false →
  is_enabled s = Some (false, s) ∧
  (∀ space_id page_no lsn page_size,
     get_page space_id page_no lsn page_size s = Some ((DB_ERROR, [], None), s)) ∧
  (∀ lsn wal_data, stream_wal lsn wal_data s = Some (DB_SUCCESS, s)) ∧
  (∃ alive, ping s = Some (alive, s)).
Proof.
  intros Hoff.
  assert (He : is_enabled s = Some (false, s)).
  { unfold is_enabled, mbind, client_bind, get_glob, mret, client_ret.
    rewrite Hoff. reflexivity. }
  split; [exact He |]. split; [| split].
  - intros. unfold get_page, mbind, client_bind. rewrite He. reflexivity.
  - intros. unfold stream_wal, mbind, client_bind. rewrite He. reflexivity.
  - unfold ping, mbind, client_bind, get_glob. rewrite Hoff.
    destruct (page_server_initialized (glob s)); simpl; eauto.
Qed.

(** C7, as stated, fails.  At startup, with an address given and nothing to
    connect to, [init] returns [false]. *)
Lemma init_unreachable_returns_false :
  unreachable dead_world ∧
  fst <$> init (Some "localhost:8080") (mkState initial_globals dead_world)
    = Some false.
Proof.
  split; [apply dead_world_unreachable |].
  vm_compute. reflexivity.
Qed.

(** C7, amended.  For every non-empty address, if the service is unreachable
    when [init] runs on a client that is not yet enabled, [init] leaves the
    client disabled and returns [false].  Afterwards [is_enabled] is [false]
    and [get_page], [stream_wal] and [ping] return at once, leaving the
    state, and so the trace of system calls, exactly as it was. *)
Theorem init_unreachable_disables (addr : string) (s : State) :
  page_server_enabled (glob s) = false → addr ≠ "" →
  unreachable (world s) →
  ∃ s1,
    init (Some addr) s = Some (false, s1) ∧
    is_enabled s1 = Some (false, s1) ∧
    (∀ space_id page_no lsn page_size,
       get_page space_id page_no lsn page_size s1
         = Some ((DB_ERROR, [], None), s1)) ∧
    (∀ lsn wal_data, stream_wal lsn wal_data s1 = Some (DB_SUCCESS, s1)) ∧
    (∃ alive, ping s1 = Some (alive, s1)).
Proof.
  intros Hoff Hne U.
  destruct (init_runs addr s Hoff Hne U)
    as (r & s1 & Hrun & evs & _ & -> & Hoff1 & _).
  exists s1. split; [exact Hrun |].
  apply disabled_calls_do_nothing, Hoff1.
Qed.

Lemma init_unreachable_disables_witness :
  page_server_enabled initial_globals = false ∧
  "localhost:8080" ≠ "" ∧
  unreachable dead_world ∧
  ∃ s1,
    init (Some "localhost:8080") (mkState initial_globals dead_world)
      = Some (false, s1) ∧
    is_enabled s1 = Some (false, s1) ∧
    (∀ space_id page_no lsn page_size,
       get_page space_id page_no lsn page_size s1
         = Some ((DB_ERROR, [], None), s1)) ∧
    (∀ lsn wal_data, stream_wal lsn wal_data s1 = Some (DB_SUCCESS, s1)) ∧
    (∃ alive, ping s1 = Some (alive, s1)).
Proof.
  split; [reflexivity |]. split; [discriminate |].
  split; [apply dead_world_unreachable |].
  apply (init_unreachable_disables "localhost:8080"
           (mkState initial_globals dead_world)).
  - reflexivity.
  - discriminate.
  - apply dead_world_unreachable.
Defined.

(** *** Every entry point returns *)

#[local] Arguments base64_decode : simpl never.
#[local] Arguments json_get_string : simpl never.
#[local] Arguments json_get_uint64 : simpl never.
#[local] Arguments extract_json_body : simpl never.
#[local] Arguments String.eqb : simpl never.

Ltac bounded_now :=
  lazymatch goal with
  | |- bounded _ =>
      unfold bounded; count_events;
      split; [lia | split; [lia | first [apply prefix_nil | assumption]]]
  end.

Ltac through_http_request :=
  eapply runs_weaken;
    [apply http_request_runs; unfold MAX_RESPONSE_SIZE; lia |];
  let err := fresh "err" in
  intros [err ?] ? ? ? (_ & ? & ? & ? & _ & _).

(** Whatever the environment does, each public operation comes back, having
    gone through the request loop at most once. *)
Lemma get_page_returns space_id page_no lsn page_size s :
  runs (get_page space_id page_no lsn page_size) s (λ _ _ evs, bounded evs).
Proof.
  unfold get_page, is_enabled, rpc_get_page.
  run_all. all: try bounded_now.
  all: through_http_request; run_all; bounded_now.
Qed.

Lemma stream_wal_returns lsn wal_data s :
  runs (stream_wal lsn wal_data) s (λ _ _ evs, bounded evs).
Proof.
  unfold stream_wal, is_enabled, rpc_stream_wal.
  run_all. all: try bounded_now.
  all: through_http_request; run_all; bounded_now.
Qed.

Lemma ping_returns s : runs ping s (λ _ _ evs, bounded evs).
Proof.
  unfold ping.
  run_all. all: try bounded_now.
  all: through_http_request; run_all; bounded_now.
Qed.

Lemma init_returns address s : runs (init address) s (λ _ _ evs, bounded evs).
Proof.
  unfold init, parse_address, ping.
  run_all. all: try bounded_now.
  all: through_http_request; run_all; bounded_now.
Qed.

End ClientFacts.

(** * Further properties of the two programs *)

(** ** base64, in general *)

Module CodecFacts.

Import PageServerClient Observe Scenario Base64Facts.

#[local] Arguments Z.shiftl : simpl never.
#[local] Arguments Z.shiftr : simpl never.
#[local] Arguments Z.land : simpl never.
#[local] Arguments Z.lor : simpl never.
#[local] Arguments Z.modulo : simpl never.
#[local] Arguments Z.add : simpl never.
#[local] Arguments Z.ltb : simpl never.
#[local] Arguments Z.eqb : simpl never.
#[local] Arguments b64_char : simpl never.
#[local] Arguments b64_index : simpl never.
#[local] Arguments code : simpl never.
#[local] Arguments wrap32 : simpl never.

(** The decoder on a padding character. *)
Lemma decode_pad rest i j val pad dec_len :
  base64_decode_from (String "=" rest) i j val pad dec_len
  = if j <? dec_len then base64_decode_from rest (i + 1) j val (pad + 1) dec_len
    else [].
Proof.
  simpl. change (code "=" =? code "=") with true. reflexivity.
Qed.

(** With the output buffer full the decoder stops. *)
Lemma decode_full j dec_len inp i val pad :
  dec_len ≤ j → base64_decode_from inp i j val pad dec_len = [].
Proof.
  intros H. destruct inp; simpl; [reflexivity |].
  destruct (j <? dec_len) eqn:E; [lia | reflexivity].
Qed.

(** A last group of one or two bytes is encoded with padding and decoded to
    nothing. *)
Lemma padded_tail_lost data je out_len i j dec_len :
  (length data < 3)%nat → i mod 4 = 0 →
  base64_decode_from (base64_encode_from data je out_len) i j 0 0 dec_len = [].
Proof.
  intros Hlen Hi.
  destruct (Z.lt_ge_cases j dec_len) as [Hj | Hj]; [| by apply decode_full].
  destruct data as [| b0 [| b1 [| b2 rest]]]; simpl in Hlen; try lia;
    cbn [base64_encode_from]; try reflexivity;
    (destruct (je + 4 <? out_len); [| reflexivity]).
  - rewrite !decode_shift by (first [apply sextet_range | Z.div_mod_to_equations; lia]).
    rewrite !decode_pad.
    destruct (j <? dec_len); reflexivity.
  - rewrite !decode_shift by (first [apply sextet_range | Z.div_mod_to_equations; lia]).
    rewrite !decode_pad.
    destruct (j <? dec_len); reflexivity.
Qed.

(** The round trip over [n] whole groups, followed by at most two bytes. *)
Lemma round_trip_prefix_from (n : nat) :
  ∀ data je out_len i j dec_len,
    (length data `div` 3 = n)%nat → Forall is_byte data →
    je + 4 * Z.of_nat n < out_len →
    i mod 4 = 0 →
    j + 3 * Z.of_nat n ≤ dec_len →
    base64_decode_from (base64_encode_from data je out_len) i j 0 0 dec_len
    = take (3 * n) data.
Proof.
  induction n as [| n IH]; intros data je out_len i j dec_len Hlen Hbytes Hroom Hi Hdec.
  - simpl. rewrite take_0. apply padded_tail_lost; [| done].
    destruct (Nat.lt_ge_cases (length data) 3) as [H | H]; [done |].
    pose proof (Nat.Div0.div_le_mono 3 (length data) 3 H) as Hd.
    rewrite Hlen in Hd. simpl in Hd. lia.
  - destruct data as [| b0 [| b1 [| b2 rest]]]; try (simpl in Hlen; discriminate).
    assert (Hrest : (length rest `div` 3 = n)%nat).
    { simpl length in Hlen.
      replace (S (S (S (length rest)))) with (length rest + 1 * 3)%nat in Hlen by lia.
      rewrite Nat.div_add in Hlen by lia. lia. }
    inversion Hbytes as [| ? ? B0 Hb1]; subst.
    inversion Hb1 as [| ? ? B1 Hb2]; subst.
    inversion Hb2 as [| ? ? B2 Hr]; subst.
    cbn [base64_encode_from].
    destruct (je + 4 <? out_len) eqn:E; [| lia].
    rewrite decode_shift by (first [apply sextet_range | Z.div_mod_to_equations; lia]).
    rewrite decode_shift by (first [apply sextet_range | Z.div_mod_to_equations; lia]).
    rewrite decode_shift by (first [apply sextet_range | Z.div_mod_to_equations; lia]).
    rewrite decode_emit by (first [apply sextet_range | Z.div_mod_to_equations; lia]).
    cbv zeta.
    destruct (regroup b0 b1 b2 B0 B1 B2) as (R0 & R1 & R2). cbv zeta in R0, R1, R2.
    rewrite R0, R1, R2.
    replace (3 * S (length rest `div` 3))%nat with (S (S (S (3 * (length rest `div` 3)))))%nat by lia.
    simpl take. do 3 f_equal.
    replace (i + 1 + 1 + 1 + 1) with (i + 4) by lia.
    apply IH; try assumption; first [reflexivity | lia | Z.div_mod_to_equations; lia].
Qed.

(** The round trip through the client's own encoder and decoder keeps the
    whole groups of three bytes and nothing else. *)
Lemma whole_groups_round_trip (data : list byte) (out_len dec_len : Z) :
  Forall is_byte data →
  4 * ((Z.of_nat (length data) + 2) / 3) < out_len →
  3 * (Z.of_nat (length data) / 3) ≤ dec_len →
  base64_decode (base64_encode data out_len) dec_len
  = take (3 * (length data `div` 3)) data.
Proof.
  intros Hbytes Hroom Hdec. unfold base64_decode, base64_encode.
  assert (Hdiv : Z.of_nat (length data `div` 3) = Z.of_nat (length data) / 3)
    by (rewrite Nat2Z.inj_div; reflexivity).
  apply round_trip_prefix_from; try done.
  - rewrite Hdiv. Z.div_mod_to_equations. lia.
  - rewrite Hdiv. lia.
Qed.

(** Encoder output length. *)
Lemma encode_from_strlen data :
  ∀ je out_len,
    je < out_len →
    je + strlen (base64_encode_from data je out_len) < out_len ∧
    strlen (base64_encode_from data je out_len) mod 4 = 0 ∧
    (je + 4 * ((Z.of_nat (length data) + 2) / 3) < out_len →
     strlen (base64_encode_from data je out_len)
     = 4 * ((Z.of_nat (length data) + 2) / 3)).
Proof.
  induction data as [data IH] using (induction_ltof1 _ (@length byte)).
  unfold ltof in IH. intros je out_len Hje.
  destruct data as [| b0 tl];
    [simpl; unfold strlen; simpl; split; [lia | split; [done | intros; reflexivity]] |].
  cbn [base64_encode_from].
  destruct (je + 4 <? out_len) eqn:E.
  2:{ unfold strlen; simpl. split; [lia |]. split; [done |].
      intros H. exfalso. simpl length in H.
      assert (1 ≤ (Z.of_nat (S (length tl)) + 2) / 3) by (Z.div_mod_to_equations; lia). lia. }
  destruct tl as [| b1 [| b2 rest]].
  - unfold strlen; simpl. split; [lia |]. split; [done |]. intros _. reflexivity.
  - unfold strlen; simpl. split; [lia |]. split; [done |]. intros _. reflexivity.
  - specialize (IH rest ltac:(simpl; lia) (je + 4) out_len ltac:(lia)) as (I1 & I2 & I3).
    unfold strlen in *. cbn [String.length]. rewrite !Nat2Z.inj_succ.
    simpl length.
    split; [lia |]. split; [Z.div_mod_to_equations; lia |].
    intros H.
    assert (Hc : (Z.of_nat (S (S (S (length rest)))) + 2) / 3
                 = (Z.of_nat (length rest) + 2) / 3 + 1)
      by (Z.div_mod_to_equations; lia).
    rewrite Hc in *. rewrite I3 by lia. lia.
Qed.



(** With room for every group the client's encoder writes standard padded
    base64. *)
Lemma encode_from_standard data :
  ∀ je out_len,
    je + 4 * ((Z.of_nat (length data) + 2) / 3) < out_len →
    base64_encode_from data je out_len = PageServer.EncodeToString data.
Proof.
  induction data as [data IH] using (induction_ltof1 _ (@length byte)).
  unfold ltof in IH. intros je out_len Hroom.
  destruct data as [| b0 [| b1 [| b2 rest]]]; [reflexivity | | |];
    cbn [base64_encode_from PageServer.EncodeToString];
    (destruct (je + 4 <? out_len) eqn:E;
     [| exfalso; simpl length in Hroom; Z.div_mod_to_equations; lia]).
  - change (Z.shiftl 0 8) with 0. rewrite !Z.lor_0_r. reflexivity.
  - rewrite !Z.lor_0_r. reflexivity.
  - cbv zeta. do 4 f_equal. apply IH; [simpl; lia |].
    simpl length in Hroom. Z.div_mod_to_equations. lia.
Qed.

(** What the client's decoder makes of a page as the server encodes it. *)
Lemma decode_served_page (page : list byte) (page_size : Z) :
  Forall is_byte page →
  3 * (Z.of_nat (length page) / 3) ≤ page_size →
  base64_decode (PageServer.EncodeToString page) page_size
  = take (3 * (length page `div` 3)) page.
Proof.
  intros Hbytes Hsize.
  rewrite <- (encode_from_standard page 0
                (4 * ((Z.of_nat (length page) + 2) / 3) + 1)) by lia.
  apply whole_groups_round_trip; [done | lia | done].
Qed.

(** Go's decoder on the alphabet. *)
Lemma sextet_alphabet k :
  0 ≤ k < 64 →
  PageServer.sextet (b64_char k) = Some k ∧
  (code (b64_char k) =? 61) = false ∧
  (code (b64_char k) =? 13) = false ∧ (code (b64_char k) =? 10) = false.
Proof.
  intros Hk.
  assert (H : forallb
                (λ k, match PageServer.sextet (b64_char k) with
                      | Some k' => k' =? k
                      | None => false
                      end && negb (code (b64_char k) =? 61)
                      && negb (code (b64_char k) =? 13)
                      && negb (code (b64_char k) =? 10))
                (seqZ 0 64) = true) by (vm_compute; reflexivity).
  rewrite forallb_forall in H. specialize (H k).
  rewrite <- list_elem_of_In, elem_of_seqZ in H.
  specialize (H ltac:(lia)).
  repeat (apply andb_true_iff in H as [H ?]).
  destruct (PageServer.sextet (b64_char k)) as [k' |]; [| discriminate].
  apply Z.eqb_eq in H. subst k'.
  repeat split; try reflexivity; by apply negb_true_iff.
Qed.

Ltac to_arith :=
  change 63 with (Z.ones 6); change 255 with (Z.ones 8);
  rewrite ?Z.land_ones, ?Z.shiftr_div_pow2, ?Z.shiftl_mul_pow2 by lia;
  change (2 ^ 6) with 64; change (2 ^ 8) with 256; change (2 ^ 16) with 65536;
  change (2 ^ 12) with 4096; change (2 ^ 18) with 262144.

(** Three bytes split into four sextets and put together again, the way
    Go's decoder does it, with one or two bytes of padding as well. *)
Lemma regroup_std b0 b1 b2 :
  is_byte b0 → is_byte b1 → is_byte b2 →
  let b := Z.lor (Z.lor (Z.shiftl b0 16) (Z.shiftl b1 8)) b2 in
  let x := Z.land (Z.shiftr b 18) 63 in
  let y := Z.land (Z.shiftr b 12) 63 in
  let z := Z.land (Z.shiftr b 6) 63 in
  let w := Z.land b 63 in
  let hi := Z.lor (Z.shiftl x 18) (Z.shiftl y 12) in
  let mid := Z.lor hi (Z.shiftl z 6) in
  let v := Z.lor mid w in
  Z.land (Z.shiftr v 16) 255 = b0 ∧ Z.land (Z.shiftr v 8) 255 = b1 ∧
  Z.land v 255 = b2 ∧
  (b1 = 0 → b2 = 0 → Z.land (Z.shiftr hi 16) 255 = b0) ∧
  (b2 = 0 → Z.land (Z.shiftr mid 16) 255 = b0 ∧ Z.land (Z.shiftr mid 8) 255 = b1).
Proof.
  unfold is_byte. intros H0 H1 H2. cbv zeta. to_arith.
  rewrite (lor_disjoint_add (b0 * 65536) (b1 * 256) 16) by dm.
  rewrite (lor_disjoint_add (b0 * 65536 + b1 * 256) b2 8) by dm.
  set (b := b0 * 65536 + b1 * 256 + b2).
  assert (Hb : 0 ≤ b < 16777216) by (subst b; lia).
  set (s0 := (b / 262144) mod 64). set (s1 := (b / 4096) mod 64).
  set (s2 := (b / 64) mod 64). set (s3 := b mod 64).
  assert (0 ≤ s0 < 64 ∧ 0 ≤ s1 < 64 ∧ 0 ≤ s2 < 64 ∧ 0 ≤ s3 < 64)
    as (R0 & R1 & R2 & R3) by (subst s0 s1 s2 s3; dm).
  rewrite (lor_disjoint_add (s0 * 262144) (s1 * 4096) 18) by (change (2 ^ 18) with 262144; Z.div_mod_to_equations; lia).
  rewrite (lor_disjoint_add (s0 * 262144 + s1 * 4096) (s2 * 64) 12) by (change (2 ^ 12) with 4096; Z.div_mod_to_equations; lia).
  rewrite (lor_disjoint_add (s0 * 262144 + s1 * 4096 + s2 * 64) s3 6) by dm.
  assert (Hv : s0 * 262144 + s1 * 4096 + s2 * 64 + s3 = b) by (subst s0 s1 s2 s3; dm).
  rewrite Hv.
  repeat split; subst s0 s1 s2 b; dm.
Qed.

Lemma decode_quanta_more a b c d e tl :
  PageServer.decode_quanta (a :: b :: c :: d :: e :: tl)
  = match PageServer.sextet a, PageServer.sextet b, PageServer.sextet c,
          PageServer.sextet d, PageServer.decode_quanta (e :: tl) with
    | Some x, Some y, Some z, Some w, Some tl' =>
        let v := Z.lor (Z.lor (Z.lor (Z.shiftl x 18) (Z.shiftl y 12)) (Z.shiftl z 6)) w in
        Some (Z.land (Z.shiftr v 16) 255 :: Z.land (Z.shiftr v 8) 255
                :: Z.land v 255 :: tl')
    | _, _, _, _, _ => None
    end.
Proof. reflexivity. Qed.

(** [DecodeString] keeps the characters of the alphabet. *)
Lemma clean_alphabet k s : 0 ≤ k < 64 → clean (String (b64_char k) s) = b64_char k :: clean s.
Proof.
  intros Hk. destruct (sextet_alphabet k Hk) as (_ & _ & H13 & H10).
  unfold clean. simpl. rewrite H13, H10. reflexivity.
Qed.

(** Go's decoder inverts Go's encoder, padding included. *)
Lemma std_round_trip data :
  Forall is_byte data →
  PageServer.decode_quanta (clean (PageServer.EncodeToString data)) = Some data.
Proof.
  induction data as [data IH] using (induction_ltof1 _ (@length byte)).
  unfold ltof in IH. intros Hbytes.
  destruct data as [| b0 [| b1 [| b2 rest]]]; [reflexivity | | |].
  - inversion Hbytes as [| ? ? B0 _]; subst.
    destruct (regroup_std b0 0 0 B0 ltac:(unfold is_byte; lia) ltac:(unfold is_byte; lia))
      as (_ & _ & _ & R & _). cbv zeta in R. specialize (R eq_refl eq_refl).
    change (Z.shiftl 0 8) with 0 in R. rewrite !Z.lor_0_r in R.
    cbn [PageServer.EncodeToString]. cbv zeta.
    rewrite !clean_alphabet by apply sextet_range.
    change (clean "==") with ["="%char; "="%char].
    cbn [PageServer.decode_quanta].
    destruct (sextet_alphabet _ (sextet_range (Z.shiftr (Z.shiftl b0 16) 18))) as (-> & _).
    destruct (sextet_alphabet _ (sextet_range (Z.shiftr (Z.shiftl b0 16) 12))) as (-> & _).
    change (code "=" =? 61) with true. simpl andb. cbv iota. rewrite R. reflexivity.
  - inversion Hbytes as [| ? ? B0 Hb1]; subst.
    inversion Hb1 as [| ? ? B1 _]; subst.
    destruct (regroup_std b0 b1 0 B0 B1 ltac:(unfold is_byte; lia))
      as (_ & _ & _ & _ & R). cbv zeta in R. destruct (R eq_refl) as [R0 R1].
    rewrite !Z.lor_0_r in R0, R1.
    cbn [PageServer.EncodeToString]. cbv zeta.
    rewrite !clean_alphabet by apply sextet_range.
    change (clean "=") with ["="%char].
    cbn [PageServer.decode_quanta].
    repeat match goal with
           | |- context [PageServer.sextet (b64_char (Z.land ?x 63))] =>
               destruct (sextet_alphabet _ (sextet_range x)) as (-> & ? & _)
           end.
    change (code "=" =? 61) with true.
    match goal with
    | H : (code ?c =? 61) = false |- context [(code ?c =? 61) && true] => rewrite H
    end.
    simpl andb. cbv iota. rewrite R0, R1. reflexivity.
  - inversion Hbytes as [| ? ? B0 Hb1]; subst.
    inversion Hb1 as [| ? ? B1 Hb2]; subst.
    inversion Hb2 as [| ? ? B2 Hr]; subst.
    destruct (regroup_std b0 b1 b2 B0 B1 B2) as (R0 & R1 & R2 & _).
    cbv zeta in R0, R1, R2.
    cbn [PageServer.EncodeToString]. cbv zeta.
    rewrite !clean_alphabet by apply sextet_range.
    specialize (IH rest ltac:(simpl; lia) Hr).
    destruct (clean (PageServer.EncodeToString rest)) as [| e tl] eqn:Hc.
    + cbn [PageServer.decode_quanta].
      repeat match goal with
             | |- context [PageServer.sextet (b64_char (Z.land ?x 63))] =>
                 destruct (sextet_alphabet _ (sextet_range x)) as (-> & ? & _)
             end.
      repeat match goal with
             | H : (code ?c =? 61) = false |- context [code ?c =? 61] => rewrite H
             end.
      simpl andb. cbv iota. rewrite R0, R1, R2.
      simpl in IH. by inversion IH.
    + rewrite decode_quanta_more.
      repeat match goal with
             | |- context [PageServer.sextet (b64_char (Z.land ?x 63))] =>
                 destruct (sextet_alphabet _ (sextet_range x)) as (-> & ? & _)
             end.
      rewrite IH. cbv zeta. rewrite R0, R1, R2. reflexivity.
Qed.

(** The server's decoder inverts the client's encoder on the buffer
    [rpc_stream_wal] allocates. *)
Lemma decode_client_wal (wal_data : list byte) :
  Forall is_byte wal_data →
  PageServer.DecodeString
    (base64_encode wal_data (((Z.of_nat (length wal_data) + 2) / 3) * 4 + 1))
  = Some wal_data.
Proof.
  intros Hbytes. unfold base64_encode.
  rewrite encode_from_standard by lia.
  apply std_round_trip, Hbytes.
Qed.

Lemma land_255_byte x : is_byte (Z.land x 255).
Proof.
  unfold is_byte. change 255 with (Z.ones 8). rewrite Z.land_ones by lia.
  apply Z.mod_pos_bound. lia.
Qed.

Lemma base64_decode_from_bytes inp :
  ∀ i j val pad out_len,
    Forall is_byte (base64_decode_from inp i j val pad out_len).
Proof.
  induction inp as [| c rest IH]; intros i j val pad out_len; simpl; [constructor |].
  destruct (j <? out_len); [| constructor].
  destruct (code c =? code "="); [apply IH |].
  destruct (b64_index c) as [idx |]; [| apply IH].
  destruct ((i + 1) mod 4 =? 0); [| apply IH].
  repeat match goal with
         | |- context [if ?b then _ else _] => destruct b; simpl
         end;
    repeat (apply Forall_cons; split; [apply land_255_byte |]); apply IH.
Qed.



(** decimal *)

(** X1.  For every byte sequence and buffers with room, decoding what the
    client's encoder wrote gives back the whole groups of three bytes and
    drops the last one or two bytes: [length data / 3 * 3] bytes come back,
    all of them right. *)
Theorem base64_round_trip_keeps_whole_groups
    (data : list byte) (out_len dec_len : Z) :
  Forall is_byte data →
  4 * ((Z.of_nat (length data) + 2) / 3) < out_len →
  3 * (Z.of_nat (length data) / 3) ≤ dec_len →
  base64_decode (base64_encode data out_len) dec_len
  = take (3 * (length data `div` 3)) data.
Proof. apply whole_groups_round_trip. Qed.

Lemma base64_round_trip_keeps_whole_groups_witness :
  Forall is_byte [1; 2; 3; 4; 5] ∧
  4 * ((Z.of_nat (length [1; 2; 3; 4; 5]) + 2) / 3) < 9 ∧
  3 * (Z.of_nat (length [1; 2; 3; 4; 5]) / 3) ≤ 16 ∧
  base64_decode (base64_encode [1; 2; 3; 4; 5] 9) 16
  = take (3 * (length [1; 2; 3; 4; 5] `div` 3)) [1; 2; 3; 4; 5].
Proof.
  assert (H : Forall is_byte [1; 2; 3; 4; 5])
    by (repeat constructor; unfold is_byte; lia).
  split; [exact H |]. split; [vm_compute; reflexivity |].
  split; [vm_compute; discriminate |].
  apply (base64_round_trip_keeps_whole_groups [1; 2; 3; 4; 5] 9 16);
    [exact H | vm_compute; reflexivity | vm_compute; discriminate].
Defined.

(** X2.  The encoder never writes past [out_len]: the text and its
    terminating NUL fit, whatever the input; the text is a whole number of
    four-character groups; and in the buffer [rpc_stream_wal] allocates,
    [(wal_len + 2) / 3 * 4 + 1] bytes, every group is written. *)
Theorem base64_encode_fits (data : list byte) (out_len : Z) :
  1 ≤ out_len →
  strlen (base64_encode data out_len) + 1 ≤ out_len ∧
  strlen (base64_encode data out_len) mod 4 = 0 ∧
  strlen (base64_encode data (((Z.of_nat (length data) + 2) / 3) * 4 + 1))
  = ((Z.of_nat (length data) + 2) / 3) * 4.
Proof.
  intros H. unfold base64_encode.
  destruct (encode_from_strlen data 0 out_len ltac:(lia)) as (A & B & _).
  assert (0 ≤ (Z.of_nat (length data) + 2) / 3) by (Z.div_mod_to_equations; lia).
  destruct (encode_from_strlen data 0 (((Z.of_nat (length data) + 2) / 3) * 4 + 1)
              ltac:(lia)) as (_ & _ & C).
  split; [lia |]. split; [exact B |]. rewrite C by lia. lia.
Qed.

Lemma base64_encode_fits_witness :
  1 ≤ 5 ∧
  strlen (base64_encode [72; 105] 5) + 1 ≤ 5 ∧
  strlen (base64_encode [72; 105] 5) mod 4 = 0 ∧
  strlen (base64_encode [72; 105] (((Z.of_nat (length [72; 105]) + 2) / 3) * 4 + 1))
  = ((Z.of_nat (length [72; 105]) + 2) / 3) * 4.
Proof.
  split; [lia |]. apply (base64_encode_fits [72; 105] 5). lia.
Defined.

(** X3.  The decoder never writes past [out_len], whatever text it is given,
    and what it writes are bytes. *)
Theorem base64_decode_within_buffer (inp : string) (out_len : Z) :
  0 ≤ out_len →
  Z.of_nat (length (base64_decode inp out_len)) ≤ out_len ∧
  Forall is_byte (base64_decode inp out_len).
Proof.
  intros H. split; [by apply base64_decode_length |].
  apply base64_decode_from_bytes.
Qed.

Lemma base64_decode_within_buffer_witness :
  0 ≤ 2 ∧
  Z.of_nat (length (base64_decode "QUJDREVG" 2)) ≤ 2 ∧
  Forall is_byte (base64_decode "QUJDREVG" 2).
Proof.
  split; [lia |]. apply (base64_decode_within_buffer "QUJDREVG" 2). lia.
Defined.

End CodecFacts.

(** ** Numbers, JSON fields and addresses as text *)

Module TextFacts.

Import DecimalString DecimalPos DecimalN DecimalFacts.
Import PageServer PageServerClient Observe Scenario Base64Facts ClientLogic
  ClientLogicFacts CodecFacts.

(** [String.append], one equation at a time. *)
Lemma append_cons c a b : String c a +:+ b = String c (a +:+ b).
Proof. reflexivity. Qed.

(** Reading a printed decimal numeral gives the number back. *)
Lemma digits_value_string_of_uint d :
  ∀ rest acc,
    match rest with String c _ => isdigit c = false | EmptyString => True end →
    digits_value (NilEmpty.string_of_uint d +:+ rest) acc
    = Z.of_N (Unsigned.of_lu (Decimal.rev d)) + acc * 10 ^ Z.of_N (Unsigned.usize d).
Proof.
  induction d; intros rest acc Hrest;
    [ simpl; destruct rest as [| c rest]; simpl; [lia | rewrite Hrest; lia] | .. ];
    cbn [NilEmpty.string_of_uint]; rewrite append_cons;
    cbn [digits_value];
    change (isdigit _) with true; cbv iota;
    rewrite IHd by exact Hrest;
    unfold Decimal.rev; cbn [Decimal.revapp]; fold (Decimal.rev d);
    rewrite Unsigned.of_lu_revapp; cbn [Unsigned.of_lu Unsigned.usize];
    rewrite ?N2Z.inj_add, ?N2Z.inj_mul, ?N2Z.inj_pow, ?N2Z.inj_succ;
    rewrite Z.pow_succ_r by apply N2Z.is_nonneg;
    match goal with
    | |- context [code ?c - code "0"] =>
        let v := eval vm_compute in (code c - code "0") in
        change (code c - code "0") with v
    end;
    simpl Z.of_N; ring.
Qed.

Lemma to_uint_not_nil n : N.to_uint n ≠ Decimal.Nil.
Proof.
  destruct n; simpl; [discriminate |]. apply Unsigned.to_uint_nonnil.
Qed.

Lemma digits_value_fmt_u n rest :
  0 ≤ n →
  match rest with String c _ => isdigit c = false | EmptyString => True end →
  digits_value (fmt_u n +:+ rest) 0 = n.
Proof.
  intros Hn Hrest. unfold fmt_u, NilZero.string_of_uint.
  pose proof (to_uint_not_nil (Z.to_N n)) as Hnil.
  destruct (N.to_uint (Z.to_N n)) eqn:E; [done | ..];
    rewrite <- E; rewrite digits_value_string_of_uint by exact Hrest;
    rewrite <- Unsigned.of_uint_alt, Z.mul_0_l, Z.add_0_r;
    change (Pos.of_uint (N.to_uint (Z.to_N n))) with (N.of_uint (N.to_uint (Z.to_N n)));
    rewrite DecimalN.Unsigned.of_to; lia.
Qed.

Lemma number_start_fmt_u n rest :
  number_start (fmt_u n +:+ rest) = (false, fmt_u n +:+ rest).
Proof.
  unfold fmt_u, NilZero.string_of_uint.
  pose proof (to_uint_not_nil (Z.to_N n)) as Hnil.
  destruct (N.to_uint (Z.to_N n)); [done | ..]; reflexivity.
Qed.

Lemma strtoull_fmt_u n rest :
  0 ≤ n < 2 ^ 64 →
  match rest with String c _ => isdigit c = false | EmptyString => True end →
  strtoull (fmt_u n +:+ rest) = n.
Proof.
  intros Hn Hrest. unfold strtoull. rewrite number_start_fmt_u.
  rewrite digits_value_fmt_u by (first [lia | exact Hrest]).
  destruct (n >? 2 ^ 64 - 1) eqn:E; [lia | reflexivity].
Qed.

Lemma atoi_fmt_u n rest :
  0 ≤ n < 2 ^ 32 →
  match rest with String c _ => isdigit c = false | EmptyString => True end →
  atoi_uint (fmt_u n +:+ rest) = n.
Proof.
  intros Hn Hrest. unfold atoi_uint, strtol. rewrite number_start_fmt_u.
  rewrite digits_value_fmt_u by (first [lia | exact Hrest]).
  rewrite Z.min_l by lia. unfold wrap32. apply Z.mod_small. lia.
Qed.

Lemma fmt_u_inj a b : 0 ≤ a → 0 ≤ b → fmt_u a = fmt_u b → a = b.
Proof.
  intros Ha Hb H.
  rewrite <- (digits_value_fmt_u a "" Ha I), <- (digits_value_fmt_u b "" Hb I).
  by rewrite H.
Qed.

(** Strings of digits, for cutting at the separator. *)
Lemma string_of_uint_digits d :
  ∀ c, In c (list_ascii_of_string (NilEmpty.string_of_uint d)) → isdigit c = true.
Proof.
  induction d; simpl; intros c Hc; [done | ..];
    (destruct Hc as [<- | Hc]; [reflexivity | by apply IHd]).
Qed.

Lemma fmt_u_digits n c :
  In c (list_ascii_of_string (fmt_u n)) → isdigit c = true.
Proof.
  unfold fmt_u, NilZero.string_of_uint.
  destruct (N.to_uint (Z.to_N n)) eqn:E; [simpl; intros [<- | []]; reflexivity | ..];
    rewrite <- E; apply string_of_uint_digits.
Qed.

Lemma app_sep_inj (a b c d : string) (sep : ascii) :
  ¬ In sep (list_ascii_of_string a) → ¬ In sep (list_ascii_of_string c) →
  a +:+ String sep b = c +:+ String sep d → a = c ∧ b = d.
Proof.
  revert c. induction a as [| x a IH]; intros c Ha Hc H.
  - destruct c as [| y c]; simpl in *.
    + by inversion H.
    + inversion H; subst. exfalso. apply Hc. by left.
  - destruct c as [| y c]; simpl in *.
    + inversion H; subst. exfalso. apply Ha. by left.
    + inversion H; subst.
      destruct (IH c) as [-> ->]; auto.
Qed.

(** The copy loop stores at most [value_len - 1 - i] characters, the
    difference taken in [size_t]. *)
Lemma json_copy_value_bound pos :
  ∀ i value_len,
    strlen (json_copy_value pos i value_len) ≤ Z.max 0 (wrap64 (value_len - 1) - i).
Proof.
  induction pos as [pos IH] using (induction_ltof1 _ String.length).
  unfold ltof in IH. intros i n.
  destruct pos as [| c rest]; [simpl; unfold strlen; simpl; lia |].
  cbn [json_copy_value].
  destruct (Ascii.eqb c dquote || negb (i <? wrap64 (n - 1))) eqn:E;
    [unfold strlen; simpl; lia |].
  apply orb_false_iff in E as [_ E]. apply negb_false_iff in E.
  destruct (Ascii.eqb c "\").
  - destruct rest as [| e rest']; [unfold strlen; simpl; lia |].
    specialize (IH rest' ltac:(simpl; lia) (i + 1) n).
    unfold strlen in *. cbn [String.length]. lia.
  - specialize (IH rest ltac:(simpl; lia) (i + 1) n).
    unfold strlen in *. cbn [String.length]. lia.
Qed.



(** Up to the closing quote a plain value is copied as it is. *)
Lemma json_copy_value_plain v :
  ∀ rest i value_len,
    plain v → i + strlen v ≤ wrap64 (value_len - 1) →
    json_copy_value (v +:+ String dquote rest) i value_len = v.
Proof.
  induction v as [| c v IH]; intros rest i n Hp Hlen.
  - reflexivity.
  - unfold plain in Hp. simpl in Hp. apply Forall_cons in Hp as [Hc Hp].
    unfold plain_char in Hc. apply andb_true_iff in Hc as [Hc _].
    apply andb_true_iff in Hc as [Hq Hb].
    apply negb_true_iff in Hq, Hb.
    rewrite append_cons. cbn [json_copy_value]. rewrite Hq, Hb.
    unfold strlen in *. cbn [String.length] in Hlen.
    destruct (i <? wrap64 (n - 1)) eqn:E; [| lia]. simpl.
    f_equal. apply IH; [exact Hp | lia].
Qed.

(** [strstr] for a needle that begins with a quote skips over plain text. *)
Lemma strstr_skip_plain v :
  ∀ rest needle,
    plain v → strstr (v +:+ rest) (String dquote needle) = strstr rest (String dquote needle).
Proof.
  induction v as [| c v IH]; intros rest needle Hp; [reflexivity |].
  unfold plain in Hp. simpl in Hp. apply Forall_cons in Hp as [Hc Hp].
  unfold plain_char in Hc. apply andb_true_iff in Hc as [Hc _].
  apply andb_true_iff in Hc as [Hq _]. apply negb_true_iff in Hq.
  rewrite append_cons. cbn [strstr String.prefix].
  destruct (ascii_dec dquote c) as [<- | Hne].
  - rewrite Ascii.eqb_refl in Hq. discriminate.
  - apply IH. exact Hp.
Qed.

Lemma skip_blank_fmt_u n rest :
  skip_while is_blank (fmt_u n +:+ rest) = fmt_u n +:+ rest.
Proof.
  unfold fmt_u, NilZero.string_of_uint.
  pose proof (to_uint_not_nil (Z.to_N n)) as Hnil.
  destruct (N.to_uint (Z.to_N n)); [done | ..]; reflexivity.
Qed.

Lemma append_assoc (a b c : string) : (a +:+ b) +:+ c = a +:+ (b +:+ c).
Proof.
  induction a as [| x a IH]; [reflexivity |].
  rewrite !append_cons. f_equal. exact IH.
Qed.

Lemma substring_all t : ∀ m, (String.length t ≤ m)%nat → substring 0 m t = t.
Proof.
  induction t as [| c t IH]; intros m Hm; destruct m; simpl in *;
    try reflexivity; try lia.
  f_equal. apply IH. lia.
Qed.

Lemma drop_first c t : substring 1 (String.length (String c t)) (String c t) = t.
Proof. simpl. apply substring_all. lia. Qed.

(** The shape of a success reply on the wire. *)
Lemma encode_success_shape v lsn :
  v ≠ "" → lsn ≠ 0 →
  encode_GetPageResponse (mkGetPageResponse "success" v lsn "")
  = ("{" +:+ jstr "status" +:+ ":" +:+ jstr "success" +:+ "," +:+
     jstr "page_data" +:+ ":" +:+ String dquote "") +:+
    (v +:+ String dquote ("," +:+ jstr "page_lsn" +:+ ":" +:+ (fmt_u lsn +:+ "}" +:+ LF))).
Proof.
  intros Hv Hl. unfold encode_GetPageResponse.
  cbn [gr_Status gr_PageData gr_PageLSN gr_Error].
  destruct (String.eqb_spec v "") as [-> | _]; [done |].
  destruct (Z.eqb_spec lsn 0) as [-> | _]; [done |].
  change (("" =? "")%string) with true. cbv iota.
  unfold jstr. rewrite ?append_assoc. reflexivity.
Qed.

Ltac eval_head f :=
  match goal with
  | |- context [f ?h ?n] =>
      let r := eval vm_compute in (f h n) in change (f h n) with r; cbv iota beta
  end.


Lemma b64_text_plain v : b64_text v → plain v.
Proof.
  unfold b64_text, plain. intros H. eapply Forall_impl; [exact H |]. intros c Hc.
  destruct c as [[] [] [] [] [] [] [] []]; vm_compute in Hc; try discriminate; reflexivity.
Qed.

Lemma b64_text_cons c v : b64_text (String c v) → b64_text_char c = true ∧ b64_text v.
Proof. unfold b64_text. simpl. intros H. by apply Forall_cons in H. Qed.

Lemma prefix_get n :
  ∀ h k c, String.prefix n h = true → String.get k n = Some c → String.get k h = Some c.
Proof.
  induction n as [| x n IH]; intros h k c Hp Hg; [destruct k; discriminate |].
  destruct h as [| y h]; [discriminate |]. simpl in Hp.
  destruct (ascii_dec x y) as [<- | ?]; [| discriminate].
  destruct k; simpl in *; [exact Hg | by eapply IH].
Qed.

(** The key [page_lsn] cannot begin inside base64 text or at the quote that
    opens it. *)
Lemma no_page_lsn_at_quote v y :
  b64_text v →
  String.prefix (quoted "page_lsn") (String dquote (v +:+ String dquote y)) = false.
Proof.
  intros Hv.
  destruct (String.prefix _ _) eqn:E; [exfalso | reflexivity].
  pose proof (λ k c, prefix_get _ _ k c E) as G. clear E.
  do 5 (destruct v as [| ? v];
        [ match goal with
          | |- _ => specialize (G 1%nat _ eq_refl); discriminate G
          | |- _ => specialize (G 2%nat _ eq_refl); discriminate G
          | |- _ => specialize (G 3%nat _ eq_refl); discriminate G
          | |- _ => specialize (G 4%nat _ eq_refl); discriminate G
          | |- _ => specialize (G 5%nat _ eq_refl); discriminate G
          end
        | apply b64_text_cons in Hv as [? Hv]; rewrite append_cons in G]).
  specialize (G 5%nat _ eq_refl). simpl in G. injection G as ->.
  discriminate.
Qed.

Lemma strstr_step n c h :
  String.prefix n (String c h) = false → strstr (String c h) n = strstr h n.
Proof. intros H. cbn [strstr]. rewrite H. reflexivity. Qed.

Lemma append_nil_l (x : string) : "" +:+ x = x.
Proof. reflexivity. Qed.

Ltac normalize_append :=
  repeat first [rewrite append_nil_l | rewrite append_cons | rewrite append_assoc].

Lemma strstr_here n h : String.prefix n h = true → strstr h n = Some h.
Proof. intros H. destruct h; cbn [strstr]; rewrite H; reflexivity. Qed.

(** The client's scanners on a success reply as the server's encoder writes
    it. *)
Lemma reads_success_reply (page_data_b64 : string) (lsn : Z) :
  b64_text page_data_b64 → page_data_b64 ≠ "" →
  strlen page_data_b64 < MAX_RESPONSE_SIZE →
  0 < lsn < 2 ^ 64 →
  let json :=
    encode_GetPageResponse (mkGetPageResponse "success" page_data_b64 lsn "") in
  json_get_string json "status" 64 = Some "success" ∧
  json_get_string json "page_data" MAX_RESPONSE_SIZE = Some page_data_b64 ∧
  json_get_uint64 json "page_lsn" = Some lsn.
Proof.
  intros Hb Hne Hlen Hlsn json. subst json.
  pose proof (b64_text_plain _ Hb) as Hp.
  rewrite encode_success_shape by (first [done | lia]).
  split; [reflexivity |]. split.
  - unfold json_get_string.
    remember (page_data_b64 +:+ String dquote _) as x eqn:Hx.
    eval_head strstr. eval_head strchr. rewrite drop_first.
    simpl. subst x.
    rewrite json_copy_value_plain; [reflexivity | exact Hp |].
    change (wrap64 (MAX_RESPONSE_SIZE - 1)) with (MAX_RESPONSE_SIZE - 1). lia.
  - unfold json_get_uint64.
    rewrite !append_assoc. unfold jstr at 1 2 3. rewrite !append_assoc.
    normalize_append.
    repeat rewrite strstr_step by reflexivity.
    rewrite strstr_step by (apply no_page_lsn_at_quote, Hb).
    let q := eval vm_compute in (quoted "page_lsn") in
    change (quoted "page_lsn") with q.
    rewrite (strstr_skip_plain page_data_b64) by exact Hp.
    unfold jstr. normalize_append.
    repeat rewrite strstr_step by reflexivity.
    rewrite strstr_here by reflexivity.
    remember (fmt_u lsn +:+ _) as t eqn:Ht.
    eval_head strchr. rewrite drop_first. subst t.
    rewrite skip_blank_fmt_u, strtoull_fmt_u; [reflexivity | lia | reflexivity].
Qed.

(** The needle of a field scan begins with a quote. *)
Lemma quoted_cons key : ∃ q, quoted key = String dquote q.
Proof.
  unfold quoted, snprintf. change (Z.to_nat (256 - 1)) with 255%nat.
  rewrite append_cons. cbn [substring]. by eexists.
Qed.

(** The field scanners pass over text without quotes placed before the
    JSON, such as the size line of a chunk. *)
Lemma json_get_string_skip gap json key value_len :
  plain gap →
  json_get_string (gap +:+ json) key value_len = json_get_string json key value_len.
Proof.
  intros Hp. unfold json_get_string.
  destruct (quoted_cons key) as [q ->]. by rewrite strstr_skip_plain.
Qed.

Lemma json_get_uint64_skip gap json key :
  plain gap → json_get_uint64 (gap +:+ json) key = json_get_uint64 json key.
Proof.
  intros Hp. unfold json_get_uint64.
  destruct (quoted_cons key) as [q ->]. by rewrite strstr_skip_plain.
Qed.

(** The scanners on a success reply as the server's encoder writes it,
    whatever precedes it without quotes and whatever follows it. *)
Lemma reads_framed_success_reply (gap rest page_data_b64 : string) (lsn : Z) :
  plain gap →
  b64_text page_data_b64 → page_data_b64 ≠ "" →
  strlen page_data_b64 < MAX_RESPONSE_SIZE →
  0 < lsn < 2 ^ 64 →
  let json :=
    gap +:+
    encode_GetPageResponse (mkGetPageResponse "success" page_data_b64 lsn "") +:+
    rest in
  json_get_string json "status" 64 = Some "success" ∧
  json_get_string json "page_data" MAX_RESPONSE_SIZE = Some page_data_b64 ∧
  json_get_uint64 json "page_lsn" = Some lsn.
Proof.
  intros Hgap Hb Hne Hlen Hlsn json. subst json.
  pose proof (b64_text_plain _ Hb) as Hp.
  rewrite (json_get_string_skip gap _ "status"), (json_get_string_skip gap _ "page_data"),
    json_get_uint64_skip by exact Hgap.
  rewrite encode_success_shape by (first [done | lia]).
  rewrite (append_assoc _ _ rest), (append_assoc page_data_b64 _ rest).
  rewrite (append_cons dquote _ rest).
  split; [| split].
  - remember (page_data_b64 +:+ String dquote _) as x eqn:Hx. reflexivity.
  - unfold json_get_string.
    remember (page_data_b64 +:+ String dquote _) as x eqn:Hx.
    eval_head strstr. eval_head strchr. rewrite drop_first.
    simpl. subst x.
    rewrite json_copy_value_plain; [reflexivity | exact Hp |].
    change (wrap64 (MAX_RESPONSE_SIZE - 1)) with (MAX_RESPONSE_SIZE - 1). lia.
  - unfold json_get_uint64.
    rewrite !append_assoc. unfold jstr at 1 2 3. rewrite !append_assoc.
    normalize_append.
    repeat rewrite strstr_step by reflexivity.
    rewrite strstr_step by (apply no_page_lsn_at_quote, Hb).
    let q := eval vm_compute in (quoted "page_lsn") in
    change (quoted "page_lsn") with q.
    rewrite (strstr_skip_plain page_data_b64) by exact Hp.
    unfold jstr, LF. normalize_append.
    repeat rewrite strstr_step by reflexivity.
    rewrite strstr_here by reflexivity.
    remember (fmt_u lsn +:+ _) as t eqn:Ht.
    eval_head strchr. rewrite drop_first. subst t.
    rewrite skip_blank_fmt_u, strtoull_fmt_u; [reflexivity | lia | reflexivity].
Qed.

Lemma strchr_colon host rest :
  colon_free host → strchr (host +:+ String ":" rest) ":" = Some (String ":" rest).
Proof.
  induction host as [| c host IH]; intros Hc; [reflexivity |].
  rewrite append_cons. cbn [strchr].
  destruct (Ascii.eqb_spec c ":") as [-> | _].
  - exfalso. apply Hc. by left.
  - apply IH. intros Hin. apply Hc. by right.
Qed.

Lemma strchr_none s : colon_free s → strchr s ":" = None.
Proof.
  induction s as [| c s IH]; intros Hc; [reflexivity |].
  cbn [strchr]. destruct (Ascii.eqb_spec c ":") as [-> | _].
  - exfalso. apply Hc. by left.
  - apply IH. intros Hin. apply Hc. by right.
Qed.

Lemma length_append (a b : string) :
  String.length (a +:+ b) = (String.length a + String.length b)%nat.
Proof. induction a as [| c a IH]; [reflexivity |]. rewrite append_cons. simpl. lia. Qed.

Lemma substring_prefix a b : substring 0 (String.length a) (a +:+ b) = a.
Proof.
  induction a as [| c a IH]; [destruct b; reflexivity |].
  rewrite append_cons. simpl. by rewrite IH.
Qed.

Lemma parse_address_value address s :
  malloc_result (world s) (mallocs (world s)) = true →
  ∃ s',
    parse_address address s =
      Some (Some
        match strchr address ":" with
        | Some colon =>
            (String.substring 0 (String.length address - String.length colon) address,
             let port := atoi_uint (String.substring 1 (String.length colon) colon) in
             if port =? 0 then 8080 else port)
        | None => (address, 8080)
        end, s') ∧
    glob s' = glob s ∧ trace (world s') = trace (world s).
Proof.
  intros Hm. unfold parse_address, mbind, client_bind, my_malloc. rewrite Hm. simpl.
  destruct (strchr address ":"); eexists; split; reflexivity || (split; reflexivity).
Qed.

Lemma parse_address_split (host port_text : string) (s : State) :
  colon_free host →
  malloc_result (world s) (mallocs (world s)) = true →
  ∃ port s',
    parse_address (host +:+ String ":" port_text) s = Some (Some (host, port), s') ∧
    port = (if atoi_uint port_text =? 0 then 8080 else atoi_uint port_text) ∧
    0 < port < 2 ^ 32 ∧
    glob s' = glob s ∧ trace (world s') = trace (world s).
Proof.
  intros Hc Hm.
  destruct (parse_address_value (host +:+ String ":" port_text) s Hm) as (s' & Hp & Hg & Ht).
  rewrite strchr_colon in Hp by exact Hc.
  rewrite drop_first in Hp.
  rewrite length_append in Hp.
  replace (String.length host + String.length (String ":" port_text)
           - String.length (String ":" port_text))%nat
    with (String.length host) in Hp by lia.
  rewrite substring_prefix in Hp. cbv zeta in Hp.
  eexists _, s'. split; [exact Hp |]. split; [reflexivity |].
  split; [| auto].
  assert (0 ≤ atoi_uint port_text < 2 ^ 32).
  { unfold atoi_uint, wrap32. apply Z.mod_pos_bound. lia. }
  destruct (atoi_uint port_text =? 0) eqn:E; lia.
Qed.

Lemma append_nil_r (a : string) : a +:+ "" = a.
Proof. induction a as [| c a IH]; [reflexivity |]. rewrite append_cons. by rewrite IH. Qed.

(** X4.  The key under which the server files a page determines the page:
    two pairs of space and page number with the same key are the same
    pair. *)
Theorem page_key_injective (space page space' page' : Z) :
  0 ≤ space → 0 ≤ page → 0 ≤ space' → 0 ≤ page' →
  PageServer.page_key space page = PageServer.page_key space' page' →
  space = space' ∧ page = page'.
Proof.
  intros H1 H2 H3 H4 H. unfold PageServer.page_key in H.
  change (":" +:+ fmt_u page) with (String ":" (fmt_u page)) in H.
  change (":" +:+ fmt_u page') with (String ":" (fmt_u page')) in H.
  apply app_sep_inj in H as [Hs Hp].
  - split; by apply fmt_u_inj.
  - intros Hin. apply fmt_u_digits in Hin. discriminate.
  - intros Hin. apply fmt_u_digits in Hin. discriminate.
Qed.

Lemma page_key_injective_witness :
  0 ≤ 1 ∧ 0 ≤ 42 ∧
  PageServer.page_key 1 42 = PageServer.page_key 1 42 ∧ 1 = 1 ∧ 42 = 42.
Proof.
  split; [lia |]. split; [lia |]. split; [reflexivity |].
  apply (page_key_injective 1 42 1 42); first [lia | reflexivity].
Defined.

(** X5.  [json_get_string] never writes past [value_len]: the value it
    stores and the terminating NUL fit the caller's buffer; a longer field
    is cut short. *)
Theorem json_get_string_fits (json key : string) (value_len : Z) (value : string) :
  1 ≤ value_len →
  json_get_string json key value_len = Some value →
  strlen value + 1 ≤ value_len.
Proof.
  intros Hn. unfold json_get_string.
  destruct (strstr json (quoted key)) as [pos |]; [| discriminate].
  destruct (strchr pos ":") as [pos' |]; [| discriminate].
  destruct (skip_while is_blank _) as [| c p]; [discriminate |].
  destruct (Ascii.eqb c dquote); [| discriminate].
  intros [= <-]. pose proof (json_copy_value_bound p 0 value_len).
  assert (wrap64 (value_len - 1) ≤ value_len - 1)
    by (unfold wrap64; apply Z.mod_le; lia).
  lia.
Qed.

Lemma json_get_string_fits_witness :
  1 ≤ 4 ∧
  json_get_string ("{" +:+ jstr "status" +:+ ":" +:+ jstr "success" +:+ "}") "status" 4
    = Some "suc" ∧
  strlen "suc" + 1 ≤ 4.
Proof.
  split; [lia |]. split; [reflexivity |].
  apply (json_get_string_fits
           ("{" +:+ jstr "status" +:+ ":" +:+ jstr "success" +:+ "}") "status" 4 "suc");
    [lia | reflexivity].
Defined.

(** X6.  The client's two field scanners read back what the server's JSON
    encoder wrote for a success: the status, the whole [page_data] text and
    the [page_lsn]. *)
Theorem client_reads_success_reply (page_data_b64 : string) (lsn : Z) :
  b64_text page_data_b64 → page_data_b64 ≠ "" →
  strlen page_data_b64 < MAX_RESPONSE_SIZE →
  0 < lsn < 2 ^ 64 →
  let json :=
    encode_GetPageResponse (mkGetPageResponse "success" page_data_b64 lsn "") in
  json_get_string json "status" 64 = Some "success" ∧
  json_get_string json "page_data" MAX_RESPONSE_SIZE = Some page_data_b64 ∧
  json_get_uint64 json "page_lsn" = Some lsn.
Proof. apply reads_success_reply. Qed.

Lemma client_reads_success_reply_witness :
  let json := encode_GetPageResponse (mkGetPageResponse "success" "ChQe" 7 "") in
  b64_text "ChQe" ∧ strlen "ChQe" < MAX_RESPONSE_SIZE ∧ 0 < 7 < 2 ^ 64 ∧
  json_get_string json "status" 64 = Some "success" ∧
  json_get_string json "page_data" MAX_RESPONSE_SIZE = Some "ChQe" ∧
  json_get_uint64 json "page_lsn" = Some 7.
Proof.
  assert (H : b64_text "ChQe") by (repeat constructor).
  split; [exact H |]. split; [reflexivity |]. split; [lia |].
  apply (client_reads_success_reply "ChQe" 7);
    [exact H | discriminate | reflexivity | lia].
Defined.

(** X7.  [parse_address] splits the address at its first colon.  The host
    it stores is the text before the colon.  The port it stores is what
    [atoi] makes of the text after it, narrowed to 32 bits, or 8080 when
    that is 0 (no digits, the number 0, or a multiple of 2^32 within the
    range of [long]); so the port stored is never 0.  A number beyond
    [LONG_MAX] is read as [LONG_MAX] and stored as 4294967295.  The call
    does no network I/O. *)
Theorem parse_address_splits_at_first_colon
    (host port_text : string) (s : State) :
  colon_free host →
  malloc_result (world s) (mallocs (world s)) = true →
  ∃ port s',
    parse_address (host +:+ String ":" port_text) s = Some (Some (host, port), s') ∧
    port = (if wrap32 (strtol port_text) =? 0 then 8080
            else wrap32 (strtol port_text)) ∧
    0 < port < 2 ^ 32 ∧
    (2 ^ 63 ≤ digits_value port_text 0 → port = 4294967295) ∧
    trace (world s') = trace (world s).
Proof.
  intros Hc Hm.
  destruct (parse_address_split host port_text s Hc Hm)
    as (port & s' & Hrun & Hport & Hrange & _ & Ht).
  exists port, s'. unfold atoi_uint in Hport.
  split; [exact Hrun |]. split; [exact Hport |]. split; [exact Hrange |].
  split; [| exact Ht].
  intros Hbig. rewrite Hport. unfold strtol, number_start.
  destruct port_text as [| c rest]; [simpl in Hbig; lia |].
  assert (Hd : isdigit c = true).
  { destruct (isdigit c) eqn:Hd; [reflexivity |].
    cbn [digits_value] in Hbig. rewrite Hd in Hbig. lia. }
  cbn [skip_while].
  destruct c as [[] [] [] [] [] [] [] []]; vm_compute in Hd; try discriminate Hd;
    match goal with
    | |- context [isspace ?a] => change (isspace a) with false
    end; cbv iota; rewrite Z.min_r by lia; reflexivity.
Qed.

Lemma colon_free_localhost : colon_free "localhost".
Proof.
  unfold colon_free. simpl. intros H.
  repeat (destruct H as [H | H]; [discriminate H |]). exact H.
Qed.

(** The port text 9223372036854775808, one above [LONG_MAX]. *)
Lemma parse_address_splits_at_first_colon_witness :
  let port_text := "9223372036854775808" in
  colon_free "localhost" ∧
  malloc_result (world (served_by "")) (mallocs (world (served_by ""))) = true ∧
  2 ^ 63 ≤ digits_value port_text 0 ∧
  ∃ port s',
    parse_address ("localhost" +:+ String ":" port_text) (served_by "")
      = Some (Some ("localhost", port), s') ∧
    port = (if wrap32 (strtol port_text) =? 0 then 8080
            else wrap32 (strtol port_text)) ∧
    0 < port < 2 ^ 32 ∧
    (2 ^ 63 ≤ digits_value port_text 0 → port = 4294967295) ∧
    trace (world s') = trace (world (served_by "")).
Proof.
  split; [exact colon_free_localhost |]. split; [reflexivity |].
  split; [vm_compute; discriminate |].
  apply (parse_address_splits_at_first_colon
           "localhost" "9223372036854775808" (served_by ""));
    [exact colon_free_localhost | reflexivity].
Defined.

(** X8.  An address written as [host:port] with a port between 1 and
    [2^32 - 1] is read back as exactly that host and that port. *)
Theorem parse_address_round_trip (host : string) (port : Z) (s : State) :
  colon_free host → 0 < port < 2 ^ 32 →
  malloc_result (world s) (mallocs (world s)) = true →
  ∃ s',
    parse_address (host +:+ ":" +:+ fmt_u port) s = Some (Some (host, port), s') ∧
    glob s' = glob s ∧ trace (world s') = trace (world s).
Proof.
  intros Hc Hp Hm.
  destruct (parse_address_split host (fmt_u port) s Hc Hm)
    as (p & s' & Hrun & -> & _ & Hg & Ht).
  exists s'. split; [| auto].
  change (":" +:+ fmt_u port) with (String ":" (fmt_u port)). rewrite Hrun.
  assert (Ha : atoi_uint (fmt_u port) = port).
  { rewrite <- (append_nil_r (fmt_u port)). apply atoi_fmt_u; [lia | exact I]. }
  rewrite Ha. destruct (port =? 0) eqn:E; [lia | reflexivity].
Qed.

Lemma parse_address_round_trip_witness :
  colon_free "localhost" ∧ 0 < 8081 < 2 ^ 32 ∧
  ∃ s',
    parse_address ("localhost" +:+ ":" +:+ fmt_u 8081) (served_by "")
      = Some (Some ("localhost", 8081), s') ∧
    glob s' = glob (served_by "") ∧ trace (world s') = trace (world (served_by "")).
Proof.
  split; [exact colon_free_localhost |]. split; [lia |].
  apply (parse_address_round_trip "localhost" 8081 (served_by ""));
    [exact colon_free_localhost | lia | reflexivity].
Defined.

(** X9.  An address without a colon is a host name, and the port is
    8080. *)
Theorem parse_address_default_port (address : string) (s : State) :
  colon_free address →
  malloc_result (world s) (mallocs (world s)) = true →
  ∃ s', parse_address address s = Some (Some (address, 8080), s').
Proof.
  intros Hc Hm. destruct (parse_address_value address s Hm) as (s' & Hp & _).
  rewrite strchr_none in Hp by exact Hc. eauto.
Qed.

Lemma parse_address_default_port_witness :
  colon_free "localhost" ∧
  ∃ s', parse_address "localhost" (served_by "") = Some (Some ("localhost", 8080), s').
Proof.
  split; [exact colon_free_localhost |].
  apply (parse_address_default_port "localhost" (served_by ""));
    [exact colon_free_localhost | reflexivity].
Defined.

End TextFacts.

(** ** The request loop against a server that answers *)

Module ExchangeFacts.

Import PageServer PageServerClient Observe Scenario Base64Facts ClientLogic
  ClientLogicFacts CodecFacts TextFacts.

(** A healthy environment stays healthy. *)
Lemma steps_answers s s' evs reply :
  steps s s' evs → answers (world s) reply → answers (world s') reply.
Proof.
  intros [(A1 & A2 & A3 & A4 & _) _] (U1 & U2 & U3 & U4).
  repeat split; intros k; rewrite ?A1, ?A2, ?A3, ?A4; auto.
Qed.

Lemma recv_count_app evs1 evs2 :
  recv_count (evs1 ++ evs2) = (recv_count evs1 + recv_count evs2)%nat.
Proof. unfold recv_count. by rewrite List.filter_app, length_app. Qed.

(** The rules of the program logic in a healthy environment: every call
    has one outcome. *)
Lemma runs_my_malloc_ok reply s (Q : bool → State → list event → Prop) :
  answers (world s) reply →
  (∀ s', glob s' = glob s → steps s s' [] → Q true s' []) →
  runs my_malloc s Q.
Proof.
  intros (_ & _ & _ & Hm) HQ. eexists _, _. split; [reflexivity |]. exists [].
  rewrite Hm.
  split; [| apply HQ; [reflexivity |]];
    (split; [repeat split | simpl; by rewrite app_nil_r]).
Qed.

Lemma runs_http_connect_ok reply host port s (Q : Z → State → list event → Prop) :
  answers (world s) reply →
  (∀ fd s', 0 ≤ fd → glob s' = glob s → steps s s' [EvConnect host port fd] →
            Q fd s' [EvConnect host port fd]) →
  runs (http_connect host port) s Q.
Proof.
  intros (Hc & _) HQ. eexists _, _. split; [reflexivity |]. eexists.
  specialize (Hc (connects (world s))).
  assert (E : (connect_result (world s) (connects (world s)) <? 0) = false) by lia.
  rewrite E.
  split; [| apply HQ; [exact Hc | reflexivity |]];
    (split; [repeat split | reflexivity]).
Qed.

Lemma runs_send_ok reply fd request len s
    (Q : bool → State → list event → Prop) :
  answers (world s) reply →
  (∀ s', glob s' = glob s → steps s s' [EvSend fd request len true] →
         Q true s' [EvSend fd request len true]) →
  runs (send fd request len) s Q.
Proof.
  intros (_ & Hs & _) HQ. eexists _, _. split; [reflexivity |]. eexists.
  rewrite Hs.
  split; [| apply HQ; [reflexivity |]];
    (split; [repeat split | reflexivity]).
Qed.

Lemma runs_recv_ok reply fd s (Q : string → State → list event → Prop) :
  answers (world s) reply → strlen reply ≤ 4095 →
  (∀ s', glob s' = glob s → steps s s' [EvRecv fd (strlen reply)] →
         Q reply s' [EvRecv fd (strlen reply)]) →
  runs (recv fd (4096 - 1)) s Q.
Proof.
  intros (_ & _ & Hr & _) Hlen HQ.
  assert (Hsub : substring 0 (Z.to_nat (4096 - 1)) reply = reply)
    by (apply substring_all; unfold strlen in Hlen; lia).
  eexists _, _. split; [reflexivity |]. eexists.
  rewrite Hr, Hsub.
  split; [| apply HQ; [reflexivity |]];
    (split; [repeat split | reflexivity]).
Qed.

#[local] Arguments build_request : simpl never.
#[local] Arguments backoff : simpl never.
#[local] Arguments is_http_200 : simpl never.
#[local] Arguments c_str : simpl never.
#[local] Arguments Z.to_nat : simpl never.
#[local] Arguments Z.sub : simpl never.
#[local] Arguments Z.add : simpl never.
#[local] Arguments strstr : simpl never.
#[local] Arguments String.append : simpl never.

(** The read loop ends after the first chunk when that chunk holds the end
    of the header. *)
Lemma recv_loop_one_chunk reply fuel fd rs rc s :
  answers (world s) reply → one_chunk reply rs →
  runs (recv_loop (S fuel) fd "" 0 rs rc) s
    (λ res s' evs, res = (reply, strlen reply, rc) ∧ glob s' = glob s ∧
                   evs = [EvRecv fd (strlen reply)]).
Proof.
  intros Ha (Hlen & Hfit & Hrs & [pos Hblank]).
  cbn [recv_loop]. unfold wrap64. rewrite (Z.mod_small (rs - 1)) by lia.
  destruct (0 <? rs - 1) eqn:E; [| lia].
  run_step. apply (runs_recv_ok reply); [done | lia |]. intros s' Hg Hst.
  destruct (strlen reply <=? 0) eqn:E1; [lia |].
  destruct (rs - 1 <=? 0 + strlen reply) eqn:E2; [lia |].
  change ("" +:+ reply) with reply. rewrite Hblank.
  run_step. rewrite app_nil_r. auto.
Qed.

Ltac answering reply := eauto 10 using steps_answers.

Ltac ok_step reply :=
  lazymatch goal with
  | |- runs my_malloc _ _ =>
      apply (runs_my_malloc_ok reply); [answering reply |];
      let s := fresh "s" in intros s ? ?
  | |- runs (http_connect _ _) _ _ =>
      apply (runs_http_connect_ok reply); [answering reply |];
      let fd := fresh "fd" in let s := fresh "s" in intros fd s ? ? ?
  | |- runs (send _ _ _) _ _ =>
      apply (runs_send_ok reply); [answering reply |];
      let s := fresh "s" in intros s ? ?
  | |- _ => run_step
  end; cbv beta.

Ltac count_all :=
  rewrite ?connect_count_app, ?send_count_app, ?recv_count_app, ?sleeps_app;
  unfold connect_count, send_count, recv_count, sleeps in *; simpl;
  rewrite ?app_nil_r, ?Nat.add_0_r.

(** One exchange that ends in a 200. *)
Lemma http_exchange_ok reply continue retry fd rc method path body response rs s :
  answers (world s) reply → one_chunk reply rs →
  is_http_200 (c_str reply) = true →
  runs (http_exchange continue retry fd rc method path body response rs) s
    (exchanged reply s).
Proof.
  intros Ha Hone H200. pose proof Hone as (Hlen & Hfit & Hrs & _).
  unfold http_exchange.
  ok_step reply. ok_step reply. simpl negb. cbv iota.
  ok_step reply. ok_step reply. ok_step reply. ok_step reply.
  simpl negb. cbv iota. ok_step reply.
  replace (Z.to_nat rs) with (S (Z.to_nat (rs - 1))) by lia.
  eapply runs_weaken; [apply (recv_loop_one_chunk reply); [answering reply | done] |].
  intros res s' evs Hst (-> & Hg & ->). cbv beta iota zeta.
  destruct (0 <? strlen reply) eqn:E; [| lia]. rewrite H200. simpl andb. cbv iota.
  run_step. unfold exchanged. count_all.
  repeat split; try reflexivity. congruence.
Qed.

(** The loop returns from its first iteration. *)
Lemma http_request_loop_ok reply fuel retry sockfd rc method path body response rs s :
  answers (world s) reply → one_chunk reply rs →
  is_http_200 (c_str reply) = true → retry ≤ MAX_RETRIES →
  (rc || (sockfd <? 0) = false → page_server_socket (glob s) = sockfd) →
  runs (http_request_loop (S fuel) retry sockfd rc method path body response rs) s
    (first_try reply rc sockfd s).
Proof.
  intros Ha Hone H200 Hretry Hsock. cbn [http_request_loop].
  destruct (retry <=? MAX_RETRIES) eqn:E; [| lia].
  destruct (rc || (sockfd <? 0)) eqn:Hrc.
  - repeat ok_step reply; try lia.
    all: eapply runs_weaken;
      [apply (http_exchange_ok reply); [answering reply | done | done] |];
      intros res s' evs Hst (-> & Hg & Hc & Hs & Hr & Hz);
      unfold first_try; count_all; rewrite Hc, Hs, Hr, Hz, Hg;
      repeat match goal with H : glob _ = _ |- _ => rewrite H; clear H end;
      repeat split; simpl; first [done | lia | by rewrite Hrc].
  - eapply runs_weaken; [apply (http_exchange_ok reply); [answering reply | done | done] |].
    intros res s' evs Hst (-> & Hg & Hc & Hs & Hr & Hz).
    unfold first_try. rewrite Hc, Hs, Hr, Hz, Hg, Hrc, Hsock by done.
    apply orb_false_iff in Hrc as [_ Hfd].
    repeat split; first [done | lia].
Qed.

(** From the program logic back to the function's value. *)
Lemma runs_elim {A} (m : M A) s (Q : A → State → list event → Prop) :
  runs m s Q →
  ∃ a s' evs, m s = Some (a, s') ∧ trace (world s') = (trace (world s) ++ evs)%list ∧
              Q a s' evs.
Proof.
  intros (a & s' & Hm & evs & [_ Ht] & HQ). eauto 10.
Qed.

Lemma http_request_first_try method path body rs reply s :
  answers (world s) reply → one_chunk reply rs →
  is_http_200 (c_str reply) = true →
  runs (http_request method path body rs) s (answered reply s).
Proof.
  intros Ha Hone H200.
  unfold http_request. run_step. run_step.
  change (Z.to_nat (MAX_RETRIES + 1)) with 3%nat.
  eapply runs_weaken;
    [apply (http_request_loop_ok reply); [done | done | done | unfold MAX_RETRIES; lia | done] |].
  intros res s' evs _ (-> & Hcfg & Hsock & Hc & Hs & Hr & Hz). rewrite app_nil_l.
  unfold answered. rewrite Hc, Hs, Hr, Hz. repeat split; try done; try apply Hcfg.
  unfold cached.
  destruct (page_server_socket (glob s) <? 0),
    (bool_decide (page_server_host (glob s) = None)); reflexivity.
Qed.



(** One exchange that ends in a reply other than a 200, and what follows
    it. *)
Lemma http_exchange_rejected reply continue retry fd rc method path body response rs s :
  answers (world s) reply → one_chunk reply rs →
  is_http_200 (c_str reply) = false → 0 ≤ retry ≤ MAX_RETRIES → 0 ≤ fd →
  (retry < MAX_RETRIES → ∀ s', answers (world s') reply →
     runs (continue fd true (c_str reply)) s' (rejected reply (retry + 1) true fd s')) →
  (retry = MAX_RETRIES → ∀ s', 
     runs (continue fd rc (c_str reply)) s'
       (λ res s'' evs, res = (DB_ERROR, c_str reply) ∧ glob s'' = glob s' ∧ evs = [])) →
  runs (http_exchange continue retry fd rc method path body response rs) s
    (λ res s' evs,
       res = (DB_ERROR, c_str reply) ∧ same_config (glob s) (glob s') ∧
       connect_count evs = Z.to_nat (MAX_RETRIES - retry) ∧
       send_count evs = Z.to_nat (MAX_RETRIES + 1 - retry) ∧
       recv_count evs = Z.to_nat (MAX_RETRIES + 1 - retry) ∧
       sleeps evs = schedule retry).
Proof.
  intros Ha Hone H200 Hretry Hfd Hnext Hlast.
  pose proof Hone as (Hlen & Hfit & Hrs & _).
  unfold http_exchange.
  ok_step reply. ok_step reply. simpl negb. cbv iota.
  ok_step reply. ok_step reply. ok_step reply. ok_step reply.
  simpl negb. cbv iota. ok_step reply.
  replace (Z.to_nat rs) with (S (Z.to_nat (rs - 1))) by lia.
  eapply runs_weaken; [apply (recv_loop_one_chunk reply); [answering reply | done] |].
  intros res s' evs Hst (-> & Hg & ->). cbv beta iota zeta.
  destruct (0 <? strlen reply) eqn:E; [| lia]. rewrite H200. simpl andb. cbv iota.
  destruct (retry <? MAX_RETRIES) eqn:Hlt.
  - ok_step reply. ok_step reply.
    eapply runs_weaken; [apply Hnext; [lia | answering reply] |].
    intros res s'' evs Hst' (-> & Hcfg & Hc & Hs & Hr & Hz).
    assert (E1 : (fd <? 0) = false) by lia. rewrite E1 in Hc. simpl orb in Hc.
    count_all. rewrite Hc, Hs, Hr, Hz, (schedule_next retry) by lia.
    split; [done |].
    split; [eapply same_config_trans; [| exact Hcfg]; 
            repeat match goal with H : glob _ = _ |- _ => rewrite H; clear H end;
            apply same_config_refl |].
    unfold MAX_RETRIES in *. repeat split; lia.
  - eapply runs_weaken; [apply Hlast; lia |].
    intros res s'' evs Hst' (-> & Hg' & ->).
    count_all. rewrite (schedule_done retry) by lia.
    split; [done |].
    split; [repeat match goal with H : glob _ = _ |- _ => rewrite H; clear H end;
            apply same_config_refl |].
    unfold MAX_RETRIES in *. repeat split; lia.
Qed.

(** The loop runs all its iterations. *)
Lemma http_request_loop_rejected reply (fuel : nat) :
  ∀ retry sockfd rc method path body response rs s,
    answers (world s) reply → one_chunk reply rs →
    is_http_200 (c_str reply) = false → 0 ≤ retry ≤ MAX_RETRIES →
    MAX_RETRIES + 1 - retry ≤ Z.of_nat fuel →
    runs (http_request_loop fuel retry sockfd rc method path body response rs) s
      (rejected reply retry rc sockfd s).
Proof.
  induction fuel as [| fuel IH];
    intros retry sockfd rc method path body response rs s Ha Hone H200 Hretry Hfuel.
  { unfold MAX_RETRIES in *. lia. }
  cbn [http_request_loop].
  destruct (retry <=? MAX_RETRIES) eqn:Hle; [| lia].
  assert (Hlast : retry = MAX_RETRIES → ∀ fd rc' resp s',
            runs (http_request_loop fuel (retry + 1) fd rc' method path body resp rs) s'
              (λ res s'' evs, res = (DB_ERROR, resp) ∧ glob s'' = glob s' ∧ evs = [])).
  { intros -> fd rc' resp s'. destruct fuel; cbn [http_request_loop];
      (destruct (MAX_RETRIES + 1 <=? MAX_RETRIES) eqn:E; [unfold MAX_RETRIES in E; lia |]);
      run_step; auto. }
  assert (Hnext : retry < MAX_RETRIES → ∀ fd s', answers (world s') reply →
            runs (http_request_loop fuel (retry + 1) fd true method path body
                    (c_str reply) rs) s' (rejected reply (retry + 1) true fd s')).
  { intros Hlt fd s' Ha'. apply IH; try done; lia. }
  destruct (rc || (sockfd <? 0)) eqn:Hrc.
  - repeat ok_step reply; try lia.
    all: eapply runs_weaken;
      [apply (http_exchange_rejected reply);
       [answering reply | done | done | done | lia | intros; apply Hnext; done
       | intros; apply Hlast; done] |];
      intros res s' evs Hst (-> & Hcfg & Hc & Hs & Hr & Hz);
      unfold rejected; count_all; rewrite Hc, Hs, Hr, Hz, Hrc;
      (split; [done |]);
      (split; [eapply same_config_trans; [| exact Hcfg];
               repeat match goal with H : glob _ = _ |- _ => rewrite H; clear H end;
               apply same_config_set_socket |]);
      repeat split; lia.
  - apply orb_false_iff in Hrc as [Hrc Hfd].
    eapply runs_weaken;
      [apply (http_exchange_rejected reply);
       [answering reply | done | done | done | lia | intros; apply Hnext; done
       | intros; apply Hlast; done] |].
    intros res s' evs Hst (-> & Hcfg & Hc & Hs & Hr & Hz).
    unfold rejected. rewrite Hc, Hs, Hr, Hz, Hrc, Hfd. repeat split; try apply Hcfg.
Qed.

Lemma http_request_rejected method path body rs reply s :
  answers (world s) reply → one_chunk reply rs →
  is_http_200 (c_str reply) = false →
  runs (http_request method path body rs) s (refused reply s).
Proof.
  intros Ha Hone H200.
  unfold http_request. run_step. run_step.
  eapply runs_weaken;
    [apply (http_request_loop_rejected reply); try done; unfold MAX_RETRIES; simpl; lia |].
  intros res s' evs _ (-> & Hcfg & Hc & Hs & Hr & Hz). rewrite app_nil_l.
  unfold refused. rewrite Hc, Hs, Hr, Hz. repeat split; try done; try apply Hcfg.
  unfold cached.
  destruct (page_server_socket (glob s) <? 0),
    (bool_decide (page_server_host (glob s) = None)); reflexivity.
Qed.

Lemma serving_world_answers reply : answers (serving_world reply) reply.
Proof. repeat split; intros k; simpl; first [lia | reflexivity]. Qed.

Ltac one_chunk_now :=
  unfold one_chunk; repeat split; vm_compute;
  first [reflexivity | discriminate | (eexists; reflexivity)].

(** X10.  When the server answers, a request is one exchange: a connection
    is made only if none is cached (afterwards one is), the request is sent
    once, the reply is read with a single [recv] (the loop stops at the
    first chunk that holds the blank line after the header), nothing sleeps,
    and the caller gets [DB_SUCCESS] with the reply in its buffer. *)
Theorem http_request_healthy_first_try method path body rs reply s :
  answers (world s) reply → one_chunk reply rs →
  is_http_200 (c_str reply) = true →
  ∃ s' evs,
    http_request method path body rs s = Some ((DB_SUCCESS, c_str reply), s') ∧
    trace (world s') = (trace (world s) ++ evs)%list ∧
    same_config (glob s) (glob s') ∧ 0 ≤ page_server_socket (glob s') ∧
    connect_count evs = (if cached (glob s) then 0%nat else 1%nat) ∧
    send_count evs = 1%nat ∧ recv_count evs = 1%nat ∧ sleeps evs = [].
Proof.
  intros Ha Hone H200.
  pose proof (http_request_first_try method path body rs reply s Ha Hone H200) as R.
  apply runs_elim in R as (a & s' & evs & Hm & Ht & -> & Hpost).
  exists s', evs. auto.
Qed.

Lemma http_request_healthy_first_try_witness :
  let reply := http_ok "{}" in
  let s := served_by reply in
  answers (world s) reply ∧ one_chunk reply 1024 ∧
  is_http_200 (c_str reply) = true ∧
  ∃ s' evs,
    http_request "GET" "/api/v1/ping" None 1024 s
      = Some ((DB_SUCCESS, c_str reply), s') ∧
    trace (world s') = (trace (world s) ++ evs)%list ∧
    same_config (glob s) (glob s') ∧ 0 ≤ page_server_socket (glob s') ∧
    connect_count evs = (if cached (glob s) then 0%nat else 1%nat) ∧
    send_count evs = 1%nat ∧ recv_count evs = 1%nat ∧ sleeps evs = [].
Proof.
  intros reply s.
  split; [apply serving_world_answers |]. split; [one_chunk_now |].
  split; [reflexivity |].
  apply (http_request_healthy_first_try "GET" "/api/v1/ping" None 1024 reply s);
    [apply serving_world_answers | one_chunk_now | reflexivity].
Defined.

(** X11.  A reply that is complete but is not a 200 (a 404, say) is treated
    like a network failure: the request is sent three times, each time but
    the first on a new connection, with the delays of 100 ms and 200 ms in
    between, and the caller gets [DB_ERROR]. *)
Theorem http_request_retries_rejected_reply method path body rs reply s :
  answers (world s) reply → one_chunk reply rs →
  is_http_200 (c_str reply) = false →
  ∃ s' evs,
    http_request method path body rs s = Some ((DB_ERROR, c_str reply), s') ∧
    trace (world s') = (trace (world s) ++ evs)%list ∧
    same_config (glob s) (glob s') ∧
    connect_count evs = (if cached (glob s) then 2%nat else 3%nat) ∧
    send_count evs = 3%nat ∧ recv_count evs = 3%nat ∧
    sleeps evs = [100000; 200000].
Proof.
  intros Ha Hone H200.
  pose proof (http_request_rejected method path body rs reply s Ha Hone H200) as R.
  apply runs_elim in R as (a & s' & evs & Hm & Ht & -> & Hpost).
  exists s', evs. auto.
Qed.

Lemma http_request_retries_rejected_reply_witness :
  let reply := wire (handleGetPage (get_page_request 1 43 7) one_page_server).1 in
  let s := served_by reply in
  answers (world s) reply ∧ one_chunk reply MAX_RESPONSE_SIZE ∧
  is_http_200 (c_str reply) = false ∧
  ∃ s' evs,
    http_request "POST" "/api/v1/get_page" None MAX_RESPONSE_SIZE s
      = Some ((DB_ERROR, c_str reply), s') ∧
    trace (world s') = (trace (world s) ++ evs)%list ∧
    same_config (glob s) (glob s') ∧
    connect_count evs = (if cached (glob s) then 2%nat else 3%nat) ∧
    send_count evs = 3%nat ∧ recv_count evs = 3%nat ∧
    sleeps evs = [100000; 200000].
Proof.
  intros reply s.
  split; [apply serving_world_answers |]. split; [one_chunk_now |].
  split; [reflexivity |].
  apply (http_request_retries_rejected_reply "POST" "/api/v1/get_page" None
           MAX_RESPONSE_SIZE reply s);
    [apply serving_world_answers | one_chunk_now | reflexivity].
Defined.

End ExchangeFacts.

(** ** Page reads *)

Module ReadFacts.

Import PageServer PageServerClient Observe Scenario Base64Facts ClientLogic
  ClientLogicFacts CodecFacts TextFacts ExchangeFacts.

#[local] Arguments build_request : simpl never.
#[local] Arguments backoff : simpl never.
#[local] Arguments is_http_200 : simpl never.
#[local] Arguments c_str : simpl never.
#[local] Arguments Z.to_nat : simpl never.
#[local] Arguments Z.sub : simpl never.
#[local] Arguments Z.add : simpl never.
#[local] Arguments strstr : simpl never.
#[local] Arguments String.append : simpl never.
#[local] Arguments http_request : simpl never.
#[local] Arguments base64_encode : simpl never.
#[local] Arguments base64_decode : simpl never.
#[local] Arguments snprintf : simpl never.
#[local] Arguments extract_json_body : simpl never.
#[local] Arguments json_get_string : simpl never.
#[local] Arguments json_get_uint64 : simpl never.

(** [rpc_get_page] on a reply that carries a page. *)
Lemma rpc_get_page_delivers space_id page_no lsn page_size reply page_data_b64 s :
  answers (world s) reply → one_chunk reply MAX_RESPONSE_SIZE →
  is_http_200 (c_str reply) = true →
  let json := extract_json_body (c_str reply) in
  json_get_string json "status" 64 = Some "success" →
  json_get_string json "page_data" MAX_RESPONSE_SIZE = Some page_data_b64 →
  0 ≤ page_size → base64_decode page_data_b64 page_size ≠ [] →
  runs (rpc_get_page space_id page_no lsn page_size) s
    (delivered (base64_decode page_data_b64 page_size)
       (reported_lsn (world s) json lsn) s).
Proof.
  intros Ha Hone H200 json Hstatus Hdata Hsize Hbuf.
  unfold rpc_get_page.
  ok_step reply. ok_step reply. simpl negb. cbv iota.
  ok_step reply.
  eapply runs_weaken; [apply (http_request_first_try _ _ _ _ reply); [answering reply | done | done] |].
  intros res s1 evs1 Hst1 (-> & Hcfg & Hsock & Hc & Hs & Hr & Hz).
  cbv beta iota zeta. simpl negb. cbv iota.
  fold json. rewrite Hstatus.
  change (negb ("success" =? "success")%string) with false. cbv iota.
  ok_step reply. ok_step reply. simpl negb. cbv iota.
  rewrite Hdata.
  destruct (Z.of_nat (length (base64_decode page_data_b64 page_size)) =? 0) eqn:E0.
  { apply Z.eqb_eq in E0. destruct (base64_decode page_data_b64 page_size); [done | simpl in E0; lia]. }
  rewrite oversize_test_never_fires by done. simpl orb. cbv iota.
  run_step. run_step.
  assert (Hfree : freed_intact (world s2) = freed_intact (world s)).
  { repeat match goal with H : steps _ _ _ |- _ => destruct H as [(_ & _ & _ & _ & ?) _] end.
    congruence. }
  rewrite Hfree. unfold reported_lsn.
  destruct (if freed_intact (world s) then json_get_uint64 json "page_lsn" else None)
    as [resp_lsn |]; run_step;
    unfold delivered; rewrite ?app_nil_r, ?app_nil_l;
    rewrite Hc, Hs, Hr, Hz;
    repeat match goal with H : glob _ = _ |- _ => rewrite H in *; clear H end;
    repeat split; first [done | apply Hcfg].
Qed.

(** Where the reply's [page_lsn] is the caller's [lsn] or is missing, the
    page LSN reported does not depend on the allocator. *)
Lemma reported_lsn_same w json lsn :
  default lsn (json_get_uint64 json "page_lsn") = lsn → reported_lsn w json lsn = lsn.
Proof. unfold reported_lsn. by destruct (freed_intact w). Qed.

(** The same for [get_page] of an enabled client. *)
Lemma get_page_delivers space_id page_no lsn page_size reply page_data_b64 s :
  page_server_enabled (glob s) = true → page_server_initialized (glob s) = true →
  answers (world s) reply → one_chunk reply MAX_RESPONSE_SIZE →
  is_http_200 (c_str reply) = true →
  let json := extract_json_body (c_str reply) in
  json_get_string json "status" 64 = Some "success" →
  json_get_string json "page_data" MAX_RESPONSE_SIZE = Some page_data_b64 →
  0 ≤ page_size → base64_decode page_data_b64 page_size ≠ [] →
  runs (get_page space_id page_no lsn page_size) s
    (delivered (base64_decode page_data_b64 page_size)
       (reported_lsn (world s) json lsn) s).
Proof.
  intros Hen Hinit Ha Hone H200 json Hstatus Hdata Hsize Hbuf.
  unfold get_page, is_enabled.
  run_step. run_step. run_step. run_step. rewrite Hen, Hinit. simpl negb. cbv iota.
  run_step.
  eapply runs_weaken;
    [apply (rpc_get_page_delivers _ _ _ _ reply page_data_b64); done |].
  intros res s1 evs1 Hst1 (-> & Hcfg & Hsock & Hc & Hs & Hr & Hz).
  cbv beta iota zeta. simpl negb. cbv iota.
  run_step. run_step. run_step.
  unfold delivered. rewrite !app_nil_r, !app_nil_l. auto 10.
Qed.

(** ** Strings without NUL, and the reply on the wire *)

(** [c_str] on text without NUL. *)
Lemma c_str_cons c rest :
  (code c =? 0) = false → c_str (String c rest) = String c (c_str rest).
Proof.
  intros H.
  change (c_str (String c rest)) with (if code c =? 0 then "" else String c (c_str rest)).
  by rewrite H.
Qed.

Lemma c_str_plain v rest : plain v → c_str (v +:+ rest) = v +:+ c_str rest.
Proof.
  induction v as [| c v IH]; intros Hp; [reflexivity |].
  unfold plain in Hp. simpl in Hp. apply Forall_cons in Hp as [Hc Hp].
  unfold plain_char in Hc. apply andb_true_iff in Hc as [_ Hc].
  apply negb_true_iff in Hc.
  rewrite !append_cons, c_str_cons by done. f_equal. by apply IH.
Qed.

Lemma isdigit_plain c : isdigit c = true → plain_char c = true.
Proof.
  destruct c as [[] [] [] [] [] [] [] []]; vm_compute; intros H;
    first [reflexivity | discriminate H].
Qed.

Lemma plain_fmt_u n : plain (fmt_u n).
Proof.
  unfold plain. apply Forall_forall. intros c Hc.
  apply isdigit_plain, (fmt_u_digits n). by apply list_elem_of_In.
Qed.

Lemma b64_char_text k : 0 ≤ k < 64 → b64_text_char (b64_char k) = true.
Proof.
  intros Hk. destruct (alphabet k Hk) as [Hi _].
  unfold b64_text_char. rewrite Hi. reflexivity.
Qed.

(** What the server's encoder writes is base64 text. *)
Lemma EncodeToString_b64_text data : b64_text (EncodeToString data).
Proof.
  induction data as [data IH] using (induction_ltof1 _ (@length byte)).
  unfold ltof in IH. unfold b64_text in *.
  destruct data as [| b0 [| b1 [| b2 rest]]]; cbn [EncodeToString]; cbv zeta;
    cbn [list_ascii_of_string].
  - constructor.
  - repeat (constructor; [first [apply b64_char_text, sextet_range | reflexivity] |]).
    constructor.
  - repeat (constructor; [first [apply b64_char_text, sextet_range | reflexivity] |]).
    constructor.
  - repeat (constructor; [apply b64_char_text, sextet_range |]).
    apply IH. simpl. lia.
Qed.

Lemma EncodeToString_nonempty data : data ≠ [] → EncodeToString data ≠ "".
Proof. destruct data as [| b0 [| b1 [| b2 rest]]]; [done | ..]; intros _; discriminate. Qed.

Lemma drop_four a b c d t :
  substring 4 (String.length (String a (String b (String c (String d t)))))
    (String a (String b (String c (String d t)))) = t.
Proof. cbn [substring String.length]. apply substring_all. lia. Qed.

Lemma c_str_nul_free s : nul_free s → c_str s = s.
Proof.
  unfold nul_free. induction s as [| c s IH]; [reflexivity |].
  simpl. intros H. apply Forall_cons in H as [Hc H].
  rewrite c_str_cons by done. f_equal. by apply IH.
Qed.

Lemma nul_free_app a b : nul_free a → nul_free b → nul_free (a +:+ b).
Proof.
  unfold nul_free. induction a as [| c a IH]; [done |].
  rewrite append_cons. simpl. intros Ha Hb. apply Forall_cons in Ha as [Hc Ha].
  constructor; [done | by apply IH].
Qed.

Lemma nul_free_cons c a : (code c =? 0) = false → nul_free a → nul_free (String c a).
Proof. unfold nul_free. simpl. by constructor. Qed.

Lemma plain_nul_free v : plain v → nul_free v.
Proof.
  unfold plain, nul_free. intros H. eapply Forall_impl; [exact H |]. intros c Hc.
  unfold plain_char in Hc. apply andb_true_iff in Hc as [_ Hc].
  by apply negb_true_iff in Hc.
Qed.

Ltac nul_free_now :=
  repeat first
    [ assumption
    | apply plain_nul_free; first [assumption | apply plain_fmt_u]
    | apply nul_free_cons; [reflexivity |]
    | apply nul_free_app
    | constructor ].

Lemma strlen_append a b : strlen (a +:+ b) = strlen a + strlen b.
Proof. unfold strlen. rewrite length_append. lia. Qed.

Lemma json_copy_value_open v :
  ∀ i value_len,
    plain v → i + strlen v ≤ wrap64 (value_len - 1) →
    json_copy_value v i value_len = v.
Proof.
  induction v as [| c v IH]; intros i n Hp Hlen; [reflexivity |].
  unfold plain in Hp. simpl in Hp. apply Forall_cons in Hp as [Hc Hp].
  unfold plain_char in Hc. apply andb_true_iff in Hc as [Hc _].
  apply andb_true_iff in Hc as [Hq Hb].
  apply negb_true_iff in Hq, Hb.
  cbn [json_copy_value]. rewrite Hq, Hb.
  unfold strlen in *. cbn [String.length] in Hlen.
  destruct (i <? wrap64 (n - 1)) eqn:E; [| lia]. simpl.
  f_equal. apply IH; [exact Hp | lia].
Qed.

Lemma no_page_lsn_at_open_quote v :
  b64_text v → String.prefix (quoted "page_lsn") (String dquote v) = false.
Proof.
  intros Hv.
  destruct (String.prefix _ _) eqn:E; [exfalso | reflexivity].
  pose proof (λ k c, prefix_get _ _ k c E) as G. clear E.
  do 5 (destruct v as [| ? v];
        [ match goal with
          | |- _ => specialize (G 1%nat _ eq_refl); discriminate G
          | |- _ => specialize (G 2%nat _ eq_refl); discriminate G
          | |- _ => specialize (G 3%nat _ eq_refl); discriminate G
          | |- _ => specialize (G 4%nat _ eq_refl); discriminate G
          | |- _ => specialize (G 5%nat _ eq_refl); discriminate G
          end
        | apply b64_text_cons in Hv as [? Hv]]).
  specialize (G 5%nat _ eq_refl). simpl in G. injection G as ->.
  discriminate.
Qed.

Lemma strstr_plain_none v needle : plain v → strstr v (String dquote needle) = None.
Proof.
  intros Hp. rewrite <- (append_nil_r v). by rewrite strstr_skip_plain.
Qed.

(** What the client's scanners find in a reply cut inside [page_data]. *)
Lemma cut_reply_facts v :
  b64_text v → strlen v < MAX_RESPONSE_SIZE →
  let json := "{" +:+ jstr "status" +:+ ":" +:+ jstr "success" +:+ "," +:+
              jstr "page_data" +:+ ":" +:+ String dquote v in
  c_str (cut_reply v) = cut_reply v ∧ is_http_200 (cut_reply v) = true ∧
  is_Some (strstr (cut_reply v) (CRLF +:+ CRLF)) ∧
  strlen (cut_reply v) = 84 + strlen v ∧
  extract_json_body (cut_reply v) = json ∧
  json_get_string json "status" 64 = Some "success" ∧
  json_get_string json "page_data" MAX_RESPONSE_SIZE = Some v ∧
  json_get_uint64 json "page_lsn" = None.
Proof.
  intros Hb Hlen json.
  pose proof (b64_text_plain _ Hb) as Hp.
  assert (Hcut : cut_reply v = ("HTTP/1.1 200 OK" +:+ CRLF +:+
                                "Content-Type: application/json" +:+ CRLF +:+ CRLF)
                               +:+ json).
  { unfold cut_reply. subst json. rewrite ?append_assoc. reflexivity. }
  split; [| split; [| split; [| split; [| split; [| split; [| split]]]]]].
  - apply c_str_nul_free. unfold cut_reply, jstr, CRLF. normalize_append. nul_free_now.
  - rewrite Hcut. remember json as x. unfold is_http_200. eval_head strstr. reflexivity.
  - rewrite Hcut. subst json. unfold CRLF, jstr. normalize_append.
    repeat rewrite strstr_step by reflexivity.
    rewrite strstr_here by reflexivity. by eexists.
  - rewrite Hcut. subst json. rewrite !strlen_append. unfold jstr.
    change (String dquote v) with (String dquote "" +:+ v).
    rewrite !strlen_append. unfold strlen. simpl. lia.
  - rewrite Hcut. subst json. unfold extract_json_body, CRLF, jstr. normalize_append.
    repeat rewrite strstr_step by reflexivity.
    rewrite strstr_here by reflexivity. by rewrite drop_four.
  - subst json. remember v as x. reflexivity.
  - subst json. unfold json_get_string. remember v as x. 
    eval_head strstr. eval_head strchr. rewrite drop_first. simpl. subst x.
    apply f_equal, json_copy_value_open; [exact Hp |].
    change (wrap64 (MAX_RESPONSE_SIZE - 1)) with (MAX_RESPONSE_SIZE - 1). lia.
  - subst json. unfold json_get_uint64, jstr. normalize_append.
    repeat rewrite strstr_step by reflexivity.
    rewrite strstr_step by (apply no_page_lsn_at_open_quote, Hb).
    let q := eval vm_compute in (quoted "page_lsn") in
    change (quoted "page_lsn") with q.
    by rewrite strstr_plain_none.
Qed.

(** X12.  The success path of a page read, from the client's side: when the
    server answers with a 200 whose body has the status [success] and a
    [page_data] field that decodes to at least one byte, [get_page] returns
    [DB_SUCCESS] with the decoded bytes, at the cost of one request.  The
    page LSN it reports is looked up in the reply after the reply's block
    has been freed: it is the reply's [page_lsn] only if the allocator left
    the block as it was and the field is there, and the caller's own [lsn]
    otherwise.  So a reply whose [page_lsn] is the [lsn] asked for, or that
    has none, is reported with that [lsn] either way. *)
Theorem get_page_success_path
    space_id page_no lsn page_size reply page_data_b64 s :
  page_server_enabled (glob s) = true → page_server_initialized (glob s) = true →
  answers (world s) reply → one_chunk reply MAX_RESPONSE_SIZE →
  is_http_200 (c_str reply) = true →
  let json := extract_json_body (c_str reply) in
  json_get_string json "status" 64 = Some "success" →
  json_get_string json "page_data" MAX_RESPONSE_SIZE = Some page_data_b64 →
  0 ≤ page_size → base64_decode page_data_b64 page_size ≠ [] →
  ∃ page_lsn s' evs,
    get_page space_id page_no lsn page_size s
    = Some ((DB_SUCCESS, base64_decode page_data_b64 page_size, Some page_lsn), s') ∧
    page_lsn = (if freed_intact (world s)
                then default lsn (json_get_uint64 json "page_lsn") else lsn) ∧
    (default lsn (json_get_uint64 json "page_lsn") = lsn → page_lsn = lsn) ∧
    trace (world s') = (trace (world s) ++ evs)%list ∧
    same_config (glob s) (glob s') ∧ 0 ≤ page_server_socket (glob s') ∧
    connect_count evs = (if cached (glob s) then 0%nat else 1%nat) ∧
    send_count evs = 1%nat ∧ recv_count evs = 1%nat ∧ sleeps evs = [].
Proof.
  intros Hen Hinit Ha Hone H200 json Hstatus Hdata Hsize Hbuf.
  pose proof (get_page_delivers space_id page_no lsn page_size reply page_data_b64 s
                Hen Hinit Ha Hone H200 Hstatus Hdata Hsize Hbuf) as R.
  apply runs_elim in R as (a & s' & evs & Hm & Ht & -> & Hpost).
  fold json in Hm. exists (reported_lsn (world s) json lsn), s', evs.
  split; [exact Hm |]. unfold reported_lsn.
  split; [by destruct (freed_intact (world s)) |].
  split; [by intros E; destruct (freed_intact (world s)) |].
  auto.
Qed.

(** A reply that names LSN 3 to a read at LSN 7, with an allocator that
    wipes freed blocks: the read reports 7. *)
Lemma get_page_success_path_witness :
  let reply :=
    http_ok ("{" +:+ jstr "status" +:+ ":" +:+ jstr "success" +:+ "," +:+
             jstr "page_data" +:+ ":" +:+ jstr "QUJD" +:+ "," +:+
             jstr "page_lsn" +:+ ":3}") in
  let s := mkState enabled_globals (wiping_world reply) in
  let json := extract_json_body (c_str reply) in
  answers (world s) reply ∧ one_chunk reply MAX_RESPONSE_SIZE ∧
  is_http_200 (c_str reply) = true ∧
  json_get_string json "status" 64 = Some "success" ∧
  json_get_string json "page_data" MAX_RESPONSE_SIZE = Some "QUJD" ∧
  base64_decode "QUJD" 16 = [65; 66; 67] ∧
  json_get_uint64 json "page_lsn" = Some 3 ∧
  fst <$> get_page 1 42 7 16 s = Some (DB_SUCCESS, [65; 66; 67], Some 7) ∧
  ∃ page_lsn s' evs,
    get_page 1 42 7 16 s
    = Some ((DB_SUCCESS, base64_decode "QUJD" 16, Some page_lsn), s') ∧
    page_lsn = (if freed_intact (world s)
                then default 7 (json_get_uint64 json "page_lsn") else 7) ∧
    (default 7 (json_get_uint64 json "page_lsn") = 7 → page_lsn = 7) ∧
    trace (world s') = (trace (world s) ++ evs)%list ∧
    same_config (glob s) (glob s') ∧ 0 ≤ page_server_socket (glob s') ∧
    connect_count evs = (if cached (glob s) then 0%nat else 1%nat) ∧
    send_count evs = 1%nat ∧ recv_count evs = 1%nat ∧ sleeps evs = [].
Proof.
  intros reply s json.
  assert (Ha : answers (world s) reply)
    by (repeat split; intros k; simpl; first [lia | reflexivity]).
  split; [exact Ha |]. split; [one_chunk_now |].
  do 5 (split; [reflexivity |]). split; [vm_compute; reflexivity |].
  apply (get_page_success_path 1 42 7 16 reply "QUJD" s);
    first [ reflexivity | exact Ha | one_chunk_now | lia
          | (vm_compute; discriminate) ].
Defined.

(** Lengths of what the client cuts out of a buffer. *)
Lemma strstr_length hay needle :
  ∀ r, strstr hay needle = Some r → (String.length r ≤ String.length hay)%nat.
Proof.
  assert (Heq : ∀ h, strstr h needle =
                     if String.prefix needle h then Some h
                     else match h with
                          | EmptyString => None
                          | String _ rest => strstr rest needle
                          end) by (by intros []).
  induction hay as [| c hay IH]; intros r H; rewrite Heq in H.
  - destruct (String.prefix needle ""); [by injection H as <- | discriminate].
  - destruct (String.prefix needle (String c hay)); [by injection H as <- |].
    apply IH in H. cbn [String.length]. lia.
Qed.

Lemma substring_length_le s :
  ∀ a b, (String.length (substring a b s) ≤ String.length s)%nat.
Proof.
  induction s as [| c s IH]; intros a b; [by destruct a, b |].
  destruct a, b; cbn [substring String.length]; try lia.
  - specialize (IH 0%nat b). lia.
  - specialize (IH a 0%nat). lia.
  - specialize (IH a (S b)). lia.
Qed.

Lemma c_str_length s : strlen (c_str s) ≤ strlen s.
Proof.
  unfold strlen. induction s as [| c s IH]; [reflexivity |].
  change (c_str (String c s)) with (if code c =? 0 then "" else String c (c_str s)).
  destruct (code c =? 0); cbn [String.length]; lia.
Qed.

Lemma extract_json_body_length x : strlen (extract_json_body x) ≤ strlen x.
Proof.
  unfold extract_json_body, strlen.
  destruct (strstr x (CRLF +:+ CRLF)) as [body |] eqn:E.
  - apply strstr_length in E.
    pose proof (substring_length_le body 4 (String.length body)). lia.
  - destruct (strstr x (LF +:+ LF)) as [body |] eqn:E'; [| lia].
    apply strstr_length in E'.
    pose proof (substring_length_le body 2 (String.length body)). lia.
Qed.

(** What [handleGetPage] answers for a stored page, and its body. *)
Lemma get_page_body_stored
    (ps : PageServer.PageServer) (space page lsn : Z) (data : list byte) :
  pages ps !! page_key space page = Some data →
  get_page_body (handleGetPage (get_page_request space page lsn) ps).1
  = encode_GetPageResponse
      (mkGetPageResponse "success" (EncodeToString data) lsn "").
Proof.
  intros Hpage. unfold get_page_request.
  rewrite PageServerFacts.handleGetPage_post.
  cbn [gp_SpaceID gp_PageNo gp_LSN]. by rewrite Hpage.
Qed.

(** X13.  Client and server together.  The server holds [data] for the
    page; the client asks for the page at [lsn] and receives, in one piece
    of at most 4095 bytes, a 200 whose body is the JSON [handleGetPage]
    wrote for that request, framed as the HTTP library frames it (with any
    header lines, and with or without the size line and the trailer of a
    chunk).  Then [get_page] returns [DB_SUCCESS], the page LSN it reports
    is the [lsn] it asked for, and the buffer holds the first
    [length data / 3 * 3] bytes of [data]: the whole page when its length is
    a multiple of three, the page without its last one or two bytes
    otherwise. *)
Theorem get_page_end_to_end
    (ps : PageServer.PageServer) (space page lsn page_size : Z)
    (data : list byte) (reply gap rest : string) (s : State) :
  pages ps !! page_key space page = Some data →
  Forall is_byte data → (3 ≤ length data)%nat → 0 < lsn < 2 ^ 64 →
  3 * (Z.of_nat (length data) / 3) ≤ page_size →
  let resp := (handleGetPage (get_page_request space page lsn) ps).1 in
  holds_body reply gap (get_page_body resp +:+ rest) →
  one_chunk reply MAX_RESPONSE_SIZE → answers (world s) reply →
  page_server_enabled (glob s) = true → page_server_initialized (glob s) = true →
  ∃ s' evs,
    get_page space page lsn page_size s
    = Some ((DB_SUCCESS, take (3 * (length data `div` 3)) data, Some lsn), s') ∧
    trace (world s') = (trace (world s) ++ evs)%list ∧
    send_count evs = 1%nat ∧ recv_count evs = 1%nat ∧ sleeps evs = [].
Proof.
  intros Hpage Hbytes Hlen Hlsn Hsize resp (H200 & Hgap & Hbody) Hone Ha Hen Hinit.
  subst resp. rewrite (get_page_body_stored ps space page lsn data Hpage) in Hbody.
  set (v := EncodeToString data) in *.
  assert (Hv : v ≠ "")
    by (apply EncodeToString_nonempty; destruct data; [simpl in Hlen; lia | done]).
  pose proof (EncodeToString_b64_text data) as Hb. fold v in Hb.
  assert (Hvlen : strlen v < MAX_RESPONSE_SIZE).
  { pose proof (extract_json_body_length (c_str reply)) as H1.
    pose proof (c_str_length reply) as H2.
    destruct Hone as ((_ & H3) & _).
    rewrite Hbody, encode_success_shape in H1 by (first [done | lia]).
    rewrite !strlen_append in H1.
    unfold MAX_RESPONSE_SIZE, strlen in *. lia. }
  destruct (reads_framed_success_reply gap rest v lsn Hgap Hb Hv Hvlen Hlsn)
    as (Hst & Hpd & Hpl).
  assert (Hdec : base64_decode v page_size = take (3 * (length data `div` 3)) data)
    by (apply decode_served_page; done).
  assert (Hne : base64_decode v page_size ≠ []).
  { rewrite Hdec. destruct data as [| b0 [| b1 [| b2 tl]]]; simpl in Hlen; try lia.
    assert (E : (1 ≤ length (b0 :: b1 :: b2 :: tl) `div` 3)%nat)
      by (apply Nat.div_le_lower_bound; simpl; lia).
    destruct (length (b0 :: b1 :: b2 :: tl) `div` 3)%nat; [lia | discriminate]. }
  pose proof (get_page_delivers space page lsn page_size reply v s
                Hen Hinit Ha Hone H200) as R.
  cbv zeta in R. rewrite Hbody in R.
  specialize (R Hst Hpd ltac:(Z.div_mod_to_equations; lia) Hne).
  rewrite reported_lsn_same, Hdec in R by (by rewrite Hpl).
  apply runs_elim in R as (a & s' & evs & Hm & Ht & -> & Hpost).
  exists s', evs. split; [exact Hm |]. split; [exact Ht |]. apply Hpost.
Qed.

(** The 161 bytes that answer a read of page 1:42 at LSN 7. *)
Lemma get_page_end_to_end_witness :
  let resp := (handleGetPage (get_page_request 1 42 7) one_page_server).1 in
  let reply := sized_reply "Tue, 03 Nov 2026 08:00:00 GMT" (get_page_body resp) in
  let s := served_by reply in
  pages one_page_server !! page_key 1 42 = Some [10; 20; 30] ∧
  Forall is_byte [10; 20; 30] ∧ strlen reply = 161 ∧
  holds_body reply "" (get_page_body resp +:+ "") ∧
  one_chunk reply MAX_RESPONSE_SIZE ∧ answers (world s) reply ∧
  ∃ s' evs,
    get_page 1 42 7 16384 s
    = Some ((DB_SUCCESS, take (3 * (length [10; 20; 30] `div` 3)) [10; 20; 30],
             Some 7), s') ∧
    trace (world s') = (trace (world s) ++ evs)%list ∧
    send_count evs = 1%nat ∧ recv_count evs = 1%nat ∧ sleeps evs = [].
Proof.
  intros resp reply s.
  assert (Hb : Forall is_byte [10; 20; 30])
    by (repeat constructor; unfold is_byte; lia).
  assert (Hh : holds_body reply "" (get_page_body resp +:+ ""))
    by (repeat split; constructor).
  split; [reflexivity |]. split; [exact Hb |]. split; [reflexivity |].
  split; [exact Hh |]. split; [one_chunk_now |].
  split; [apply serving_world_answers |].
  apply (get_page_end_to_end one_page_server 1 42 7 16384 [10; 20; 30] reply "" "" s);
    first [ reflexivity | exact Hb | exact Hh | apply serving_world_answers
          | one_chunk_now | (simpl; lia) | lia ].
Defined.

(** X14.  A page read whose every attempt is answered by something else
    than a 200 (a 404 for a page the server does not hold, say): three
    requests, the two backoff delays, then [DB_ERROR], with nothing stored
    in the caller's buffer or page LSN. *)
Theorem get_page_refused_reply space_id page_no lsn page_size reply s :
  page_server_enabled (glob s) = true → page_server_initialized (glob s) = true →
  answers (world s) reply → one_chunk reply MAX_RESPONSE_SIZE →
  is_http_200 (c_str reply) = false →
  ∃ s' evs,
    get_page space_id page_no lsn page_size s = Some ((DB_ERROR, [], None), s') ∧
    trace (world s') = (trace (world s) ++ evs)%list ∧
    same_config (glob s) (glob s') ∧
    send_count evs = 3%nat ∧ recv_count evs = 3%nat ∧
    sleeps evs = [100000; 200000].
Proof.
  intros Hen Hinit Ha Hone H200.
  assert (R : runs (get_page space_id page_no lsn page_size) s
                (λ res s' evs,
                   res = (DB_ERROR, [], None) ∧ same_config (glob s) (glob s') ∧
                   send_count evs = 3%nat ∧ recv_count evs = 3%nat ∧
                   sleeps evs = [100000; 200000])).
  { unfold get_page, is_enabled, rpc_get_page.
    run_step. run_step. run_step. run_step. rewrite Hen, Hinit. simpl negb. cbv iota.
    run_step. run_step. ok_step reply. simpl negb. cbv iota. run_step.
    eapply runs_weaken;
      [apply (http_request_rejected _ _ _ _ reply); [answering reply | done | done] |].
    intros res s1 evs1 Hst1 (-> & Hcfg & Hc & Hs & Hr & Hz).
    cbv beta iota zeta. simpl negb. cbv iota.
    run_step. cbv beta iota zeta. simpl negb. cbv iota.
    run_step. run_step. run_step.
    count_all. rewrite Hs, Hr, Hz.
    repeat match goal with H : glob _ = _ |- _ => rewrite H in *; clear H end.
    repeat split; first [done | apply Hcfg]. }
  apply runs_elim in R as (a & s' & evs & Hm & Ht & -> & Hpost).
  exists s', evs. auto.
Qed.

Lemma get_page_refused_reply_witness :
  let reply := wire (handleGetPage (get_page_request 1 43 7) one_page_server).1 in
  let s := served_by reply in
  answers (world s) reply ∧ one_chunk reply MAX_RESPONSE_SIZE ∧
  is_http_200 (c_str reply) = false ∧
  ∃ s' evs,
    get_page 1 43 7 16384 s = Some ((DB_ERROR, [], None), s') ∧
    trace (world s') = (trace (world s) ++ evs)%list ∧
    same_config (glob s) (glob s') ∧
    send_count evs = 3%nat ∧ recv_count evs = 3%nat ∧
    sleeps evs = [100000; 200000].
Proof.
  intros reply s.
  split; [apply serving_world_answers |]. split; [one_chunk_now |].
  split; [reflexivity |].
  apply (get_page_refused_reply 1 43 7 16384 reply s);
    first [reflexivity | apply serving_world_answers | one_chunk_now].
Defined.

(** A reply cut inside [page_data] passes for a complete one. *)
Lemma truncated_reply_accepted
    (space_id page_no lsn page_size : Z) (page_data_b64 : string) (s : State) :
  page_server_enabled (glob s) = true → page_server_initialized (glob s) = true →
  b64_text page_data_b64 → strlen page_data_b64 ≤ 4011 →
  answers (world s) (cut_reply page_data_b64) →
  0 ≤ page_size → base64_decode page_data_b64 page_size ≠ [] →
  ∃ s' evs,
    get_page space_id page_no lsn page_size s
    = Some ((DB_SUCCESS, base64_decode page_data_b64 page_size, Some lsn), s') ∧
    trace (world s') = (trace (world s) ++ evs)%list ∧
    recv_count evs = 1%nat.
Proof.
  intros Hen Hinit Hb Hlen Ha Hsize Hbuf.
  destruct (cut_reply_facts page_data_b64 Hb ltac:(unfold MAX_RESPONSE_SIZE; lia))
    as (Hc & H200 & Hblank & Hsz & Hjson & Hst & Hpd & Hpl).
  assert (Hone : one_chunk (cut_reply page_data_b64) MAX_RESPONSE_SIZE).
  { unfold one_chunk, MAX_RESPONSE_SIZE. rewrite Hc, Hsz.
    pose proof (strlen_nonneg page_data_b64). repeat split; try lia. exact Hblank. }
  pose proof (get_page_delivers space_id page_no lsn page_size
                (cut_reply page_data_b64) page_data_b64 s
                Hen Hinit Ha Hone ltac:(by rewrite Hc)) as R.
  cbv zeta in R. rewrite Hc, Hjson in R.
  specialize (R Hst Hpd Hsize Hbuf).
  rewrite reported_lsn_same in R by (by rewrite Hpl).
  apply runs_elim in R as (a & s' & evs & Hm & Ht & -> & Hpost).
  exists s', evs. split; [exact Hm |]. split; [exact Ht |]. apply Hpost.
Qed.

(** X15.  A reply that ends inside the [page_data] string (the rest of the
    response not having been read: the read loop stops at the first chunk
    that holds the end of the header, and a chunk is at most 4095 bytes) is
    taken for a complete one.  The page read succeeds with the bytes decoded
    so far and, [page_lsn] being out of sight, with the caller's own [lsn]
    as the page LSN. *)
Theorem get_page_accepts_truncated_reply
    (space_id page_no lsn page_size : Z) (page_data_b64 : string) (s : State) :
  page_server_enabled (glob s) = true → page_server_initialized (glob s) = true →
  b64_text page_data_b64 → strlen page_data_b64 ≤ 4011 →
  answers (world s) (cut_reply page_data_b64) →
  0 ≤ page_size → base64_decode page_data_b64 page_size ≠ [] →
  ∃ s' evs,
    get_page space_id page_no lsn page_size s
    = Some ((DB_SUCCESS, base64_decode page_data_b64 page_size, Some lsn), s') ∧
    trace (world s') = (trace (world s) ++ evs)%list ∧
    recv_count evs = 1%nat.
Proof. apply truncated_reply_accepted. Qed.

Lemma get_page_accepts_truncated_reply_witness :
  let s := served_by (cut_reply "QUJDRE") in
  b64_text "QUJDRE" ∧ strlen "QUJDRE" ≤ 4011 ∧
  answers (world s) (cut_reply "QUJDRE") ∧
  base64_decode "QUJDRE" 16 = [65; 66; 67] ∧
  ∃ s' evs,
    get_page 1 42 9 16 s
    = Some ((DB_SUCCESS, base64_decode "QUJDRE" 16, Some 9), s') ∧
    trace (world s') = (trace (world s) ++ evs)%list ∧
    recv_count evs = 1%nat.
Proof.
  intros s.
  assert (Hb : b64_text "QUJDRE") by (repeat constructor).
  split; [exact Hb |]. split; [vm_compute; discriminate |].
  split; [apply serving_world_answers |]. split; [reflexivity |].
  apply (get_page_accepts_truncated_reply 1 42 9 16 "QUJDRE" s);
    first [ reflexivity | exact Hb | apply serving_world_answers | lia
          | (vm_compute; discriminate) ].
Defined.

End ReadFacts.

(** ** Page reads in any environment *)

Module ResultFacts.

Import PageServer PageServerClient Observe Scenario Base64Facts ClientLogic
  ClientLogicFacts CodecFacts TextFacts ExchangeFacts ReadFacts.

#[local] Arguments http_request : simpl never.
#[local] Arguments base64_encode : simpl never.
#[local] Arguments snprintf : simpl never.
#[local] Arguments Z.to_nat : simpl never.
#[local] Arguments base64_decode : simpl never.
#[local] Arguments json_get_string : simpl never.
#[local] Arguments json_get_uint64 : simpl never.
#[local] Arguments extract_json_body : simpl never.
#[local] Arguments String.eqb : simpl never.

Ltac result_now :=
  lazymatch goal with
  | |- _ ∧ bounded _ => split; [first [by split | idtac] | ClientFacts.bounded_now]
  end.

Lemma base64_decode_bytes inp out_len : Forall is_byte (base64_decode inp out_len).
Proof. apply base64_decode_from_bytes. Qed.

(** [rpc_get_page] returns in every environment, with a well-formed
    outcome and within the bounds of one request. *)
Lemma rpc_get_page_result space_id page_no lsn page_size s :
  0 ≤ page_size →
  runs (rpc_get_page space_id page_no lsn page_size) s
    (λ res _ evs, well_formed_result page_size res ∧ bounded evs).
Proof.
  intros Hsize. unfold rpc_get_page.
  ClientFacts.run_all. all: try result_now.
  all: ClientFacts.through_http_request; ClientFacts.run_all; try result_now.
  - destruct err; [discriminate | by split].
  - match goal with
    | E : _ || _ = true |- _ =>
        rewrite oversize_test_never_fires, orb_false_r in E by done;
        apply Z.eqb_eq in E
    end.
    split; [| done]. by apply length_zero_iff_nil, Nat2Z.inj.
  - match goal with
    | E : _ || _ = false |- context [base64_decode ?b _] =>
        apply orb_false_iff in E as [E0 _];
        pose proof (base64_decode_length b page_size Hsize);
        pose proof (base64_decode_bytes b page_size)
    end.
    repeat split; first [by eexists | lia | done].
  - match goal with
    | E : _ || _ = false |- context [base64_decode ?b _] =>
        apply orb_false_iff in E as [E0 _];
        pose proof (base64_decode_length b page_size Hsize);
        pose proof (base64_decode_bytes b page_size)
    end.
    repeat split; first [by eexists | lia | done].
Qed.

(** X16.  Whatever the environment does, a page read returns, and its
    outcome is well formed: on success the page LSN is set and the buffer
    holds between one and [page_size] bytes; on failure nothing was stored
    in the buffer or in the page LSN. *)
Theorem get_page_result_is_well_formed space_id page_no lsn page_size s :
  0 ≤ page_size →
  ∃ res s' evs,
    get_page space_id page_no lsn page_size s = Some (res, s') ∧
    trace (world s') = (trace (world s) ++ evs)%list ∧
    well_formed_result page_size res.
Proof.
  intros Hsize.
  assert (R : runs (get_page space_id page_no lsn page_size) s
                (λ res _ _, well_formed_result page_size res)).
  { unfold get_page, is_enabled.
    run_step. run_step. run_step. run_step.
    run_step; [run_step; by split |].
    run_step.
    eapply runs_weaken; [apply rpc_get_page_result, Hsize |].
    intros [[err buf] l] s1 evs1 Hst [Hres _]. cbv beta iota zeta.
    ClientFacts.run_all; exact Hres. }
  apply runs_elim in R as (res & s' & evs & Hm & Ht & Hres). eauto 10.
Qed.

Lemma get_page_result_is_well_formed_witness :
  let s := mkState enabled_globals dead_world in
  0 ≤ 16384 ∧
  ∃ res s' evs,
    get_page 1 42 7 16384 s = Some (res, s') ∧
    trace (world s') = (trace (world s) ++ evs)%list ∧
    well_formed_result 16384 res.
Proof.
  intros s. split; [lia |].
  apply (get_page_result_is_well_formed 1 42 7 16384 s). lia.
Defined.

End ResultFacts.

(** ** WAL streaming, ping, start and stop *)

Module SessionFacts.

Import PageServer PageServerClient Observe Scenario Base64Facts ClientLogic
  ClientLogicFacts CodecFacts TextFacts ExchangeFacts ReadFacts.

#[local] Arguments build_request : simpl never.
#[local] Arguments is_http_200 : simpl never.
#[local] Arguments c_str : simpl never.
#[local] Arguments Z.to_nat : simpl never.
#[local] Arguments strstr : simpl never.
#[local] Arguments String.append : simpl never.
#[local] Arguments http_request : simpl never.
#[local] Arguments backoff : simpl never.
#[local] Arguments Z.sub : simpl never.
#[local] Arguments Z.add : simpl never.
#[local] Arguments base64_encode : simpl never.
#[local] Arguments snprintf : simpl never.

(** [ping] against a server that answers. *)
Lemma ping_runs reply s :
  page_server_enabled (glob s) = true → page_server_initialized (glob s) = true →
  page_server_host (glob s) ≠ None →
  answers (world s) reply → one_chunk reply 1024 →
  runs ping s
    (λ alive s' evs,
       alive = is_http_200 (c_str reply) ∧ same_config (glob s) (glob s') ∧
       (alive = true → 0 ≤ page_server_socket (glob s')) ∧
       connect_count evs =
         (if is_http_200 (c_str reply) then (if cached (glob s) then 0 else 1)
          else (if cached (glob s) then 2 else 3))%nat ∧
       send_count evs = (if is_http_200 (c_str reply) then 1%nat else 3%nat)).
Proof.
  intros Hen Hinit Hhost Ha Hone. unfold ping.
  run_step. run_step. rewrite Hen, Hinit. simpl negb. cbv iota.
  rewrite bool_decide_eq_false_2 by done.
  run_step.
  destruct (is_http_200 (c_str reply)) eqn:H200.
  - eapply runs_weaken;
      [apply (http_request_first_try _ _ _ _ reply); [answering reply | done | done] |].
    intros res s1 evs1 Hst1 (-> & Hcfg & Hsock & Hc & Hs & Hr & Hz).
    cbv beta iota zeta. run_step. count_all. rewrite Hs.
    rewrite Hc. repeat split; first [done | apply Hcfg].
  - eapply runs_weaken;
      [apply (http_request_rejected _ _ _ _ reply); [answering reply | done | done] |].
    intros res s1 evs1 Hst1 (-> & Hcfg & Hc & Hs & Hr & Hz).
    cbv beta iota zeta. run_step. count_all. rewrite Hs.
    rewrite Hc. repeat split; first [done | apply Hcfg].
Qed.



(** The pieces [parse_address] cuts a printed address into. *)
Lemma split_address host port :
  colon_free host → 0 < port < 2 ^ 32 →
  let address := host +:+ ":" +:+ fmt_u port in
  ∃ colon, strchr address ":" = Some colon ∧
    substring 0 (String.length address - String.length colon) address = host ∧
    atoi_uint (substring 1 (String.length colon) colon) = port.
Proof.
  intros Hc Hp address. exists (String ":" (fmt_u port)). subst address.
  change (":" +:+ fmt_u port) with (String ":" (fmt_u port)).
  split; [by apply strchr_colon |]. split.
  - rewrite length_append.
    replace (String.length host + String.length (String ":" (fmt_u port))
             - String.length (String ":" (fmt_u port)))%nat
      with (String.length host) by lia.
    apply substring_prefix.
  - rewrite drop_first. rewrite <- (append_nil_r (fmt_u port)).
    apply atoi_fmt_u; [lia | exact I].
Qed.

Lemma parse_address_runs host port reply s :
  colon_free host → 0 < port < 2 ^ 32 → answers (world s) reply →
  runs (parse_address (host +:+ ":" +:+ fmt_u port)) s
    (λ r s' evs, r = Some (host, port) ∧ glob s' = glob s ∧ evs = []).
Proof.
  intros Hc Hp Ha. unfold parse_address.
  destruct (split_address host port Hc Hp) as (colon & -> & -> & ->).
  ok_step reply. ok_step reply. simpl negb. cbv iota. run_step.
  destruct (port =? 0) eqn:E; [lia |]. auto.
Qed.

(** X17.  [stream_wal] of an enabled client is decided by the status line
    of the reply alone: a 200 is [DB_SUCCESS] after one request, whatever
    the body says (the acknowledgment is not read); anything else is
    [DB_ERROR] after three. *)
Theorem stream_wal_outcome_is_http_status lsn wal_data reply s :
  page_server_enabled (glob s) = true → page_server_initialized (glob s) = true →
  answers (world s) reply → one_chunk reply 1024 →
  ∃ s' evs,
    stream_wal lsn wal_data s
    = Some (if is_http_200 (c_str reply) then DB_SUCCESS else DB_ERROR, s') ∧
    trace (world s') = (trace (world s) ++ evs)%list ∧
    same_config (glob s) (glob s') ∧
    send_count evs = (if is_http_200 (c_str reply) then 1%nat else 3%nat).
Proof.
  intros Hen Hinit Ha Hone.
  assert (R : runs (stream_wal lsn wal_data) s
                (λ res s' evs,
                   res = (if is_http_200 (c_str reply) then DB_SUCCESS else DB_ERROR) ∧
                   same_config (glob s) (glob s') ∧
                   send_count evs = (if is_http_200 (c_str reply) then 1%nat else 3%nat))).
  { unfold stream_wal, is_enabled, rpc_stream_wal.
    run_step. run_step. run_step. run_step. rewrite Hen, Hinit. simpl negb. cbv iota.
    run_step. ok_step reply. simpl negb. cbv iota. run_step.
    destruct (is_http_200 (c_str reply)) eqn:H200.
    - eapply runs_weaken;
        [apply (http_request_first_try _ _ _ _ reply); [answering reply | done | done] |].
      intros res s1 evs1 Hst1 (-> & Hcfg & Hsock & Hc & Hs & Hr & Hz).
      cbv beta iota zeta. run_step. count_all. rewrite Hs.
      repeat match goal with H : glob _ = _ |- _ => rewrite H in *; clear H end.
      repeat split; first [done | apply Hcfg].
    - eapply runs_weaken;
        [apply (http_request_rejected _ _ _ _ reply); [answering reply | done | done] |].
      intros res s1 evs1 Hst1 (-> & Hcfg & Hc & Hs & Hr & Hz).
      cbv beta iota zeta. run_step. count_all. rewrite Hs.
      repeat match goal with H : glob _ = _ |- _ => rewrite H in *; clear H end.
      repeat split; first [done | apply Hcfg]. }
  apply runs_elim in R as (a & s' & evs & Hm & Ht & -> & Hpost).
  exists s', evs. auto.
Qed.

Lemma stream_wal_outcome_is_http_status_witness :
  let reply := http_ok ("{" +:+ jstr "status" +:+ ":" +:+ jstr "error" +:+ "}") in
  let s := served_by reply in
  answers (world s) reply ∧ one_chunk reply 1024 ∧
  is_http_200 (c_str reply) = true ∧
  ∃ s' evs,
    stream_wal 1000 [72; 105] s
    = Some (if is_http_200 (c_str reply) then DB_SUCCESS else DB_ERROR, s') ∧
    trace (world s') = (trace (world s) ++ evs)%list ∧
    same_config (glob s) (glob s') ∧
    send_count evs = (if is_http_200 (c_str reply) then 1%nat else 3%nat).
Proof.
  intros reply s.
  split; [apply serving_world_answers |]. split; [one_chunk_now |].
  split; [reflexivity |].
  apply (stream_wal_outcome_is_http_status 1000 [72; 105] reply s);
    first [reflexivity | apply serving_world_answers | one_chunk_now].
Defined.

(** X18.  [ping] of an enabled client is decided by the status line of the
    reply: [true] on a 200 after one request, [false] on anything else after
    three; the body is not read. *)
Theorem ping_outcome_is_http_status reply s :
  page_server_enabled (glob s) = true → page_server_initialized (glob s) = true →
  page_server_host (glob s) ≠ None →
  answers (world s) reply → one_chunk reply 1024 →
  ∃ s' evs,
    ping s = Some (is_http_200 (c_str reply), s') ∧
    trace (world s') = (trace (world s) ++ evs)%list ∧
    same_config (glob s) (glob s') ∧
    send_count evs = (if is_http_200 (c_str reply) then 1%nat else 3%nat).
Proof.
  intros Hen Hinit Hhost Ha Hone.
  pose proof (ping_runs reply s Hen Hinit Hhost Ha Hone) as R.
  apply runs_elim in R as (a & s' & evs & Hm & Ht & -> & Hcfg & _ & _ & Hs).
  exists s', evs. auto.
Qed.

Lemma ping_outcome_is_http_status_witness :
  let reply := http_ok "{}" in
  let s := served_by reply in
  page_server_host (glob s) ≠ None ∧ answers (world s) reply ∧
  one_chunk reply 1024 ∧
  ∃ s' evs,
    ping s = Some (is_http_200 (c_str reply), s') ∧
    trace (world s') = (trace (world s) ++ evs)%list ∧
    same_config (glob s) (glob s') ∧
    send_count evs = (if is_http_200 (c_str reply) then 1%nat else 3%nat).
Proof.
  intros reply s.
  split; [discriminate |]. split; [apply serving_world_answers |].
  split; [one_chunk_now |].
  apply (ping_outcome_is_http_status reply s);
    first [reflexivity | discriminate | apply serving_world_answers | one_chunk_now].
Defined.

(** X19.  [init] with an address [host:port] whose server answers the ping
    with a 200: the client is enabled, host and port are the two parts of
    the address, the connection made for the ping is kept for the calls to
    come, and [init] reports [true]. *)
Theorem init_connects_and_enables (host : string) (port : Z) (reply : string) (s : State) :
  colon_free host → 0 < port < 2 ^ 32 →
  answers (world s) reply → one_chunk reply 1024 →
  is_http_200 (c_str reply) = true →
  let address := host +:+ ":" +:+ fmt_u port in
  ∃ s' evs,
    init (Some address) s = Some (true, s') ∧
    trace (world s') = (trace (world s) ++ evs)%list ∧
    set_up address host port (glob s') ∧
    is_enabled s' = Some (true, s') ∧
    send_count evs = 1%nat ∧ (connect_count evs ≤ 1)%nat.
Proof.
  intros Hc Hp Ha Hone H200 address.
  assert (R : runs (init (Some address)) s
                (λ r s' evs, r = true ∧ set_up address host port (glob s') ∧
                             send_count evs = 1%nat ∧ (connect_count evs ≤ 1)%nat)).
  { unfold init.
    assert (Hne : (strlen address =? 0) = false).
    { apply Z.eqb_neq. subst address. unfold strlen. rewrite length_append.
      change (":" +:+ fmt_u port) with (String ":" (fmt_u port)).
      cbn [String.length]. lia. }
    cbn [from_option default]. rewrite bool_decide_eq_false_2 by done.
    rewrite Hne. simpl orb. cbv iota.
    ok_step reply. ok_step reply. simpl negb. cbv iota.
    ok_step reply. ok_step reply. ok_step reply.
    eapply runs_weaken; [apply (parse_address_runs host port reply); try done; answering reply |].
    intros r s2 evs2 Hst2 (-> & Hg2 & ->). cbv beta iota.
    ok_step reply. ok_step reply. ok_step reply. ok_step reply.
    ok_step reply. ok_step reply. ok_step reply. ok_step reply. ok_step reply.
    assert (Hg : glob s6 = set_initialized true (set_enabled true (set_port port
                   (set_host (Some host) (set_address (Some address) (glob s0)))))).
    { repeat match goal with H : glob _ = _ |- _ => rewrite H; clear H end. reflexivity. }
    eapply runs_weaken;
      [apply (ping_runs reply); [by rewrite Hg | by rewrite Hg | by rewrite Hg
                                | answering reply | done] |].
    intros alive s7 evs7 Hst7 (-> & Hcfg & Hsock & Hcn & Hsn). cbv beta.
    rewrite H200 in *. simpl negb. cbv iota.
    ok_step reply. ok_step reply. ok_step reply.
    count_all. rewrite Hsn.
    destruct Hcfg as (C1 & C2 & C3 & C4 & C5). rewrite Hg in C1, C2, C3, C4, C5.
    cbn in C1, C2, C3, C4, C5.
    repeat match goal with H : glob ?x = glob _ |- context [glob ?x] => rewrite H end.
    unfold set_up. repeat split; try done; try (by apply Hsock).
    destruct (cached (glob s6)); lia. }
  apply runs_elim in R as (a & s' & evs & Hm & Ht & -> & Hset & Hsn & Hcn).
  exists s', evs. repeat split; try done; try apply Hset.
  unfold is_enabled, mbind, client_bind, get_glob, mret, client_ret.
  destruct Hset as (-> & -> & _). reflexivity.
Qed.

Lemma init_connects_and_enables_witness :
  let reply := http_ok "{}" in
  let s := mkState initial_globals (serving_world reply) in
  let address := "localhost" +:+ ":" +:+ fmt_u 8081 in
  colon_free "localhost" ∧ 0 < 8081 < 2 ^ 32 ∧ answers (world s) reply ∧
  one_chunk reply 1024 ∧ is_http_200 (c_str reply) = true ∧
  ∃ s' evs,
    init (Some address) s = Some (true, s') ∧
    trace (world s') = (trace (world s) ++ evs)%list ∧
    set_up address "localhost" 8081 (glob s') ∧
    is_enabled s' = Some (true, s') ∧
    send_count evs = 1%nat ∧ (connect_count evs ≤ 1)%nat.
Proof.
  intros reply s address.
  split; [exact colon_free_localhost |]. split; [lia |].
  split; [apply serving_world_answers |]. split; [one_chunk_now |].
  split; [reflexivity |].
  apply (init_connects_and_enables "localhost" 8081 reply s);
    first [ exact colon_free_localhost | lia | apply serving_world_answers
          | one_chunk_now | reflexivity ].
Defined.

(** X20.  [init] without an address (a null pointer or the empty string)
    succeeds and leaves the client initialized but disabled, without any
    I/O; from then on [ping] reports [true], page reads fail with
    [DB_ERROR], and WAL records are dropped with [DB_SUCCESS], all without
    any I/O. *)
Theorem init_without_address_disables (address : option string) (s : State) :
  address = None ∨ address = Some "" →
  ∃ s',
    init address s = Some (true, s') ∧ world s' = world s ∧
    glob s' = set_initialized true (set_enabled false (glob s)) ∧
    ping s' = Some (true, s') ∧
    (∀ space_id page_no lsn page_size,
       get_page space_id page_no lsn page_size s' = Some ((DB_ERROR, [], None), s')) ∧
    (∀ lsn wal_data, stream_wal lsn wal_data s' = Some (DB_SUCCESS, s')).
Proof.
  intros H.
  exists (mkState (set_initialized true (set_enabled false (glob s))) (world s)).
  split; [by destruct H as [-> | ->] |].
  repeat split.
Qed.

Lemma init_without_address_disables_witness :
  let s := mkState initial_globals dead_world in
  ∃ s',
    init None s = Some (true, s') ∧ world s' = world s ∧
    glob s' = set_initialized true (set_enabled false (glob s)) ∧
    ping s' = Some (true, s') ∧
    (∀ space_id page_no lsn page_size,
       get_page space_id page_no lsn page_size s' = Some ((DB_ERROR, [], None), s')) ∧
    (∀ lsn wal_data, stream_wal lsn wal_data s' = Some (DB_SUCCESS, s')).
Proof.
  intros s. apply (init_without_address_disables None s). left. reflexivity.
Defined.

(** X21.  [shutdown] closes the cached socket if there is one and resets
    the client to its state before [init], the port apart; a second
    [shutdown] changes nothing and closes nothing, and the client is
    disabled. *)
Theorem shutdown_resets_and_is_idempotent (s : State) :
  ∃ s',
    shutdown s = Some (tt, s') ∧
    glob s' = mkGlobals false false None None (page_server_port (glob s))
                (if 0 <=? page_server_socket (glob s) then -1
                 else page_server_socket (glob s)) ∧
    trace (world s') =
      (trace (world s) ++
       (if 0 <=? page_server_socket (glob s)
        then [EvClose (page_server_socket (glob s))] else []))%list ∧
    page_server_socket (glob s') < 0 ∧
    shutdown s' = Some (tt, s') ∧
    is_enabled s' = Some (false, s').
Proof.
  unfold shutdown, is_enabled, mbind, client_bind, get_glob, mret, client_ret, close,
    emit, set_glob.
  destruct s as [[en ini addr host port sock] w]. cbn.
  destruct (0 <=? sock) eqn:E; cbn.
  - eexists. split; [reflexivity |]. cbn. by repeat split.
  - eexists. split; [reflexivity |]. cbn. rewrite E. cbn.
    rewrite app_nil_r. repeat split. lia.
Qed.

End SessionFacts.

(** ** Batch reads *)

Module BatchFacts.

Import PageServer PageServerClient Observe Scenario Base64Facts ClientLogic
  ClientLogicFacts CodecFacts TextFacts ExchangeFacts ReadFacts ResultFacts.

#[local] Arguments http_request : simpl never.
#[local] Arguments rpc_get_page : simpl never.
#[local] Arguments Z.to_nat : simpl never.

(** A computation that runs yields its value. *)
Lemma runs_yields {A} (m : M A) s (Q : A → State → list event → Prop) :
  runs m s Q → runs m s (λ a s' evs, m s = Some (a, s') ∧ Q a s' evs).
Proof.
  intros (a & s' & Hm & evs & Hs & HQ). exists a, s'. split; [done |].
  exists evs. auto.
Qed.

(** The loop invariant of the batch read. *)
Lemma get_pages_loop_runs srv_page_size requests :
  ∀ success_count s,
    0 ≤ srv_page_size → 0 ≤ success_count →
    success_count + Z.of_nat (length requests) < 2 ^ 64 →
    runs (get_pages_loop srv_page_size requests success_count) s
      (λ res s' evs,
         read_in_turn srv_page_size requests res.1 s s' ∧
         length res.1 = length requests ∧
         res.2 = success_count + successes res.1 ∧
         Forall (well_formed srv_page_size) res.1 ∧
         (connect_count evs ≤ 3 * length requests)%nat ∧
         (send_count evs ≤ 3 * length requests)%nat).
Proof.
  induction requests as [| r rest IH]; intros n s Hsize Hn Hroom; cbn [get_pages_loop].
  - run_step. unfold successes. simpl. repeat split; first [lia | constructor].
  - run_step.
    eapply runs_weaken; [apply runs_yields, rpc_get_page_result, Hsize |].
    intros [[err buf] l] s1 evs1 Hst [Hrun [Hres (Hc1 & Hs1 & _)]].
    cbv beta iota zeta.
    run_step.
    set (n' := if dberr_eqb err DB_SUCCESS then wrap64 (n + 1) else n).
    assert (Hn' : n' = n + (if dberr_eqb err DB_SUCCESS then 1 else 0)).
    { subst n'. destruct (dberr_eqb err DB_SUCCESS); [| lia].
      unfold wrap64. rewrite Z.mod_small; [lia |]. simpl length in Hroom. lia. }
    eapply runs_weaken;
      [apply (IH n'); [done | destruct (dberr_eqb err DB_SUCCESS); lia
                      | simpl length in Hroom; destruct (dberr_eqb err DB_SUCCESS); lia] |].
    intros [results m] s2 evs2 Hst2 (Hturn & Hlen & Hm & Hwf & Hc2 & Hs2).
    cbv beta iota zeta. run_step. cbn [fst snd] in *.
    count_events. unfold bounded, MAX_RETRIES in *.
    change (Z.to_nat (2 + 1)) with 3%nat in *.
    unfold connect_count, send_count in *.
    split; [exists s1; split; [exact Hrun | exact Hturn] |].
    split; [simpl; lia |]. split.
    { rewrite Hm, Hn'. unfold successes. cbn [List.filter rs_err].
      destruct (dberr_eqb err DB_SUCCESS); simpl length; lia. }
    split; [constructor; [exact Hres | exact Hwf] |].
    simpl length. lia.
Qed.

(** X22.  The batch read of an enabled client is the single reads taken in
    turn: result [i] holds the status, the bytes and the page LSN that
    [rpc_get_page] gives for request [i], run in the state the read of
    request [i - 1] left, so there is one result per request, in the order
    of the requests.  A client that is not enabled writes no result and does
    nothing.  What the call returns is the number of results marked
    [DB_SUCCESS]; every result is well formed, so the [page_lsn] field of a
    failed entry was assigned from a variable nothing had been stored in;
    and at most three connections are made per request.  The call returns
    whatever the environment does. *)
Theorem get_pages_batch_counts_successes
    (srv_page_size : Z) (requests : list PageRequest) (s : State) :
  0 ≤ srv_page_size → Z.of_nat (length requests) < 2 ^ 64 →
  ∃ n results s' evs,
    get_pages_batch srv_page_size (Some requests) true s = Some ((n, results), s') ∧
    trace (world s') = (trace (world s) ++ evs)%list ∧
    n = successes results ∧ 0 ≤ n ≤ Z.of_nat (length requests) ∧
    Forall (well_formed srv_page_size) results ∧
    (connect_count evs ≤ 3 * length requests)%nat ∧
    (if page_server_enabled (glob s) && page_server_initialized (glob s)
     then read_in_turn srv_page_size requests results s s' ∧
          length results = length requests
     else results = [] ∧ evs = [] ∧ s' = s).
Proof.
  intros Hsize Hroom.
  assert (R : runs (get_pages_batch srv_page_size (Some requests) true) s
                (λ res s' evs,
                   res.1 = successes res.2 ∧
                   Forall (well_formed srv_page_size) res.2 ∧
                   (connect_count evs ≤ 3 * length requests)%nat ∧
                   (if page_server_enabled (glob s) && page_server_initialized (glob s)
                    then read_in_turn srv_page_size requests res.2 s s' ∧
                         length res.2 = length requests
                    else res.2 = [] ∧ evs = [] ∧ s' = s))).
  { unfold get_pages_batch, is_enabled.
    run_step. run_step. run_step. run_step.
    destruct (page_server_enabled (glob s) && page_server_initialized (glob s)).
    - simpl. run_step.
      eapply runs_weaken; [apply get_pages_loop_runs; [done | lia | lia] |].
      intros [results m] s2 evs2 Hst2 (Hturn & Hlen & Hm & Hwf & Hc2 & Hs2).
      cbv beta iota zeta. run_step. cbn [fst snd] in *.
      count_events. unfold connect_count in *. repeat split.
      + lia.
      + done.
      + lia.
      + done.
      + done.
    - simpl. run_step. cbn [fst snd].
      repeat split; first [reflexivity | constructor | unfold connect_count; simpl; lia]. }
  apply runs_elim in R as ([n results] & s' & evs & Hm & Ht & Hn & Hwf & Hc & Hlen).
  cbn [fst snd] in *.
  exists n, results, s', evs. repeat split; try done.
  - subst n. unfold successes. lia.
  - subst n. unfold successes.
    pose proof (List.filter_length_le (λ r, dberr_eqb (rs_err r) DB_SUCCESS) results).
    destruct (page_server_enabled (glob s) && page_server_initialized (glob s)).
    + lia.
    + destruct Hlen as [-> _]. simpl. lia.
Qed.

(** Pages 42 and 43 of space 1 read in one batch from [two_page_server]:
    each result holds the image of its own page, and both count. *)
Lemma get_pages_batch_counts_successes_witness :
  let date := "Tue, 03 Nov 2026 08:00:00 GMT" in
  let answer page :=
    sized_reply date
      (get_page_body (handleGetPage (get_page_request 1 page 7) two_page_server).1) in
  let requests := [mkPageRequest 1 42 7; mkPageRequest 1 43 7] in
  let s := mkState enabled_globals (replying_world [answer 42; answer 43]) in
  0 ≤ 16384 ∧ Z.of_nat (length requests) < 2 ^ 64 ∧
  fst <$> get_pages_batch 16384 (Some requests) true s
    = Some (2, [mkPageResult DB_SUCCESS (Some 7) [10; 20; 30];
                mkPageResult DB_SUCCESS (Some 7) [40; 50; 60]]) ∧
  ∃ n results s' evs,
    get_pages_batch 16384 (Some requests) true s = Some ((n, results), s') ∧
    trace (world s') = (trace (world s) ++ evs)%list ∧
    n = successes results ∧ 0 ≤ n ≤ Z.of_nat (length requests) ∧
    Forall (well_formed 16384) results ∧
    (connect_count evs ≤ 3 * length requests)%nat ∧
    (if page_server_enabled (glob s) && page_server_initialized (glob s)
     then read_in_turn 16384 requests results s s' ∧
          length results = length requests
     else results = [] ∧ evs = [] ∧ s' = s).
Proof.
  intros date answer requests s. split; [lia |]. split; [reflexivity |].
  split; [vm_compute; reflexivity |].
  apply (get_pages_batch_counts_successes 16384 requests s); [lia | reflexivity].
Defined.

End BatchFacts.

(** ** The server over a sequence of requests *)

Module ServerFacts.

Import PageServer PageServerClient Observe Scenario Base64Facts CodecFacts.

(** One request adds the record it asks to keep, if it asks for one, and
    acknowledges it under the record's LSN; it leaves the page map alone. *)
Lemma serve_step (c : Call) (s : PageServer.PageServer) :
  walRecords (serve c s).2
    = (walRecords s ++ option_list (asks_to_keep c))%list ∧
  acked_lsn (serve c s).1 = LSN <$> asks_to_keep c ∧
  pages (serve c s).2 = pages s.
Proof.
  destruct c as [r | r | method]; cbn [serve asks_to_keep option_list fmap option_fmap option_map].
  - rewrite PageServerFacts.handleGetPage_frame, app_nil_r.
    split; [done |]. split; [| done].
    unfold handleGetPage.
    destruct (negb (String.eqb (Method r) MethodPost)); [reflexivity |].
    destruct (Body r) as [req |]; [| reflexivity].
    unfold mbind, handler_bind, read_page.
    destruct (pages s !! page_key (gp_SpaceID req) (gp_PageNo req)); reflexivity.
  - unfold handleStreamWAL, described.
    destruct (String.eqb (Method r) MethodPost); cbn [negb];
      [| by rewrite app_nil_r].
    destruct (Body r) as [req |]; cbn; [| by rewrite app_nil_r].
    destruct (DecodeString (sw_WALData req)) as [walData |]; cbn;
      [done | by rewrite app_nil_r].
  - unfold handlePing. rewrite app_nil_r.
    destruct (negb (String.eqb method MethodGet)); done.
Qed.

Lemma serve_all_pages (cs : list Call) :
  ∀ s, pages (serve_all cs s).2 = pages s.
Proof.
  induction cs as [| c cs IH]; intros s; [reflexivity |].
  cbn [serve_all]. unfold mbind, handler_bind.
  destruct (serve_step c s) as (_ & _ & Hp).
  destruct (serve c s) as [r s1]. cbn [fst snd] in *.
  specialize (IH s1). destruct (serve_all cs s1) as [rs s2]. cbn [fst snd] in *.
  unfold mret, handler_ret. cbn [snd]. congruence.
Qed.

(** X23.  Whatever requests arrive, in whatever order, the WAL list only
    grows at its end.  What was stored stays in place.  The records added
    are those the calls ask to keep, one for each StreamWAL POST whose
    payload is base64, in order of arrival: each holds the request's LSN,
    space and page and the bytes the payload decodes to; nothing is sorted,
    merged, altered or dropped.  The calls acknowledged are those same
    calls, each under its own LSN, and every other call is answered without
    an acknowledgment.  The page map is the one the server started with. *)
Theorem wal_log_is_append_only (cs : list Call) (s : PageServer.PageServer) :
  let (replies, s') := serve_all cs s in
  walRecords s' = (walRecords s ++ omap asks_to_keep cs)%list ∧
  acked_lsn <$> replies = (λ c, LSN <$> asks_to_keep c) <$> cs ∧
  acks replies = LSN <$> omap asks_to_keep cs ∧
  pages s' = pages s.
Proof.
  revert s. induction cs as [| c cs IH]; intros s.
  - cbn. by rewrite app_nil_r.
  - cbn [serve_all]. unfold mbind, handler_bind.
    destruct (serve_step c s) as (Hw & Ha & Hp).
    destruct (serve c s) as [r s1]. cbn [fst snd] in *.
    specialize (IH s1). destruct (serve_all cs s1) as [rs s2].
    destruct IH as (Hw' & Ha' & Hk' & Hp').
    unfold mret, handler_ret.
    rewrite Hw', Hw, Hp', Hp, <- app_assoc. unfold acks in *.
    cbn [omap list_omap fmap list_fmap]. rewrite Ha, Hk'.
    split; [by destruct (asks_to_keep c) |].
    split; [by rewrite <- Ha' |].
    split; [by destruct (asks_to_keep c) | done].
Qed.

(** X24.  A server started by [NewPageServer] never serves a page: no
    handler stores one, so every page read is answered 404, however many
    WAL records have been acknowledged before. *)
Theorem fresh_server_never_serves_a_page (cs : list Call) (req : GetPageRequest) :
  let s := (serve_all cs NewPageServer).2 in
  let reply := (handleGetPage (mkRequest MethodPost (Some req)) s).1 in
  StatusCode reply = StatusNotFound ∧ served reply = None.
Proof.
  intros s reply. subst reply.
  rewrite PageServerFacts.handleGetPage_post.
  pose proof (serve_all_pages cs NewPageServer) as Hp. fold s in Hp.
  rewrite Hp. cbn [pages NewPageServer]. rewrite lookup_empty. split; reflexivity.
Qed.

(** X25.  What [handleGetPage] sends for a stored page is the stored image:
    a standard base64 decoder gives back exactly the bytes of the page map,
    whatever their number. *)
Theorem get_page_reply_carries_stored_image
    (s : PageServer.PageServer) (req : GetPageRequest) (data : list byte) :
  Forall is_byte data →
  pages s !! page_key (gp_SpaceID req) (gp_PageNo req) = Some data →
  let reply := (handleGetPage (mkRequest MethodPost (Some req)) s).1 in
  StatusCode reply = StatusOK ∧
  (served reply ≫= DecodeString) = Some data.
Proof.
  intros Hbytes Hd reply. subst reply.
  rewrite PageServerFacts.handleGetPage_post, Hd. cbn.
  split; [reflexivity |]. apply std_round_trip, Hbytes.
Qed.

Lemma get_page_reply_carries_stored_image_witness :
  let req := mkGetPageRequest 1 42 7 in
  let reply := (handleGetPage (mkRequest MethodPost (Some req)) one_page_server).1 in
  Forall is_byte [10; 20; 30] ∧
  pages one_page_server !! page_key (gp_SpaceID req) (gp_PageNo req)
    = Some [10; 20; 30] ∧
  StatusCode reply = StatusOK ∧
  (served reply ≫= DecodeString) = Some [10; 20; 30].
Proof.
  intros req reply.
  assert (Hb : Forall is_byte [10; 20; 30])
    by (repeat constructor; unfold is_byte; lia).
  split; [exact Hb |]. split; [reflexivity |].
  apply (get_page_reply_carries_stored_image one_page_server req [10; 20; 30]);
    [exact Hb | reflexivity].
Defined.

(** X26.  The record the server stores for a client's [stream_wal] holds the
    client's bytes: the server's decoder inverts the client's encoder on the
    buffer [rpc_stream_wal] allocates, padding included, so WAL records are
    not subject to the loss that page images suffer on the way back. *)
Theorem stream_wal_stores_client_bytes
    (s : PageServer.PageServer) (lsn space page : Z) (wal_data : list byte) :
  Forall is_byte wal_data →
  let wal_len := Z.of_nat (length wal_data) in
  let wal_b64 := base64_encode wal_data (((wal_len + 2) / 3) * 4 + 1) in
  let (reply, s') := handleStreamWAL (stream_wal_request lsn wal_b64 space page) s in
  acked_lsn reply = Some lsn ∧
  walRecords s' = (walRecords s ++ [mkWALRecord lsn wal_data space page])%list ∧
  pages s' = pages s.
Proof.
  intros Hbytes wal_len wal_b64. unfold stream_wal_request.
  rewrite PageServerFacts.handleStreamWAL_post. cbn [sw_WALData sw_LSN sw_SpaceID sw_PageNo].
  assert (Hdec : DecodeString wal_b64 = Some wal_data)
    by (subst wal_b64 wal_len; apply decode_client_wal, Hbytes).
  rewrite Hdec. repeat split.
Qed.

Lemma stream_wal_stores_client_bytes_witness :
  Forall is_byte [72; 105] ∧
  let wal_b64 := base64_encode [72; 105] (((Z.of_nat (length [72; 105]) + 2) / 3) * 4 + 1) in
  let (reply, s') := handleStreamWAL (stream_wal_request 1000 wal_b64 1 42) NewPageServer in
  acked_lsn reply = Some 1000 ∧
  walRecords s' = (walRecords NewPageServer ++ [mkWALRecord 1000 [72; 105] 1 42])%list ∧
  pages s' = pages NewPageServer.
Proof.
  assert (Hb : Forall is_byte [72; 105])
    by (repeat constructor; unfold is_byte; lia).
  split; [exact Hb |].
  apply (stream_wal_stores_client_bytes NewPageServer 1000 1 42 [72; 105] Hb).
Defined.

End ServerFacts.

(** ** The cached connection *)

Module ConnectionFacts.

Import PageServer PageServerClient Observe Scenario Base64Facts ClientLogic
  ClientLogicFacts CodecFacts TextFacts ExchangeFacts ReadFacts.

#[local] Arguments is_http_200 : simpl never.
#[local] Arguments c_str : simpl never.
#[local] Arguments strstr : simpl never.
#[local] Arguments String.append : simpl never.
#[local] Arguments http_request : simpl never.
#[local] Arguments base64_decode : simpl never.
#[local] Arguments extract_json_body : simpl never.
#[local] Arguments json_get_string : simpl never.
#[local] Arguments json_get_uint64 : simpl never.

Lemma cached_after (g g' : Globals) :
  same_config g g' → page_server_host g ≠ None → 0 ≤ page_server_socket g' →
  cached g' = true.
Proof.
  intros (_ & _ & _ & Hh & _) Hhost Hsock. unfold cached. rewrite Hh.
  rewrite bool_decide_eq_false_2 by done.
  destruct (page_server_socket g' <? 0) eqn:E; [lia | reflexivity].
Qed.

(** X27.  The connection is reused: of two page reads in a row that the
    server answers, the first opens at most one connection and the second
    opens none; both are sent on the socket the first one left cached. *)
Theorem consecutive_reads_share_a_connection
    (space_id page_no lsn space_id' page_no' lsn' page_size : Z)
    (reply page_data_b64 : string) (s : State) :
  page_server_enabled (glob s) = true → page_server_initialized (glob s) = true →
  page_server_host (glob s) ≠ None →
  answers (world s) reply → one_chunk reply MAX_RESPONSE_SIZE →
  is_http_200 (c_str reply) = true →
  let json := extract_json_body (c_str reply) in
  json_get_string json "status" 64 = Some "success" →
  json_get_string json "page_data" MAX_RESPONSE_SIZE = Some page_data_b64 →
  0 ≤ page_size → base64_decode page_data_b64 page_size ≠ [] →
  ∃ r1 s1 evs1 r2 s2 evs2,
    get_page space_id page_no lsn page_size s = Some (r1, s1) ∧
    trace (world s1) = (trace (world s) ++ evs1)%list ∧
    get_page space_id' page_no' lsn' page_size s1 = Some (r2, s2) ∧
    trace (world s2) = (trace (world s1) ++ evs2)%list ∧
    r1.1.1 = DB_SUCCESS ∧ r2.1.1 = DB_SUCCESS ∧
    (connect_count evs1 ≤ 1)%nat ∧ connect_count evs2 = 0%nat ∧
    send_count evs1 = 1%nat ∧ send_count evs2 = 1%nat.
Proof.
  intros Hen Hinit Hhost Ha Hone H200 json Hstatus Hdata Hsize Hbuf.
  destruct (get_page_delivers space_id page_no lsn page_size reply page_data_b64 s
              Hen Hinit Ha Hone H200 Hstatus Hdata Hsize Hbuf)
    as (r1 & s1 & Hm1 & evs1 & Hst1 & -> & Hcfg1 & Hsock1 & Hc1 & Hs1 & _).
  pose proof (cached_after _ _ Hcfg1 Hhost Hsock1) as Hcached.
  pose proof Hcfg1 as (E1 & E2 & _).
  destruct (get_page_delivers space_id' page_no' lsn' page_size reply page_data_b64 s1
              ltac:(congruence) ltac:(congruence)
              (steps_answers _ _ _ _ Hst1 Ha) Hone H200 Hstatus Hdata Hsize Hbuf)
    as (r2 & s2 & Hm2 & evs2 & Hst2 & -> & Hcfg2 & Hsock2 & Hc2 & Hs2 & _).
  rewrite Hcached in Hc2.
  eexists _, s1, evs1, _, s2, evs2.
  destruct Hst1 as [_ Ht1]. destruct Hst2 as [_ Ht2].
  split; [exact Hm1 |]. split; [exact Ht1 |].
  split; [exact Hm2 |]. split; [exact Ht2 |].
  repeat split; try done.
  rewrite Hc1. destruct (cached (glob s)); lia.
Qed.

Lemma consecutive_reads_share_a_connection_witness :
  let reply :=
    http_ok ("{" +:+ jstr "status" +:+ ":" +:+ jstr "success" +:+ "," +:+
             jstr "page_data" +:+ ":" +:+ jstr "QUJD" +:+ "}") in
  let s := served_by reply in
  page_server_host (glob s) ≠ None ∧
  answers (world s) reply ∧ one_chunk reply MAX_RESPONSE_SIZE ∧
  ∃ r1 s1 evs1 r2 s2 evs2,
    get_page 1 42 9 16 s = Some (r1, s1) ∧
    trace (world s1) = (trace (world s) ++ evs1)%list ∧
    get_page 1 43 9 16 s1 = Some (r2, s2) ∧
    trace (world s2) = (trace (world s1) ++ evs2)%list ∧
    r1.1.1 = DB_SUCCESS ∧ r2.1.1 = DB_SUCCESS ∧
    (connect_count evs1 ≤ 1)%nat ∧ connect_count evs2 = 0%nat ∧
    send_count evs1 = 1%nat ∧ send_count evs2 = 1%nat.
Proof.
  intros reply s.
  split; [discriminate |]. split; [apply serving_world_answers |].
  split; [one_chunk_now |].
  apply (consecutive_reads_share_a_connection 1 42 9 1 43 9 16 reply "QUJD" s);
    first [ reflexivity | discriminate | apply serving_world_answers | one_chunk_now
          | lia | (vm_compute; discriminate) ].
Defined.

End ConnectionFacts.

(** ** Pages larger than one read *)

Module LargePageFacts.

Import PageServer PageServerClient Observe Scenario Base64Facts ClientLogic
  ClientLogicFacts CodecFacts TextFacts ExchangeFacts ReadFacts.

#[local] Arguments Z.shiftl : simpl never.
#[local] Arguments Z.shiftr : simpl never.
#[local] Arguments Z.land : simpl never.
#[local] Arguments Z.lor : simpl never.
#[local] Arguments Z.modulo : simpl never.
#[local] Arguments Z.add : simpl never.
#[local] Arguments Z.mul : simpl never.
#[local] Arguments Z.ltb : simpl never.
#[local] Arguments Z.eqb : simpl never.
#[local] Arguments Z.to_nat : simpl never.
#[local] Arguments b64_char : simpl never.
#[local] Arguments b64_index : simpl never.
#[local] Arguments code : simpl never.
#[local] Arguments wrap32 : simpl never.
#[local] Arguments String.append : simpl never.
#[local] Arguments base64_decode_from : simpl never.

(** Prefixes of a concatenation. *)
Lemma substring_append_short a :
  ∀ n b, (n ≤ String.length a)%nat → substring 0 n (a +:+ b) = substring 0 n a.
Proof.
  induction a as [| c a IH]; intros n b Hn.
  - simpl in Hn. assert (n = 0%nat) as -> by lia. by destruct b.
  - destruct n; [reflexivity |]. rewrite append_cons. simpl. f_equal.
    apply IH. simpl in Hn. lia.
Qed.

Lemma substring_append_long a :
  ∀ n b, (String.length a ≤ n)%nat →
         substring 0 n (a +:+ b) = a +:+ substring 0 (n - String.length a) b.
Proof.
  induction a as [| c a IH]; intros n b Hn.
  - rewrite !append_nil_l. simpl. by rewrite Nat.sub_0_r.
  - destruct n; [simpl in Hn; lia |]. rewrite !append_cons. simpl. f_equal.
    apply IH. simpl in Hn. lia.
Qed.

Lemma length_substring v : ∀ n, (n ≤ String.length v)%nat → String.length (substring 0 n v) = n.
Proof.
  induction v as [| c v IH]; intros n Hn.
  - simpl in Hn. by assert (n = 0%nat) as -> by lia.
  - destruct n; [reflexivity |]. simpl. f_equal. apply IH. simpl in Hn. lia.
Qed.

Lemma b64_text_substring v : ∀ n, b64_text v → b64_text (substring 0 n v).
Proof.
  unfold b64_text. induction v as [| c v IH]; intros n H.
  - destruct n; constructor.
  - destruct n; [constructor |]. simpl in *. apply Forall_cons in H as [Hc H].
    constructor; [done | by apply IH].
Qed.

(** The server's encoder works group by group. *)
Lemma EncodeToString_app (n : nat) :
  ∀ g rest, length g = (3 * n)%nat →
            EncodeToString (g ++ rest) = EncodeToString g +:+ EncodeToString rest.
Proof.
  induction n as [| n IH]; intros g rest Hlen.
  - destruct g; [reflexivity | discriminate].
  - destruct g as [| b0 [| b1 [| b2 g]]]; simpl in Hlen; try lia.
    cbn [app EncodeToString]. cbv zeta. rewrite !append_cons. do 4 f_equal.
    apply IH. lia.
Qed.

Lemma EncodeToString_length (n : nat) :
  ∀ g, length g = (3 * n)%nat → String.length (EncodeToString g) = (4 * n)%nat.
Proof.
  induction n as [| n IH]; intros g Hlen.
  - destruct g; [reflexivity | discriminate].
  - destruct g as [| b0 [| b1 [| b2 g]]]; simpl in Hlen; try lia.
    cbn [EncodeToString]. cbv zeta. cbn [String.length]. rewrite (IH g) by lia. lia.
Qed.

(** The decoder over whole groups, with more text to come. *)
Lemma decode_groups (n : nat) :
  ∀ g tail i j dec_len,
    length g = (3 * n)%nat → Forall is_byte g → i mod 4 = 0 →
    j + 3 * Z.of_nat n ≤ dec_len →
    base64_decode_from (EncodeToString g +:+ tail) i j 0 0 dec_len
    = (g ++ base64_decode_from tail (i + 4 * Z.of_nat n) (j + 3 * Z.of_nat n) 0 0
              dec_len)%list.
Proof.
  induction n as [| n IH]; intros g tail i j dec_len Hlen Hbytes Hi Hdec.
  - destruct g; [| discriminate]. cbn [EncodeToString app]. rewrite append_nil_l.
    f_equal; lia.
  - destruct g as [| b0 [| b1 [| b2 g]]]; simpl in Hlen; try lia.
    inversion Hbytes as [| ? ? B0 Hb1]; subst.
    inversion Hb1 as [| ? ? B1 Hb2]; subst.
    inversion Hb2 as [| ? ? B2 Hrest]; subst.
    cbn [EncodeToString]. cbv zeta. rewrite !append_cons.
    rewrite decode_shift by (first [apply sextet_range | Z.div_mod_to_equations; lia]).
    rewrite decode_shift by (first [apply sextet_range | Z.div_mod_to_equations; lia]).
    rewrite decode_shift by (first [apply sextet_range | Z.div_mod_to_equations; lia]).
    rewrite decode_emit by (first [apply sextet_range | Z.div_mod_to_equations; lia]).
    cbv zeta.
    destruct (regroup b0 b1 b2 B0 B1 B2) as (R0 & R1 & R2). cbv zeta in R0, R1, R2.
    rewrite R0, R1, R2. cbn [app]. do 3 f_equal.
    replace (i + 1 + 1 + 1 + 1) with (i + 4) by lia.
    rewrite (IH g tail (i + 4) (j + 3) dec_len)
      by (first [assumption | lia | Z.div_mod_to_equations; lia]).
    do 2 f_equal; lia.
Qed.

(** What the client decodes from a page's encoding cut after [k]
    characters, inside a group of three bytes: the whole groups before the
    cut; the characters of the open group are dropped. *)
Lemma decode_cut_encoding (k : nat) (data : list byte) (dec_len : Z) :
  Forall is_byte data → (3 * (k `div` 4) + 3 ≤ length data)%nat →
  3 * Z.of_nat (k `div` 4) ≤ dec_len →
  base64_decode (substring 0 k (EncodeToString data)) dec_len
  = take (3 * (k `div` 4)) data.
Proof.
  intros Hbytes Hlen Hdec.
  pose proof (Nat.div_mod_eq k 4) as Hk.
  pose proof (Nat.mod_upper_bound k 4 ltac:(lia)) as Hr.
  set (n := (k `div` 4)%nat) in *. set (r := (k `mod` 4)%nat) in *.
  clearbody n r. subst k.
  rewrite <- (take_drop (3 * n) data) at 1.
  assert (Hg : length (take (3 * n) data) = (3 * n)%nat) by (rewrite length_take; lia).
  assert (Hd : (3 ≤ length (drop (3 * n) data))%nat) by (rewrite length_drop; lia).
  assert (Hgb : Forall is_byte (take (3 * n) data)) by (by apply Forall_take).
  destruct (drop (3 * n) data) as [| b0 [| b1 [| b2 rest]]]; simpl in Hd; try lia.
  rewrite (EncodeToString_app n) by done.
  rewrite substring_append_long by (rewrite (EncodeToString_length n); [lia | done]).
  rewrite (EncodeToString_length n) by done.
  replace (4 * n + r - 4 * n)%nat with r by lia.
  cbn [EncodeToString]. cbv zeta.
  unfold base64_decode.
  destruct r as [| [| [| [| r]]]]; [.. | lia]; cbn [substring];
    rewrite (decode_groups n) by (first [done | lia | reflexivity]);
    (destruct (Z.lt_ge_cases (0 + 3 * Z.of_nat n) dec_len) as [Hj | Hj];
       [| rewrite decode_full by lia; apply app_nil_r]);
    rewrite ?decode_shift
      by (first [exact Hj | apply sextet_range | (Z.div_mod_to_equations; lia)]);
    apply app_nil_r.
Qed.

(** A success body cut inside [page_data]. *)
Lemma cut_of_success_body v lsn (k : nat) :
  v ≠ "" → lsn ≠ 0 → (k ≤ String.length v)%nat →
  substring 0 (page_data_offset + k)
    (encode_GetPageResponse (mkGetPageResponse "success" v lsn ""))
  = "{" +:+ jstr "status" +:+ ":" +:+ jstr "success" +:+ "," +:+
    jstr "page_data" +:+ ":" +:+ String dquote (substring 0 k v).
Proof.
  intros Hv Hl Hlen.
  rewrite encode_success_shape by done.
  match goal with
  | |- substring 0 _ (?P +:+ _) = _ =>
      assert (HP : String.length P = page_data_offset) by reflexivity;
      rewrite (substring_append_long P) by (rewrite HP; lia);
      rewrite HP
  end.
  replace (page_data_offset + k - page_data_offset)%nat with k by lia.
  rewrite substring_append_short by done.
  unfold jstr. rewrite ?append_assoc. reflexivity.
Qed.

(** A page of [3 n + 3] bytes or more has an encoding of more than
    [4 n + 3] characters. *)
Lemma encoding_length_above (n : nat) (data : list byte) :
  (3 * n + 3 ≤ length data)%nat →
  (4 * n + 4 ≤ String.length (EncodeToString data))%nat.
Proof.
  intros Hlen.
  rewrite <- (take_drop (3 * S n) data).
  rewrite (EncodeToString_app (S n)) by (rewrite length_take; lia).
  rewrite length_append.
  rewrite (EncodeToString_length (S n)) by (rewrite length_take; lia).
  lia.
Qed.

(** X28.  Client and server together, for a page too large for one read.
    One [recv] takes at most 4095 bytes, and the client reads no further
    once it holds the end of the header.  When what it holds then is a 200
    whose body is the beginning of the JSON [handleGetPage] wrote, cut after
    [k] characters of [page_data] and inside a group of the encoding,
    [get_page] returns [DB_SUCCESS] all the same: the buffer holds the first
    [3 * (k / 4)] bytes of the image, fewer than the image has, and the
    page LSN reported is the caller's [lsn].  How many characters that is
    depends on the header lines the HTTP library sends, which are left
    open. *)
Theorem get_page_cuts_large_page
    (ps : PageServer.PageServer) (space page lsn page_size : Z)
    (data : list byte) (chunk gap : string) (k : nat) (s : State) :
  pages ps !! page_key space page = Some data →
  Forall is_byte data → 0 < lsn < 2 ^ 64 →
  (4 ≤ k)%nat → (3 * (k `div` 4) + 3 ≤ length data)%nat →
  3 * Z.of_nat (k `div` 4) ≤ page_size →
  let resp := (handleGetPage (get_page_request space page lsn) ps).1 in
  holds_body chunk gap (substring 0 (page_data_offset + k) (get_page_body resp)) →
  one_chunk chunk MAX_RESPONSE_SIZE → answers (world s) chunk →
  page_server_enabled (glob s) = true → page_server_initialized (glob s) = true →
  ∃ s' evs,
    get_page space page lsn page_size s
    = Some ((DB_SUCCESS, take (3 * (k `div` 4)) data, Some lsn), s') ∧
    (3 * (k `div` 4) < length data)%nat ∧
    trace (world s') = (trace (world s) ++ evs)%list ∧
    recv_count evs = 1%nat.
Proof.
  intros Hpage Hbytes Hlsn Hk Hlen Hsize resp (H200 & Hgap & Hbody) Hone Ha Hen Hinit.
  subst resp. rewrite (get_page_body_stored ps space page lsn data Hpage) in Hbody.
  set (v := EncodeToString data) in *.
  pose proof (encoding_length_above (k `div` 4) data Hlen) as Hvlen. fold v in Hvlen.
  assert (Hkv : (k ≤ String.length v)%nat).
  { pose proof (Nat.div_mod_eq k 4). pose proof (Nat.mod_upper_bound k 4). lia. }
  assert (Hv : v ≠ "").
  { intros E. rewrite E in Hvlen. simpl in Hvlen. lia. }
  rewrite cut_of_success_body in Hbody by (first [done | lia]).
  set (w := substring 0 k v) in *.
  assert (Hw : b64_text w) by (apply b64_text_substring, EncodeToString_b64_text).
  assert (Hwlen : strlen w < MAX_RESPONSE_SIZE).
  { pose proof (extract_json_body_length (c_str chunk)) as H1.
    pose proof (c_str_length chunk) as H2.
    destruct Hone as ((_ & H3) & _).
    rewrite Hbody in H1.
    change (String dquote w) with (String dquote "" +:+ w) in H1.
    rewrite !strlen_append in H1.
    unfold MAX_RESPONSE_SIZE, strlen in *. lia. }
  destruct (cut_reply_facts w Hw Hwlen) as (_ & _ & _ & _ & _ & Hst & Hpd & Hpl).
  assert (Hdec : base64_decode w page_size = take (3 * (k `div` 4)) data)
    by (subst w v; apply decode_cut_encoding; done).
  assert (Hq : (1 ≤ k `div` 4)%nat) by (apply Nat.div_le_lower_bound; lia).
  assert (Hne : base64_decode w page_size ≠ []).
  { rewrite Hdec. intros E. apply (f_equal length) in E.
    rewrite length_take in E. cbn [length] in E. lia. }
  pose proof (get_page_delivers space page lsn page_size chunk w s
                Hen Hinit Ha Hone H200) as R.
  cbv zeta in R. rewrite Hbody in R. unfold reported_lsn in R.
  rewrite (json_get_string_skip gap _ "status"),
    (json_get_string_skip gap _ "page_data"), json_get_uint64_skip in R
    by exact Hgap.
  specialize (R Hst Hpd ltac:(lia) Hne).
  rewrite Hpl, Hdec in R.
  replace (default lsn (if freed_intact (world s) then None else None))
    with lsn in R by (by destruct (freed_intact (world s))).
  apply runs_elim in R as (a & s' & evs & Hm & Ht & -> & Hpost).
  exists s', evs. split; [exact Hm |]. split; [lia |]. split; [exact Ht |].
  apply Hpost.
Qed.

Lemma large_page_bytes : Forall is_byte large_page.
Proof.
  unfold large_page. apply Forall_replicate. unfold is_byte. lia.
Qed.

(** The 3009-byte page of [large_page_server], sent chunked: the body has
    4061 bytes (fdd in hexadecimal), the first 4095 bytes of the reply end
    3941 characters into [page_data], and the client is handed 2955
    bytes. *)
Lemma get_page_cuts_large_page_witness :
  let resp := (handleGetPage (get_page_request 1 42 7) large_page_server).1 in
  let reply :=
    chunked_reply "Tue, 03 Nov 2026 08:00:00 GMT" "fdd" (get_page_body resp) in
  let chunk := substring 0 (Z.to_nat 4095) reply in
  let gap := "fdd" +:+ CRLF in
  let s := served_by chunk in
  pages large_page_server !! page_key 1 42 = Some large_page ∧
  Forall is_byte large_page ∧ length large_page = 3009%nat ∧
  strlen (get_page_body resp) = 4061 ∧ strlen chunk = 4095 ∧
  holds_body chunk gap
    (substring 0 (page_data_offset + 3941) (get_page_body resp)) ∧
  one_chunk chunk MAX_RESPONSE_SIZE ∧ answers (world s) chunk ∧
  (3 * (3941 `div` 4))%nat = 2955%nat ∧
  ∃ s' evs,
    get_page 1 42 7 16384 s
    = Some ((DB_SUCCESS, take (3 * (3941 `div` 4)) large_page, Some 7), s') ∧
    (3 * (3941 `div` 4) < length large_page)%nat ∧
    trace (world s') = (trace (world s) ++ evs)%list ∧
    recv_count evs = 1%nat.
Proof.
  intros resp reply chunk gap s.
  assert (Hp : pages large_page_server !! page_key 1 42 = Some large_page)
    by apply lookup_singleton_eq.
  assert (Hh : holds_body chunk gap
                 (substring 0 (page_data_offset + 3941) (get_page_body resp))).
  { split; [vm_compute; reflexivity |]. split; [repeat constructor |].
    vm_compute. reflexivity. }
  assert (Ho : one_chunk chunk MAX_RESPONSE_SIZE).
  { split; [vm_compute; split; [reflexivity | discriminate] |].
    split; [vm_compute; reflexivity |]. split; [vm_compute; reflexivity |].
    vm_compute. by eexists. }
  assert (Hl : length large_page = 3009%nat)
    by (unfold large_page; rewrite length_replicate; lia).
  assert (Hq : (3941 `div` 4)%nat = 985%nat) by reflexivity.
  split; [exact Hp |]. split; [exact large_page_bytes |].
  split; [exact Hl |]. split; [vm_compute; reflexivity |].
  split; [vm_compute; reflexivity |]. split; [exact Hh |]. split; [exact Ho |].
  split; [apply serving_world_answers |]. split; [reflexivity |].
  apply (get_page_cuts_large_page
           large_page_server 1 42 7 16384 large_page chunk gap 3941 s);
    first [ exact Hp | exact large_page_bytes | exact Hh | exact Ho
          | apply serving_world_answers | reflexivity
          | (rewrite Hq, ?Hl; lia) | lia ].
Defined.

End LargePageFacts.

(** ** After a failed start *)

Module FailedStartFacts.

Import PageServer PageServerClient Observe Scenario Base64Facts ClientLogic
  ClientLogicFacts CodecFacts TextFacts ExchangeFacts.

#[local] Arguments http_request : simpl never.
#[local] Arguments Z.to_nat : simpl never.
#[local] Arguments strchr : simpl never.
#[local] Arguments atoi_uint : simpl never.
#[local] Arguments String.substring : simpl never.

Lemma steps_malloc s s' evs :
  steps s s' evs → (∀ k, malloc_result (world s) k = true) →
  ∀ k, malloc_result (world s') k = true.
Proof. intros [(_ & _ & _ & A & _) _] H k. rewrite A. apply H. Qed.

Lemma runs_my_malloc_true s (Q : bool → State → list event → Prop) :
  (∀ k, malloc_result (world s) k = true) →
  (∀ s', glob s' = glob s → steps s s' [] → Q true s' []) →
  runs my_malloc s Q.
Proof.
  intros Hm HQ. eexists _, _. split; [reflexivity |]. exists [].
  rewrite Hm.
  split; [| apply HQ; [reflexivity |]];
    (split; [repeat split | simpl; by rewrite app_nil_r]).
Qed.

Ltac malloc_step :=
  lazymatch goal with
  | |- runs my_malloc _ _ =>
      apply runs_my_malloc_true; [eauto 10 using steps_malloc |];
      let s := fresh "s" in intros s ? ?
  | |- _ => run_step
  end; cbv beta.

(** [init] when nothing can be reached and memory is available. *)
Lemma init_unreachable_runs addr s :
  addr ≠ "" → unreachable (world s) → (∀ k, malloc_result (world s) k = true) →
  runs (init (Some addr)) s
    (λ r s' evs,
       r = false ∧ page_server_enabled (glob s') = false ∧
       page_server_initialized (glob s') = true ∧
       page_server_address (glob s') = None ∧ page_server_host (glob s') = None).
Proof.
  intros Hne U Hm. unfold init, parse_address, ping. cbn [from_option default].
  rewrite bool_decide_eq_false_2 by done.
  destruct (strlen addr =? 0) eqn:Hlen.
  { apply Z.eqb_eq, ClientFacts.strlen_zero in Hlen. contradiction. }
  simpl orb. cbv iota.
  repeat (malloc_step; ClientFacts.glob_facts; simpl).
  all: eapply runs_weaken; [apply http_request_runs; lia |];
    intros [err response] s' evs Hst (Hcfg & _ & _ & _ & _ & Hun);
    assert (err = DB_ERROR) as -> by (apply Hun; eauto 10 using steps_unreachable);
    repeat (malloc_step; ClientFacts.glob_facts; simpl).
  all: destruct Hcfg as (_ & Hi & _); rewrite Hi;
    repeat match goal with H : glob ?x = _ |- context [glob ?x] => rewrite H end;
    repeat split.
Qed.

(** X29.  After a start that failed because the server could not be
    reached, the client is disabled but stays initialized: [ping] then
    reports [true] (a disabled client counts as healthy) without any I/O,
    while [is_enabled] is false and page reads fail at once. *)
Theorem ping_reports_healthy_after_failed_init (addr : string) (s : State) :
  addr ≠ "" → unreachable (world s) → (∀ k, malloc_result (world s) k = true) →
  ∃ s' evs,
    init (Some addr) s = Some (false, s') ∧
    trace (world s') = (trace (world s) ++ evs)%list ∧
    ping s' = Some (true, s') ∧
    is_enabled s' = Some (false, s') ∧
    (∀ space_id page_no lsn page_size,
       get_page space_id page_no lsn page_size s' = Some ((DB_ERROR, [], None), s')).
Proof.
  intros Hne U Hm.
  destruct (init_unreachable_runs addr s Hne U Hm)
    as (r & s' & Hrun & evs & [_ Ht] & -> & Hen & Hinit & _).
  exists s', evs. split; [exact Hrun |]. split; [exact Ht |].
  unfold ping, get_page, is_enabled, mbind, client_bind, get_glob, mret, client_ret.
  rewrite Hen, Hinit. repeat split.
Qed.

Lemma ping_reports_healthy_after_failed_init_witness :
  let s := mkState initial_globals dead_world in
  unreachable (world s) ∧ (∀ k, malloc_result (world s) k = true) ∧
  ∃ s' evs,
    init (Some "localhost:8080") s = Some (false, s') ∧
    trace (world s') = (trace (world s) ++ evs)%list ∧
    ping s' = Some (true, s') ∧
    is_enabled s' = Some (false, s') ∧
    (∀ space_id page_no lsn page_size,
       get_page space_id page_no lsn page_size s' = Some ((DB_ERROR, [], None), s')).
Proof.
  intros s.
  split; [apply ClientFacts.dead_world_unreachable |]. split; [reflexivity |].
  apply (ping_reports_healthy_after_failed_init "localhost:8080" s);
    [discriminate | apply ClientFacts.dead_world_unreachable | reflexivity].
Defined.

End FailedStartFacts.
